(** * PyXRF: per-pixel fitting pipeline and numerical helpers

    A shallow embedding of the parts of [pyxrf/model/utils.py] and
    [pyxrf/model/fit_spectrum.py] that carry the fitting pipeline:
    scaler normalisation, grid interpolation, the ADMM solver, the
    pixel-fitting controller with its binning helpers, and the
    branching-ratio helper.

    Conventions.
    - Python exceptions are values of [exn]; a call that may raise returns
      a [result].
    - numpy arrays that are shared or mutated in place live in a store of
      buffers and are passed by reference.
    - Array elements of [utils.py] are exact rationals ([Q]); the only
      place where the program divides by a quantity that can be zero (the
      convergence ratio of the ADMM loop) is given numpy's outcome
      explicitly ([inf] or [nan]).  The controller of [fit_spectrum.py] is
      generic in the element type. *)

From Stdlib Require Import ZArith QArith Qabs Qround String Ascii List Bool Lia Lqa Permutation.
From stdpp Require Import base list.
Import ListNotations.

Local Open Scope Q_scope.

(** ** Exceptions and results *)

Inductive exn : Type :=
| AssertionError (msg : string) (shown : list Q)
| ValueError (msg : string)
| IndexError
| TypeError
| AttributeError
| KeyError (key : string)
| ZeroDivisionError
| LinAlgError
| UnboundLocalError
| InvalidReference.

Inductive result (A : Type) : Type :=
| Ok (a : A)
| Raise (e : exn).

Arguments Ok {A} a.
Arguments Raise {A} e.

Definition rbind {A B : Type} (m : result A) (k : A -> result B) : result B :=
  match m with
  | Ok a => k a
  | Raise e => Raise e
  end.

Notation "'try' x '<-' m ';' k" := (rbind m (fun x => k))
  (at level 10, x pattern, m at level 100, k at level 200).

Fixpoint rmap {A B : Type} (f : A -> result B) (l : list A) : result (list B) :=
  match l with
  | [] => Ok []
  | a :: l' =>
      try b <- f a;
      try bs <- rmap f l';
      Ok (b :: bs)
  end.

(** ** The store: buffers addressed by location

    A computation takes the store and returns its outcome together with
    the store it leaves behind, also when it raises. *)

Definition loc := nat.

Definition St (B A : Type) : Type := list B -> result A * list B.

Definition sret {B A : Type} (a : A) : St B A := fun h => (Ok a, h).

Definition sraise {B A : Type} (e : exn) : St B A := fun h => (Raise e, h).

Definition sbind {B A C : Type} (m : St B A) (k : A -> St B C) : St B C :=
  fun h =>
    match m h with
    | (Ok a, h') => k a h'
    | (Raise e, h') => (Raise e, h')
    end.

Definition slift {B A : Type} (r : result A) : St B A := fun h => (r, h).

Notation "'run' x '<-' m ';' k" := (sbind m (fun x => k))
  (at level 10, x pattern, m at level 100, k at level 200).

Definition alloc {B : Type} (b : B) : St B loc :=
  fun h => (Ok (length h), h ++ [b]).

Definition load {B : Type} (l : loc) : St B B :=
  fun h =>
    match h !! l with
    | Some b => (Ok b, h)
    | None => (Raise InvalidReference, h)
    end.

Definition store {B : Type} (l : loc) (b : B) : St B unit :=
  fun h => (Ok tt, <[l := b]> h).

(** [frames h0 m V]: run in a store that begins with [h0], the
    computation [m] leaves a store that begins with [h0], and a value it
    returns satisfies [V]. *)
Definition frames {B A : Type} (h0 : list B) (m : St B A) (V : A -> Prop) : Prop :=
  forall ext, exists ext',
    snd (m (h0 ++ ext)) = h0 ++ ext' /\
    forall a, fst (m (h0 ++ ext)) = Ok a -> V a.

(** A Python value that is either [None] or a reference to an array. *)

Inductive pyref : Type :=
| PyNone
| PyArr (l : loc).

(** * utils.py *)

Module Utils.

(** An [ndarray]: its shape and its elements in row-major order. *)

Record ndarray : Type := mk_ndarray { shape : list nat; elems : list Q }.

Definition size (a : ndarray) : nat := length (elems a).

Definition shape_eqb (s1 s2 : list nat) : bool := bool_decide (s1 = s2).

Definition nonzero (q : Q) : bool := negb (Qeq_bool q 0).

Definition count_nonzero (a : ndarray) : nat := length (List.filter nonzero (elems a)).

Definition Qsum (l : list Q) : Q := fold_right Qplus 0 l.

(** [np.mean] of a non-empty selection. *)
Definition np_mean (l : list Q) : Q := Qsum l / inject_Z (Z.of_nat (length l)).

Definition np_sign (q : Q) : Q :=
  if Qlt_le_dec q 0 then -1 else if Qlt_le_dec 0 q then 1 else 0.

Definition Qltb (a b : Q) : bool := negb (Qle_bool b a).

Definition tiny : Q := 1 # 10000000000.

(** [name in names]. *)
Definition name_in (n : string) (names : list string) : bool := existsb (String.eqb n) names.

(** [normalize_data_by_scaler(data_in, scaler, *, data_name, name_not_scalable)].
    The arrays are passed by reference; the returned reference is either
    [data_in] itself or a freshly allocated quotient. *)
Definition normalize_data_by_scaler (data_in scaler : pyref)
  (data_name : option string) (name_not_scalable : option (list string)) : St ndarray pyref :=
  match data_in, scaler with
  | PyNone, _ => sret data_in
  | _, PyNone => sret data_in
  | PyArr ld, PyArr ls =>
      run d <- load ld;
      run s <- load ls;
      if negb (shape_eqb (shape d) (shape s)) then sret data_in
      else
        let do_scaling :=
          match name_not_scalable, data_name with
          | None, _ => true
          | _, None => true
          | Some names, Some n => negb (name_in n names)
          end in
        let n_nonzero := count_nonzero s in
        let do_scaling := if Nat.eqb n_nonzero 0 then false else do_scaling in
        if do_scaling then
          run ls' <-
            (if negb (Nat.eqb (size d) n_nonzero) then
               let s_mean := np_mean (List.filter nonzero (elems s)) in
               let s_mean :=
                 if Qltb (Qabs s_mean) tiny
                 then (if Qle_bool 0 (np_sign s_mean) then tiny else - tiny)
                 else s_mean in
               run lc <- alloc s;
               run c <- load lc;
               run _ <- store lc (mk_ndarray (shape c)
                          (map (fun q => if Qeq_bool q 0 then s_mean else q) (elems c)));
               sret lc
             else sret ls);
          run s' <- load ls';
          run lo <- alloc (mk_ndarray (shape d) (zip_with Qdiv (elems d) (elems s')));
          sret (PyArr lo)
        else sret data_in
  end.

(** The inputs for which normalisation is skipped. *)
Inductive skipped (h : list ndarray) : pyref -> pyref -> option string -> option (list string) -> Prop :=
| skip_scaler_none data_in dn nn :
    skipped h data_in PyNone dn nn
| skip_shape ld ls d s dn nn :
    h !! ld = Some d -> h !! ls = Some s -> shape d <> shape s ->
    skipped h (PyArr ld) (PyArr ls) dn nn
| skip_all_zero ld ls d s dn nn :
    h !! ld = Some d -> h !! ls = Some s -> Forall (fun q => q == 0) (elems s) ->
    skipped h (PyArr ld) (PyArr ls) dn nn
| skip_excluded ld ls d s n names :
    h !! ld = Some d -> h !! ls = Some s -> In n names ->
    skipped h (PyArr ld) (PyArr ls) (Some n) (Some names).

(** ** grid_interpolate

    [np.median], [np.mgrid] and [scipy.interpolate.griddata] belong to
    numpy and scipy; the interpolation path calls them through this
    interface. *)

Class GridLib : Type := {
  np_median : list Q -> Q;
  np_mgrid : Q -> Q -> nat -> Q -> Q -> nat -> ndarray * ndarray;
  griddata_linear : list (Q * Q) -> list Q -> ndarray -> ndarray -> ndarray
}.

Definition msg_shape_data : string :=
  "Shapes of data and coordinate arrays do not match. (function 'grid_interpolate')".
Definition msg_shape_xy : string :=
  "Shapes of coordinate arrays 'xx' and 'yy' do not match. (function 'grid_interpolate')".
Definition msg_shape_xu : string :=
  "Shapes of data and array of uniform coordinates 'xx_uniform' do not match. (function 'grid_interpolate')".
Definition msg_shape_yu : string :=
  "Shapes of data and array of uniform coordinates 'yy_uniform' do not match. (function 'grid_interpolate')".

(** [a.shape] of a Python value: [None] has no attribute [shape]. *)
Definition shape_of (r : pyref) : St ndarray (list nat) :=
  match r with
  | PyNone => sraise AttributeError
  | PyArr l => run a <- load l; sret (shape a)
  end.

(** [vv[i, j]] of a two-dimensional array with [nx] columns. *)
Definition at2 (nx : nat) (vv : ndarray) (i j : nat) : Q := nth (i * nx + j) (elems vv) 0.

Definition column (ny nx : nat) (vv : ndarray) (j : nat) : list Q :=
  map (fun i => at2 nx vv i j) (seq 0 ny).

Definition row (nx : nat) (vv : ndarray) (i : nat) : list Q :=
  map (fun j => at2 nx vv i j) (seq 0 nx).

Definition _get_range `{GridLib} (ny nx : nat) (vv : ndarray) : Q * Q :=
  if Qltb (Qabs (at2 nx vv 0 0 - at2 nx vv (ny - 1) 0))
          (Qabs (at2 nx vv 0 0 - at2 nx vv 0 (nx - 1)))
  then (np_median (column ny nx vv 0), np_median (column ny nx vv (nx - 1)))
  else (np_median (row nx vv 0), np_median (row nx vv (ny - 1))).

Definition is_none (r : pyref) : bool :=
  match r with PyNone => true | PyArr _ => false end.

Definition grid_interpolate `{GridLib} (data xx yy xx_uniform yy_uniform : pyref)
  : St ndarray (pyref * pyref * pyref) :=
  run _ <- (if negb (is_none data) then
              run sd <- shape_of data;
              run sx <- shape_of xx;
              if negb (shape_eqb sd sx) then sraise (ValueError msg_shape_data) else sret tt
            else sret tt);
  run sx <- shape_of xx;
  run sy <- shape_of yy;
  if negb (shape_eqb sx sy) then sraise (ValueError msg_shape_xy) else
  run _ <- (if negb (is_none xx_uniform) then
              run su <- shape_of xx_uniform;
              if negb (shape_eqb su sx) then sraise (ValueError msg_shape_xu) else sret tt
            else sret tt);
  run _ <- (if negb (is_none yy_uniform) then
              run su <- shape_of xx_uniform;
              if negb (shape_eqb su sx) then sraise (ValueError msg_shape_yu) else sret tt
            else sret tt);
  match sx with
  | [ny; nx] =>
      if (nx <=? 1)%nat || (ny <=? 1)%nat then sret (data, xx, yy)
      else
        match xx, yy with
        | PyArr lx, PyArr ly =>
            run ax <- load lx;
            run ay <- load ly;
            let '(x_min, x_max) := _get_range ny nx ax in
            let '(y_min, y_max) := _get_range ny nx ay in
            let '(_yy_uniform, _xx_uniform) := np_mgrid y_min y_max ny x_min x_max nx in
            run xx_uniform <- (if is_none xx_uniform
                               then run l <- alloc _xx_uniform; sret (PyArr l)
                               else sret xx_uniform);
            run yy_uniform <- (if is_none yy_uniform
                               then run l <- alloc _yy_uniform; sret (PyArr l)
                               else sret yy_uniform);
            let xxyy := combine (elems ax) (elems ay) in
            match data, xx_uniform, yy_uniform with
            | PyArr ldt, PyArr lxu, PyArr lyu =>
                run ad <- load ldt;
                run axu <- load lxu;
                run ayu <- load lyu;
                run l <- alloc (griddata_linear xxyy (elems ad) axu ayu);
                sret (PyArr l, xx_uniform, yy_uniform)
            | _, _, _ => sret (PyNone, xx_uniform, yy_uniform)
            end
        | _, _ => sraise AttributeError
        end
  | _ => sraise (ValueError "not enough values to unpack")
  end.

(** A library instance for calls that return before the interpolation. *)
Definition idle_grid_lib : GridLib := {|
  np_median := fun _ => 0;
  np_mgrid := fun _ _ _ _ _ _ => (mk_ndarray [] [], mk_ndarray [] []);
  griddata_linear := fun _ _ a _ => a
|}.

(** ** fitting_admm *)

Definition matrix : Type := list (list Q).

(** [n] rows of width [w] read off a row-major element list. *)
Definition chunk (n w : nat) (l : list Q) : matrix :=
  map (fun i => take w (drop (i * w) l)) (seq 0 n).

Definition mcol (j : nat) (m : matrix) : list Q := map (fun r => nth j r 0) m.

Definition transpose (nc : nat) (m : matrix) : matrix := map (fun j => mcol j m) (seq 0 nc).

Definition dot (a b : list Q) : Q := Qsum (zip_with Qmult a b).

(** [np.matmul x y] where [y] has [nc] columns. *)
Definition matmul (nc : nat) (x y : matrix) : matrix :=
  map (fun r => map (fun j => dot r (mcol j y)) (seq 0 nc)) x.

Definition madd (x y : matrix) : matrix := zip_with (zip_with Qplus) x y.
Definition msub (x y : matrix) : matrix := zip_with (zip_with Qminus) x y.
Definition mscale (x : matrix) (c : Q) : matrix := map (map (fun q => q * c)) x.

Definition eye (n : nat) : matrix :=
  map (fun i => map (fun j => if Nat.eqb i j then 1 else 0) (seq 0 n)) (seq 0 n).

Definition full (r c : nat) (v : Q) : matrix := repeat (repeat v c) r.

(** [x.clip(min=0)] on one element. *)
Definition clip0 (q : Q) : Q := if Qlt_le_dec q 0 then 0 else q.

Definition mclip (x : matrix) : matrix := map (map clip0) x.

(** [np.linalg.inv]: the exact inverse by Gauss-Jordan elimination;
    [None] stands for [LinAlgError] (singular matrix). *)
Fixpoint extract_pivot (k : nat) (rows : matrix) : option (list Q * matrix) :=
  match rows with
  | [] => None
  | r :: rest =>
      if nonzero (nth k r 0) then Some (r, rest)
      else match extract_pivot k rest with
           | Some (p, others) => Some (p, r :: others)
           | None => None
           end
  end.

Fixpoint gauss_jordan (steps k : nat) (finished todo : matrix) : option matrix :=
  match steps with
  | O => Some finished
  | S steps' =>
      match extract_pivot k todo with
      | None => None
      | Some (p, rest) =>
          let p' := map (fun q => Qred (q / nth k p 0)) p in
          let elim := fun r => zip_with (fun a b => Qred (a - nth k r 0 * b)) r p' in
          gauss_jordan steps' (S k) (map elim finished ++ [p']) (map elim rest)
      end
  end.

Definition linalg_inv (n : nat) (m : matrix) : option matrix :=
  match gauss_jordan n 0 [] (zip_with app m (eye n)) with
  | Some rows => Some (map (drop n) rows)
  | None => None
  end.

(** The value of [np.linalg.norm] and of the quotient of two norms.
    [Root sq] is the non-negative real number whose square is [sq], so
    that the Frobenius norm (the square root of a sum of squares) is held
    exactly; [Inf] and [NaN] are numpy's outcomes of a division by zero. *)
Inductive npfloat : Type :=
| Root (sq : Q)
| Inf
| NaN.

Definition sumsq (m : matrix) : Q := Qsum (map (fun q => q * q) (concat m)).

Definition linalg_norm (m : matrix) : npfloat := Root (sumsq m).

Definition np_divide (a b : npfloat) : npfloat :=
  match a, b with
  | Root x, Root y =>
      if Qeq_bool y 0 then (if Qeq_bool x 0 then NaN else Inf) else Root (x / y)
  | Root x, Inf => Root 0
  | Inf, Root _ => Inf
  | _, _ => NaN
  end.

(** [v < epsilon]: comparisons with [nan] are false. *)
Definition np_less (v : npfloat) (epsilon : Q) : bool :=
  match v with
  | Root sq => Qltb 0 epsilon && Qltb sq (epsilon * epsilon)
  | Inf => false
  | NaN => false
  end.

Record admm_vars : Type := mk_admm_vars {
  var_w : matrix;
  var_u : matrix;
  var_convergence : list npfloat;
  var_feasibility : list npfloat;
  var_n_iter : nat
}.

(** The [for i in range(maxiter)] loop, with its [break]. *)
Fixpoint admm_loop (m1 z : matrix) (n_pixels : nat) (rate epsilon : Q)
  (iters : list nat) (st : admm_vars) : admm_vars :=
  match iters with
  | [] => st
  | i :: iters' =>
      let m2 := madd z (mscale (msub (var_w st) (var_u st)) rate) in
      let x := matmul n_pixels m1 m2 in
      let w_updated := madd x (var_u st) in
      let w_updated := mclip w_updated in
      let u := msub (madd (var_u st) x) w_updated in
      let conv := np_divide (linalg_norm (msub w_updated (var_w st))) (linalg_norm w_updated) in
      let convergence := <[i := conv]> (var_convergence st) in
      let feasibility := <[i := linalg_norm (msub x w_updated)]> (var_feasibility st) in
      if np_less conv epsilon
      then mk_admm_vars w_updated u convergence feasibility (i + 1)
      else admm_loop m1 z n_pixels rate epsilon iters'
             (mk_admm_vars w_updated u convergence feasibility (var_n_iter st))
  end.

Definition msg_ndim : string := "The array 'ref_spectra' must have 2 dimensions".
Definition msg_n_pts : string :=
  "ADMM fitting: number of spectrum points in data ({n_pts}) and references ({n_pts_2}) do not match.".
Definition msg_rate : string := "ADMM fitting: parameter 'rate' is zero or negative ({rate:.6g})".
Definition msg_maxiter : string := "ADMM fitting: parameter 'maxiter' is zero or negative ({rate})".
Definition msg_epsilon : string := "ADMM fitting: parameter 'epsilon' is zero or negative ({rate:.6g})".

Definition Qnat (n : nat) : Q := inject_Z (Z.of_nat n).

Definition fitting_admm (data ref_spectra : ndarray) (rate : Q) (maxiter : Z) (epsilon : Q)
  : result (ndarray * list npfloat * list npfloat) :=
  match shape ref_spectra with
  | [n_pts_2; n_refs] =>
      match shape data with
      | [] => Raise IndexError
      | n_pts :: data_dims =>
          if negb (Nat.eqb n_pts n_pts_2)
          then Raise (AssertionError msg_n_pts [Qnat n_pts; Qnat n_pts_2])
          else if negb (Qltb 0 rate) then Raise (AssertionError msg_rate [rate])
          else if negb (0 <? maxiter)%Z then Raise (AssertionError msg_maxiter [rate])
          else if negb (Qltb 0 epsilon) then Raise (AssertionError msg_epsilon [rate])
          else
            let n_pixels := fold_right Nat.mul 1%nat data_dims in
            let data_1D := chunk n_pts n_pixels (elems data) in
            let y := data_1D in
            let A := chunk n_pts n_refs (elems ref_spectra) in
            let At := transpose n_refs A in
            let z := matmul n_pixels At y in
            let c := matmul n_refs At A in
            let w := full n_refs n_pixels 1 in
            let u := full n_refs n_pixels 0 in
            let convergence := repeat (Root 0) (Z.to_nat maxiter) in
            let feasibility := repeat (Root 0) (Z.to_nat maxiter) in
            let dg := mscale (eye n_refs) rate in
            match linalg_inv n_refs (madd c dg) with
            | None => Raise LinAlgError
            | Some m1 =>
                let st := admm_loop m1 z n_pixels rate epsilon (seq 0 (Z.to_nat maxiter))
                            (mk_admm_vars w u convergence feasibility 0) in
                let w_shape :=
                  match data_dims with
                  | [] => [n_refs]
                  | [_] => [n_refs; n_pixels]
                  | _ => n_refs :: data_dims
                  end in
                Ok (mk_ndarray w_shape (concat (var_w st)),
                    take (var_n_iter st) (var_convergence st),
                    take (var_n_iter st) (var_feasibility st))
            end
      end
  | _ => Raise (AssertionError msg_ndim [])
  end.

(** Sample arrays: counts and a scaler with a dead channel. *)
Definition sample_counts : ndarray := mk_ndarray [2%nat] [6; 8].
Definition sample_scaler : ndarray := mk_ndarray [2%nat] [2; 0].

Definition nonneg (m : matrix) : Prop := Forall (Forall (fun q => 0 <= q)) m.

(** One pixel with two channels and one flat reference spectrum. *)
Definition one_pixel : ndarray := mk_ndarray [2%nat] [3; 5].
Definition flat_reference : ndarray := mk_ndarray [2; 1]%nat [1; 1].

(** A reference that is [None] or points into the store. *)
Definition valid_ref (h : list ndarray) (r : pyref) : Prop :=
  match r with
  | PyNone => True
  | PyArr l => is_Some (h !! l)
  end.

(** A matrix of [r] rows and [c] columns. *)
Definition has_dims (r c : nat) (m : matrix) : Prop :=
  length m = r /\ Forall (fun row => length row = c) m.

(** The default [epsilon] of [fitting_admm], [1e-30]. *)
Definition epsilon_default : Q := 1 # 1000000000000000000000000000000.

(** The default [rate] of [fitting_admm], [0.2]. *)
Definition rate_default : Q := 2 # 10.

End Utils.

(** * fit_spectrum.py *)

Module FitSpectrum.

(** ** Numbers

    The element type of the spectra and of the regression matrix, with
    the arithmetic numpy and Python apply to it.  The controller and its
    helpers are generic in it; [Float_Q] gives exact rationals. *)

Class Float (F : Type) : Type := {
  f_of_Z : Z -> F;
  f_add : F -> F -> F;
  f_sub : F -> F -> F;
  f_mul : F -> F -> F;
  (** numpy's elementwise division: never raises *)
  f_div : F -> F -> F;
  (** Python's [a / b] on floats: [ZeroDivisionError] when [b] is zero *)
  py_truediv : F -> F -> result F;
  (** Python's [int(a)] *)
  py_int : F -> result Z
}.

#[export] Instance Float_Q : Float Q := {
  f_of_Z := inject_Z;
  f_add := Qplus;
  f_sub := Qminus;
  f_mul := Qmult;
  f_div := Qdiv;
  py_truediv := fun a b => if Qeq_bool b 0 then Raise ZeroDivisionError else Ok (a / b);
  py_int := fun a => Ok (Z.quot (Qnum a) (Zpos (Qden a)))
}.

(** ** Strings *)

Fixpoint string_of_chars (l : list ascii) : string :=
  match l with
  | [] => EmptyString
  | c :: l' => String c (string_of_chars l')
  end.

Fixpoint chars_of_string (s : string) : list ascii :=
  match s with
  | EmptyString => []
  | String c s' => c :: chars_of_string s'
  end.

(** [s.split(sep)] for a non-empty separator: [skip] counts the
    characters of a separator just matched that are still to be passed
    over, [cur] holds the piece being read, last character first. *)
Fixpoint split_go (sep : string) (skip : nat) (cur : list ascii) (s : string) : list string :=
  match s with
  | EmptyString => [string_of_chars (rev cur)]
  | String c rest =>
      match skip with
      | S k => split_go sep k cur rest
      | O =>
          if String.prefix sep s
          then string_of_chars (rev cur) :: split_go sep (String.length sep - 1) [] rest
          else split_go sep 0 (c :: cur) rest
      end
  end.

Definition split (sep s : string) : list string := split_go sep 0 [] s.

Fixpoint lstrip_chars (c : ascii) (l : list ascii) : list ascii :=
  match l with
  | [] => []
  | a :: l' => if Ascii.eqb a c then lstrip_chars c l' else l
  end.

(** [s.strip(c)] for a single character [c]. *)
Definition strip (c : ascii) (s : string) : string :=
  string_of_chars (rev (lstrip_chars c (rev (lstrip_chars c (chars_of_string s))))).

Definition upper_char (c : ascii) : ascii :=
  let n := nat_of_ascii c in
  if (97 <=? n)%nat && (n <=? 122)%nat then ascii_of_nat (n - 32) else c.

(** [s.upper()] on ASCII text. *)
Fixpoint upper (s : string) : string :=
  match s with
  | EmptyString => EmptyString
  | String c s' => String (upper_char c) (upper s')
  end.

(** ** Lists as Python sequences *)

(** [l[-1]] and [l[-2]]. *)
Definition last_opt {A : Type} (l : list A) : option A := l !! (length l - 1)%nat.

(** [l[i]] for a possibly negative index. *)
Definition py_index {A : Type} (l : list A) (i : Z) : result A :=
  let n := Z.of_nat (length l) in
  let j := if (i <? 0)%Z then (i + n)%Z else i in
  if (j <? 0)%Z then Raise IndexError
  else match l !! Z.to_nat j with
       | Some a => Ok a
       | None => Raise IndexError
       end.

(** The bounds [(lo, hi)] numpy gives the slice [start:stop] on an axis
    of length [len]: negative indices count from the end, everything is
    clamped to the axis, and an inverted slice is empty. *)
Definition clamp_index (len : nat) (i : Z) : nat :=
  let n := Z.of_nat len in
  let j := if (i <? 0)%Z then (i + n)%Z else i in
  Z.to_nat (Z.min n (Z.max 0 j)).

Definition slice_bounds (len : nat) (start stop : Z) : nat * nat :=
  let lo := clamp_index len start in
  let hi := clamp_index len stop in
  (lo, Nat.max lo hi).

(** ** Two- and three-dimensional arrays *)

Section Arrays.

Context {F : Type} `{Float F}.

Record mat : Type := mk_mat { ncols : nat; mrows : list (list F) }.

Definition cube : Type := list (list (list F)).

Definition shape0 (c : cube) : nat := length c.

Definition shape1 (c : cube) : nat :=
  match c with
  | [] => 0
  | r :: _ => length r
  end.

Definition f_zero : F := f_of_Z 0.
Definition f_one : F := f_of_Z 1.

(** A reference to a three-dimensional array: the buffer that holds the
    elements and, for a view made by slicing the last axis, the channel
    window [(lo, hi)] of the buffer it shows. *)
Record arr : Type := mk_arr { base : loc; window : option (nat * nat) }.

Definition window_of (w : option (nat * nat)) (spectrum : list F) : list F :=
  match w with
  | None => spectrum
  | Some (lo, hi) => take (hi - lo) (drop lo spectrum)
  end.

(** The contents an array reference shows. *)
Definition view (w : option (nat * nat)) (buf : cube) : cube := map (map (window_of w)) buf.

Definition read (a : arr) : St cube cube :=
  run buf <- load (base a);
  sret (view (window a) buf).

(** In the store [h] the reference [a] shows the cube [c]. *)
Definition shows (h : list cube) (a : arr) (c : cube) : Prop := read a h = (Ok c, h).

(** [np.array(a)]: a new buffer holding a copy of what [a] shows. *)
Definition np_array (a : arr) : St cube arr :=
  run c <- read a;
  run l <- alloc c;
  sret (mk_arr l None).

(** [a[:, :, start:stop]]: a view on the same buffer. *)
Definition slice_channels (a : arr) (len : nat) (start stop : Z) : arr :=
  let '(lo, hi) := slice_bounds len start stop in
  match window a with
  | None => mk_arr (base a) (Some (lo, hi))
  | Some (lo0, _) => mk_arr (base a) (Some (lo0 + lo, lo0 + hi)%nat)
  end.

(** [a += v]: every element that [a] shows is changed in the buffer. *)
Definition add_in_window (w : option (nat * nat)) (v : F) (spectrum : list F) : list F :=
  match w with
  | None => map (fun q => f_add q v) spectrum
  | Some (lo, hi) =>
      take lo spectrum ++ map (fun q => f_add q v) (take (hi - lo) (drop lo spectrum))
        ++ drop (lo + (hi - lo)) spectrum
  end.

Definition iadd (a : arr) (v : F) : St cube unit :=
  run buf <- load (base a);
  store (base a) (map (map (add_in_window (window a) v)) buf).

Definition vadd (a b : list F) : list F := zip_with f_add a b.

(** [np.sum(block, axis=(0, 1))] of the [bin_size] by [bin_size] block
    with corner [(i * bin_size, j * bin_size)]: the channel-wise sum of
    its spectra. *)
Definition block_spectra (data : cube) (bin_size i j : nat) : list (list F) :=
  concat (map (fun r => take bin_size (drop (j * bin_size) r))
              (take bin_size (drop (i * bin_size) data))).

Definition sum_spectra (nchan : nat) (l : list (list F)) : list F :=
  fold_left vadd l (repeat f_zero nchan).

Definition shape2 (c : cube) : nat :=
  match c with
  | (s :: _) :: _ => length s
  | _ => 0
  end.

(** [bin_data_spacial(data, bin_size)] on a three-dimensional array.
    [d_shape] is the integer quotient of the first two dimensions by
    [bin_size]: the function uses it as an array shape and as loop
    bounds. *)
Definition bin_blocks (d : cube) (bs : nat) : cube :=
  let d_shape0 := (shape0 d / bs)%nat in
  let d_shape1 := (shape1 d / bs)%nat in
  map (fun i => map (fun j => sum_spectra (shape2 d) (block_spectra d bs i j))
                    (seq 0 d_shape1))
      (seq 0 d_shape0).

Definition bin_data_spacial (data : arr) (bin_size : Z) : St cube arr :=
  if (bin_size <=? 1)%Z then sret data
  else
    run d <- read data;
    run l <- alloc (bin_blocks d (Z.to_nat bin_size));
    sret (mk_arr l None).

(** ** Dictionaries keyed by name, in insertion order *)

Fixpoint dict_set {V : Type} (k : string) (v : V) (d : list (string * V)) : list (string * V) :=
  match d with
  | [] => [(k, v)]
  | (k', v') :: d' =>
      if String.eqb k k' then (k, v) :: d' else (k', v') :: dict_set k v d'
  end.

Fixpoint dict_get {V : Type} (k : string) (d : list (string * V)) : option V :=
  match d with
  | [] => None
  | (k', v') :: d' => if String.eqb k k' then Some v' else dict_get k d'
  end.

(** The keys an [OrderedDict] holds after the names of [l] are inserted
    in order. *)
Definition ordered_keys (l : list string) : list string :=
  map fst (fold_left (fun d k => dict_set k tt d) l []).

Fixpoint rfold {A B : Type} (f : B -> A -> result B) (l : list A) (b : B) : result B :=
  match l with
  | [] => Ok b
  | a :: l' => try b' <- f b a; rfold f l' b'
  end.

(** ** The fit parameters the controller reads *)

Record fit_param : Type := mk_fit_param {
  energy_bound_low : F;
  energy_bound_high : F;
  e_offset : F;
  e_linear : F;
  e_quadratic : F;
  coherent_sct_energy : F;
  background_width : F;
  element_list : string
}.

(** The result of one pixel's nonlinear fit. *)
Record pixel_fit : Type := mk_pixel_fit {
  pf_value : list F;
  pf_err : list F;
  pf_snip_bg : F
}.

(** ** The libraries the module calls: scikit-beam, lmfit, numpy *)

Class External : Type := {
  element : Type;
  (** [skbeam.core.fitting.xrf_model.trim] *)
  trim : list Z -> list F -> Z -> Z -> list Z * list F;
  (** [skbeam.core.fitting.xrf_model.construct_linear_model] *)
  construct_linear_model : list Z -> fit_param -> list string -> result (list string * mat);
  (** [skbeam.core.fitting.xrf_model.fit_per_line_nnls] *)
  fit_per_line_nnls : Z -> list (list F) -> mat -> fit_param -> bool -> result (list (list F));
  (** [skbeam.core.fitting.background.snip_method] *)
  snip_method : list F -> F -> F -> F -> F -> result (list F);
  (** [lmfit.minimize] with the given number of parameters, each started
      at 1.0 and bounded below by 0, on a residual function; it returns
      the values and the standard errors of the parameters *)
  lmfit_minimize : nat -> (list F -> result (list F)) -> result (list F * list F);
  (** [np.convolve(a, v, mode='same')] *)
  np_convolve_same : list F -> list F -> result (list F);
  (** [skbeam.fluorescence.XrfElement(name)] and [e.cs(energy)[line]] *)
  Element : string -> result element;
  cs : element -> F -> string -> result F;
  (** [K_LINE + L_LINE + M_LINE] *)
  ELEMENT_LINES : list string
}.

Context `{External}.

(** ** Binning along the energy axis *)

(** The assignment [data_new[i, j, :] = r]: [r] must have the length of
    the spectrum, or one element that is broadcast. *)
Definition assign_spectrum (old r : list F) : result (list F) :=
  if Nat.eqb (length r) (length old) then Ok r
  else match r with
       | [v] => Ok (repeat v (length old))
       | _ => Raise (ValueError "could not broadcast input array")
       end.

(** The body of the loop of [conv_expdata_energy]; [conv_f] is unbound
    when [width] is neither 2 nor 3. *)
Definition convolve_spectrum (conv_f : option (list F)) (spectrum : list F) : result (list F) :=
  match conv_f with
  | None => Raise UnboundLocalError
  | Some f => try r <- np_convolve_same spectrum f; assign_spectrum spectrum r
  end.

(** [conv_expdata_energy(data, width)].  The copy is written when the
    loop has run; when the loop raises the copy is unreachable. *)
Definition conv_kernel (width : Z) : option (list F) :=
  if (width =? 3)%Z
  then Some (repeat (f_div (f_of_Z 1) (f_of_Z 3)) 3)
  else if (width =? 2)%Z
  then Some (repeat (f_div (f_of_Z 1) (f_of_Z 2)) 2)
  else None.

Definition conv_expdata_energy (data : arr) (width : Z) : St cube arr :=
  run data_new <- np_array data;
  let conv_f := conv_kernel width in
  run c <- read data_new;
  run c' <- slift (rmap (rmap (convolve_spectrum conv_f)) c);
  run _ <- store (base data_new) c';
  sret data_new.

(** ** bin_data_energy3D *)

(** [s[start::step]] on the channel axis: the channels [start],
    [start + step], ...; [wait] counts the channels to skip before the
    next one that is kept. *)
Fixpoint every_nth (step wait : nat) (s : list F) : list F :=
  match s with
  | [] => []
  | q :: s' =>
      match wait with
      | O => q :: every_nth step (step - 1) s'
      | S w => every_nth step w s'
      end
  end.

Definition strided (start step : nat) (s : list F) : list F := every_nth step start s.

(** [s / bin_step], element by element. *)
Definition vdiv (s : list F) (d : Z) : list F := map (fun q => f_div q (f_of_Z d)) s.

(** The three branches of [bin_data_energy3D] on the spectrum of one
    pixel.  [new_len] is the integer quotient of the number of channels
    by the step: the function uses it as a slice bound. *)
Definition bin_channels (bin_step : Z) (sum_data : bool) (nchan : nat) (s : list F) : list F :=
  if (bin_step =? 2)%Z then
    let new_len := (nchan / 2)%nat in
    let new_data1 := strided 0 2 s in
    let new_data2 := strided 1 2 s in
    if sum_data
    then vdiv (vadd (take new_len new_data1) (take new_len new_data2)) bin_step
    else take new_len new_data1
  else if (bin_step =? 3)%Z then
    let new_len := (nchan / 3)%nat in
    let new_data1 := strided 0 3 s in
    let new_data2 := strided 1 3 s in
    let new_data3 := strided 2 3 s in
    if sum_data
    then vdiv (vadd (vadd (take new_len new_data1) (take new_len new_data2))
                    (take new_len new_data3)) bin_step
    else take new_len new_data1
  else
    let new_len := (nchan / 4)%nat in
    let new_data1 := strided 0 4 s in
    let new_data2 := strided 1 4 s in
    let new_data3 := strided 2 4 s in
    let new_data4 := strided 3 4 s in
    if sum_data
    then vdiv (vadd (vadd (vadd (take new_len new_data1) (take new_len new_data2))
                          (take new_len new_data3))
                    (take new_len new_data4)) bin_step
    else take new_len new_data1.

(** [bin_data_energy3D(data, bin_step, sum_data)] on a three-dimensional
    array.  With step 1 the argument itself is returned.  Otherwise the
    function works on a copy; what it returns is held here in a buffer
    of its own (the copy is reachable through the result only), and it
    falls off its last branch, returning [None], for a step other than
    2, 3 and 4. *)
Definition bin_data_energy3D (data : arr) (bin_step : Z) (sum_data : bool)
  : St cube (option arr) :=
  if (bin_step =? 1)%Z then sret (Some data)
  else
    run data' <- np_array data;
    run c <- read data';
    if ((bin_step =? 2) || (bin_step =? 3) || (bin_step =? 4))%Z
    then
      run l <- alloc (map (map (bin_channels bin_step sum_data (shape2 c))) c);
      sret (Some (mk_arr l None))
    else sret None.

(** ** Cutting the energy window *)

Definition get_cutted_spectrum_in3D (exp_data : arr) (low_e high_e e_offset e_linear : F)
  : St cube (list Z * arr * (Z * Z)) :=
  run data <- np_array exp_data;
  run c <- read data;
  match c with
  | (y0 :: _) :: _ =>
      let x0 := map Z.of_nat (seq 0 (length y0)) in
      run lowv <- slift (py_truediv (f_sub low_e e_offset) e_linear);
      run highv <- slift (py_truediv (f_sub high_e e_offset) e_linear);
      run lowv <- slift (py_int lowv);
      run highv <- slift (py_int highv);
      let '(x, y) := trim x0 y0 lowv highv in
      sret (x, slice_channels data (length y0) lowv (highv + 1), (lowv, highv))
  | _ => sraise IndexError
  end.

(** ** Branching ratio *)

(** [get_branching_ratio(elemental_line, energy)], with the table
    [TRANSITIONS_LOOKUP] of scikit-beam as its first argument. *)
Definition get_branching_ratio (TRANSITIONS_LOOKUP : list (string * list string))
  (elemental_line : string) (energy : F) : result F :=
  match split "_" elemental_line with
  | [name; line] =>
      try e <- Element name;
      match dict_get (upper line) TRANSITIONS_LOOKUP with
      | None => Raise (KeyError (upper line))
      | Some transition_lines =>
          try sum_v <- rfold (fun sum_v v => try c <- cs e energy v; Ok (f_add sum_v c))
                             transition_lines (f_of_Z 0);
          match transition_lines with
          | [] => Raise IndexError
          | first :: _ =>
              try c <- cs e energy first;
              py_truediv c sum_v
          end
      end
  | _ => Raise (ValueError "not enough values to unpack, or too many")
  end.

(** ** Result assembly *)

(** [np.sum(matv, axis=0)] *)
Definition col_sums (matv : mat) : list F :=
  map (fun j => fold_left (fun acc r => f_add acc (nth j r f_zero)) (mrows matv) f_zero)
      (seq 0 (ncols matv)).

(** [results[:, :, i]]: [results] has three dimensions only when it has
    a row and its rows have a pixel. *)
Definition component (results : cube) (i : Z) : result (list (list F)) :=
  match results with
  | (_ :: _) :: _ => rmap (rmap (fun v => py_index v i)) results
  | _ => Raise IndexError
  end.

Definition scale_map (m : list (list F)) (c : F) : list (list F) :=
  map (map (fun q => f_mul q c)) m.

Definition list_index {A : Type} (l : list A) (i : nat) : result A :=
  match l !! i with
  | Some a => Ok a
  | None => Raise IndexError
  end.

Definition calculate_area (TRANSITIONS_LOOKUP : list (string * list string))
  (e_select : list string) (matv : mat) (results : cube) (param : fit_param)
  (first_peak_area : bool) : result (list (string * list (list F))) :=
  let total_list := e_select ++ ["snip_bkg"; "r_squared"]%string in
  let mat_sum := col_sums matv in
  try result_map <-
    rfold (fun result_map i =>
             try name <- list_index total_list i;
             if negb first_peak_area then
               try r <- component results (Z.of_nat i);
               try s <- list_index mat_sum i;
               Ok (dict_set name (scale_map r s) result_map)
             else
               try ratio_v <-
                 (if negb (existsb (String.eqb name) ELEMENT_LINES) then Ok (f_of_Z 1)
                  else get_branching_ratio TRANSITIONS_LOOKUP name (coherent_sct_energy param));
               try r <- component results (Z.of_nat i);
               try s <- list_index mat_sum i;
               Ok (dict_set name (scale_map (scale_map r s) ratio_v) result_map))
          (seq 0 (length e_select)) [];
  try bkg <- component results (-2);
  let result_map := dict_set "snip_bkg" bkg result_map in
  try r2 <- component results (-1);
  Ok (dict_set "r_squared" r2 result_map).

(** ** Dispatch of the rows *)

(** [fit_per_line_nnls_wrapper] passes four arguments where the function
    it wraps takes the row number first and has five required
    parameters. *)
Definition fit_per_line_nnls_wrapper (row_num : Z) (data : list (list F)) (matv : mat)
  (param : fit_param) (use_snip : bool) : result (list (list F)) :=
  Raise TypeError.

(** The pool applies the row function to the rows in order and [get]
    hands back the results, or re-raises, in the same order. *)
Definition enumerate {A : Type} (l : list A) : list (nat * A) := combine (seq 0 (length l)) l.

Definition fit_pixel_multiprocess_nnls (exp_data : arr) (matv : mat) (param : fit_param)
  (use_snip : bool) : St cube cube :=
  run d <- read exp_data;
  slift (rmap (fun '(n, row) => fit_per_line_nnls (Z.of_nat n) row matv param use_snip)
              (enumerate d)).

(** ** Nonlinear fit *)

Definition mat_column (reg_mat : mat) (i : nat) : result (list F) :=
  if (i <? ncols reg_mat)%nat then Ok (map (fun r => nth i r f_zero) (mrows reg_mat))
  else Raise IndexError.

Definition spectrum_nonlinear_fit (vals : list F) (reg_mat : mat) : result (list F) :=
  rfold (fun acc '(i, a) =>
           try col <- mat_column reg_mat i;
           Ok (zip_with f_add acc (map (fun q => f_mul a q) col)))
        (enumerate vals) (repeat f_zero (length (mrows reg_mat))).

Definition residual_nonlinear_fit (pars : list F) (x : list Z) (data : list F) (reg_mat : mat)
  : result (list F) :=
  try s <- spectrum_nonlinear_fit pars reg_mat;
  if Nat.eqb (length s) (length data) then Ok (zip_with f_sub s data)
  else Raise (ValueError "operands could not be broadcast together").

Definition fit_pixel_nonlinear_per_line (row_num : Z) (data : list (list F)) (x0 : list Z)
  (param : fit_param) (reg_mat : mat) (use_snip : bool) : result (list pixel_fit) :=
  rmap (fun spectrum =>
          try (y0, snip_bg) <-
            (if use_snip then
               try bg <- snip_method spectrum (e_offset param) (e_linear param)
                           (e_quadratic param) (background_width param);
               Ok (zip_with f_sub spectrum bg, fold_left f_add bg f_zero)
             else Ok (spectrum, f_zero));
          try (values, errors) <-
            lmfit_minimize (ncols reg_mat) (fun pars => residual_nonlinear_fit pars x0 y0 reg_mat);
          Ok (mk_pixel_fit values errors snip_bg))
       data.

Definition fit_pixel_multiprocess_nonlinear (data : arr) (x : list Z) (param : fit_param)
  (reg_mat : mat)
  (use_snip : bool) : St cube (list (list pixel_fit)) :=
  run d <- read data;
  slift (rmap (fun '(n, row) =>
                 fit_pixel_nonlinear_per_line (Z.of_nat n) row x param reg_mat use_snip)
              (enumerate d)).

(** What the triple loop of [get_area_and_error_nonlinear_fit] stores for
    one pixel and the key [v] at position [m]: the entry of the area map,
    of the error map and of the weights. *)
Definition pixel_entries (px : pixel_fit) (keyed : list (nat * string))
  : result (list (F * F * F)) :=
  rmap (fun '(m, v) =>
          if String.eqb v "snip_bg" then Ok (pf_snip_bg px, f_zero, f_zero)
          else
            try a <- list_index (pf_value px) m;
            try e <- list_index (pf_err px) m;
            Ok (a, e, a))
       keyed.

Definition entry_map {A : Type} (cells : list (list (list (F * F * F)))) (m : nat)
  (proj : F * F * F -> A) (d : A) : list (list A) :=
  map (map (fun entries => match entries !! m with Some t => proj t | None => d end)) cells.

Definition get_area_and_error_nonlinear_fit (elist : list string)
  (fit_results : list (list pixel_fit)) (reg_mat : mat)
  : result (list (string * list (list F)) * list (string * list (list F)) * cube) :=
  let mat_sum := col_sums reg_mat in
  match fit_results with
  | [] => Raise IndexError
  | row0 :: _ =>
      let error_keys := ordered_keys elist in
      let area_keys := ordered_keys (elist ++ ["snip_bg"%string]) in
      let keyed := enumerate area_keys in
      try cells <-
        rmap (fun fit_row =>
                rmap (fun j => try px <- list_index fit_row j; pixel_entries px keyed)
                     (seq 0 (length row0)))
             fit_results;
      try area_dict <-
        rmap (fun '(i, v) =>
                if String.eqb v "snip_bg"
                then Ok (v, entry_map cells i (fun t => fst (fst t)) f_zero)
                else try s <- list_index mat_sum i;
                     Ok (v, scale_map (entry_map cells i (fun t => fst (fst t)) f_zero) s))
             keyed;
      try error_dict <-
        rmap (fun '(i, v) =>
                if String.eqb v "snip_bg"
                then Ok (v, entry_map cells i (fun _ => f_zero) f_zero)
                else try s <- list_index mat_sum i;
                     Ok (v, scale_map (entry_map cells i (fun t => snd (fst t)) f_zero) s))
             (enumerate error_keys);
      let weights_mat :=
        map (map (fun entries => map snd (take (length error_keys) entries))) cells in
      Ok (area_dict, error_dict, weights_mat)
  end.

(** ** The controller *)

Record calculation_info : Type := mk_info {
  error_map : option (list (string * list (list F)));
  fit_name : list string;
  regression_mat : mat;
  results : cube;
  fit_range : Z * Z;
  energy_axis : list Z;
  exp_data : arr
}.

(** [l[-1] = v] *)
Definition set_last {A : Type} (l : list A) (v : A) : result (list A) :=
  match l with
  | [] => Raise IndexError
  | _ => Ok (<[(length l - 1)%nat := v]> l)
  end.

(** The matrix of the combined elastic and Compton column:
    [matv = matv_old[:, :-1]; matv[:, -1] += matv_old[:, -1]]. *)
Definition combine_last_columns (matv_old : mat) : result mat :=
  if (ncols matv_old <=? 1)%nat then Raise IndexError
  else Ok (mk_mat (ncols matv_old - 1)
             (map (fun r =>
                     let n := ncols matv_old in
                     <[(n - 2)%nat := f_add (nth (n - 2) r f_zero) (nth (n - 1) r f_zero)]>
                       (take (n - 1) r))
                  (mrows matv_old))).

(** The matrix with a column of ones appended. *)
Definition append_ones (matv_old : mat) : mat :=
  mk_mat (ncols matv_old + 1)
    (map (fun r => take (ncols matv_old) r ++ [f_of_Z 1]) (mrows matv_old)).

(** [matv /= n] and [matv / n] *)
Definition mat_div (matv : mat) (n : Z) : mat :=
  mk_mat (ncols matv) (map (map (fun q => f_div q (f_of_Z n))) (mrows matv)).

Definition pixel_count (c : cube) : Z := (Z.of_nat (shape0 c) * Z.of_nat (shape1 c))%Z.

Definition element_names (param : fit_param) : list string :=
  map (strip " ") (split ", " (element_list param)).

(** The names of the components after the optional merge of the last two
    and the optional constant background. *)
Definition processed_names (comp_elastic_combine linear_bg : bool) (e_select : list string)
  : result (list string) :=
  try e_select <- (if comp_elastic_combine
                   then set_last (removelast e_select) "comp_elastic"%string
                   else Ok e_select);
  Ok (if linear_bg then e_select ++ ["const_bkg"%string] else e_select).

(** ** What the controller is to do, in the words of its description *)

(** The spectrum of a pixel cut to the channels of the fit range. *)
Definition cut_spectrum (nchan : nat) (fit_range : Z * Z) (spectrum : list F) : list F :=
  window_of (Some (slice_bounds nchan (fst fit_range) (snd fit_range + 1))) spectrum.

(** The spectrum with the constant background added, when one is asked
    for. *)
Definition raised_spectrum (raise_bg : Z) (spectrum : list F) : list F :=
  if (0 <? raise_bg)%Z then map (fun q => f_add q (f_of_Z raise_bg)) spectrum else spectrum.

(** The regression matrix after the optional merge of its last two
    columns and the optional column of ones. *)
Definition processed_matrix (comp_elastic_combine linear_bg : bool) (matv : mat) : result mat :=
  try matv <- (if comp_elastic_combine then combine_last_columns matv else Ok matv);
  Ok (if linear_bg then append_ones matv else matv).

(** The side of the pixel blocks: 2 for [pixel_bin = 4], 3 for
    [pixel_bin = 9], and 1 (no binning) otherwise. *)
Definition bin_side (pixel_bin : Z) : nat :=
  if (pixel_bin =? 4)%Z then 2 else if (pixel_bin =? 9)%Z then 3 else 1.

Definition single_pixel_fitting_controller (TRANSITIONS_LOOKUP : list (string * list string))
  (input_data : arr) (param : fit_param) (method : string) (pixel_bin raise_bg : Z)
  (comp_elastic_combine linear_bg use_snip : bool) (bin_energy : Z)
  : St cube (list (string * list (list F)) * calculation_info) :=
  run (x, exp_data, fit_range) <-
    get_cutted_spectrum_in3D input_data (energy_bound_low param) (energy_bound_high param)
      (e_offset param) (e_linear param);
  let elist := element_names param in
  run (e_select, matv) <- slift (construct_linear_model x param elist);
  run (e_select, matv) <-
    (if comp_elastic_combine then
       run e_select <- slift (set_last (removelast e_select) "comp_elastic"%string);
       run matv <- slift (combine_last_columns matv);
       sret (e_select, matv)
     else sret (e_select, matv));
  let '(e_select, matv) :=
    if linear_bg then (e_select ++ ["const_bkg"%string], append_ones matv)
    else (e_select, matv) in
  run _ <- (if (0 <? raise_bg)%Z then iadd exp_data (f_of_Z raise_bg) else sret tt);
  run exp_data <-
    (if (pixel_bin =? 4)%Z || (pixel_bin =? 9)%Z
     then bin_data_spacial exp_data (Z.sqrt pixel_bin)
     else sret exp_data);
  run exp_data <-
    (if (bin_energy =? 2)%Z || (bin_energy =? 3)%Z
     then conv_expdata_energy exp_data bin_energy
     else sret exp_data);
  run shown <- read exp_data;
  let matv := mat_div matv (pixel_count shown) in
  if String.eqb method "nnls" then
    run results <- fit_pixel_multiprocess_nnls exp_data matv param use_snip;
    run result_map <- slift (calculate_area TRANSITIONS_LOOKUP e_select matv results param false);
    sret (result_map, mk_info None e_select matv results fit_range x exp_data)
  else
    let matrix_norm := pixel_count shown in
    run fit_results <-
      fit_pixel_multiprocess_nonlinear exp_data x param (mat_div matv matrix_norm) use_snip;
    run (result_map, error_map, results) <-
      slift (get_area_and_error_nonlinear_fit e_select fit_results (mat_div matv matrix_norm));
    sret (result_map, mk_info (Some error_map) e_select matv results fit_range x exp_data).

End Arrays.

(** A cube whose spectra all have [nchan] channels. *)
Definition channels_are {F : Type} (nchan : nat) (c : cube (F := F)) : Prop :=
  Forall (Forall (fun spectrum => length spectrum = nchan)) c.

(** A string without underscore. *)
Definition no_underscore (s : string) : Prop := ~ In "_"%char (chars_of_string s).

(** ** cal_r2

    On one-dimensional arrays of exact rationals.  numpy's division of
    floats by zero gives infinity or nan, with a warning, where Python's
    raises: the result is a number, minus infinity or nan. *)

Inductive r2_value : Type :=
| R2 (q : Q)
| R2_neg_inf
| R2_nan.

(** [a - b] with numpy's broadcasting of an array of one element. *)
Definition np_sub (a b : list Q) : result (list Q) :=
  if Nat.eqb (length a) (length b) then Ok (zip_with Qminus a b)
  else match a, b with
       | [x], _ => Ok (map (fun y => x - y) b)
       | _, [y] => Ok (map (fun x => x - y) a)
       | _, _ => Raise (ValueError "operands could not be broadcast together")
       end.

(** [np.sum(a**2)] *)
Definition sum_squares (a : list Q) : Q := Utils.Qsum (map (fun q => q * q) a).

(** [cal_r2(y, y_cal)].  The mean of an empty [y] is nan in numpy; it is
    subtracted from no element. *)
Definition cal_r2 (y y_cal : list Q) : result r2_value :=
  try d <- np_sub y y_cal;
  let sse := sum_squares d in
  let sst := sum_squares (map (fun q => q - Utils.np_mean y) y) in
  Ok (if Qeq_bool sst 0
      then if Qeq_bool sse 0 then R2_nan else R2_neg_inf
      else R2 (1 - sse / sst)).

(** ** A stand-in for the libraries, to run the module on examples

    [trim], [np.convolve] and the loop of [fit_per_line_nnls] over the
    pixels of a row are as in the libraries; the solver of one spectrum,
    the model builder, the background and the cross-sections are small
    fixed functions, not the physics. *)

(** Full discrete convolution of [a] and [v]. *)
Fixpoint convolve_full (a v : list Q) : list Q :=
  match a with
  | [] => []
  | a0 :: a' =>
      let head := map (Qmult a0) v in
      let tail := 0 :: convolve_full a' v in
      map (fun i => nth i head 0 + nth i tail 0)
          (seq 0 (Nat.max (length head) (length tail)))
  end.

Definition convolve_same (a v : list Q) : result (list Q) :=
  match a, v with
  | [], _ => Raise (ValueError "a cannot be empty")
  | _, [] => Raise (ValueError "v cannot be empty")
  | _, _ =>
      let full := if (length v <=? length a)%nat then convolve_full a v else convolve_full v a in
      Ok (take (Nat.max (length a) (length v))
               (drop ((Nat.min (length a) (length v) - 1) / 2) full))
  end.

(** The stand-in for the fit of one spectrum: the total count in every
    component, no background, [r_squared] zero. *)
Definition toy_fit (y : list Q) (matv : mat (F := Q)) (param : fit_param (F := Q))
  (use_snip : bool) : result (list Q) :=
  Ok (repeat (fold_left Qplus y 0) (ncols matv) ++ [0; 0]).

Definition toy_cross_section (line : string) : Q :=
  if String.eqb line "ka1" then 3
  else if String.eqb line "kb1" then 1
  else 0.

#[export] Instance toy_external : External (F := Q) := {|
  element := string;
  trim := fun x y low high =>
    let keep := map (fun v => (low <=? v)%Z && (v <=? high)%Z) x in
    (map fst (List.filter snd (combine x keep)), map fst (List.filter snd (combine y keep)));
  construct_linear_model := fun x _ elist =>
    Ok (elist ++ ["compton"; "elastic"]%string,
        mk_mat (length elist + 2) (map (fun _ => repeat 1 (length elist + 2)) x));
  fit_per_line_nnls := fun _ row matv param use_snip =>
    rmap (fun y => toy_fit y matv param use_snip) row;
  snip_method := fun y _ _ _ _ => Ok (map (fun _ => 0) y);
  lmfit_minimize := fun n _ => Ok (repeat 1 n, repeat 0 n);
  np_convolve_same := convolve_same;
  Element := fun name => Ok name;
  cs := fun _ _ line => Ok (toy_cross_section line);
  ELEMENT_LINES := ["Mg_K"; "Fe_K"]%string
|}.

(** A cube of 4 by 6 pixels with two channels, and parameters whose fit
    range is the channels 0 and 1. *)
Definition toy_cube : cube (F := Q) := repeat (repeat [1; 2] 6) 4.

(** The caller's reference to the cube, the first buffer of the store. *)
Definition toy_input : arr := mk_arr 0%nat None.

Definition toy_param : fit_param (F := Q) :=
  mk_fit_param 0 1 0 1 0 12 (1 # 2) "Fe_K".

(** The table of scikit-beam's K lines, cut to two lines, in two orders. *)
Definition toy_lookup : list (string * list string) := [("K", ["ka1"; "kb1"])]%string.
Definition toy_lookup_reordered : list (string * list string) := [("K", ["kb1"; "ka1"])]%string.

End FitSpectrum.

(** * Properties of the store *)

Section StoreFacts.

Context {B : Type}.

Lemma frames_ret {A : Type} (h0 : list B) (a : A) (V : A -> Prop) :
  V a -> frames h0 (sret a) V.
Proof.
  intros Ha ext. exists ext. split; [reflexivity|].
  intros a' E. simpl in E. inversion E. subst a'. exact Ha.
Qed.

Lemma frames_raise {A : Type} (h0 : list B) (e : exn) (V : A -> Prop) :
  frames h0 (sraise e) V.
Proof. intros ext. exists ext. split; [reflexivity|]. intros a' E. discriminate E. Qed.

Lemma frames_slift {A : Type} (h0 : list B) (r : result A) :
  frames h0 (slift r) (fun a => r = Ok a).
Proof. intros ext. exists ext. split; [reflexivity|]. intros a E. exact E. Qed.

Lemma frames_weaken {A : Type} (h0 : list B) (m : St B A) (V W : A -> Prop) :
  frames h0 m V -> (forall a, V a -> W a) -> frames h0 m W.
Proof.
  intros Hm HVW ext. destruct (Hm ext) as (ext' & E & Hv).
  exists ext'. split; [exact E|]. intros a Ha. apply HVW, Hv, Ha.
Qed.

Lemma frames_bind {A C : Type} (h0 : list B) (m : St B A) (k : A -> St B C)
  (V : A -> Prop) (W : C -> Prop) :
  frames h0 m V -> (forall a, V a -> frames h0 (k a) W) -> frames h0 (sbind m k) W.
Proof.
  intros Hm Hk ext. destruct (Hm ext) as (ext1 & E1 & Hv).
  unfold sbind. destruct (m (h0 ++ ext)) as [[a|e] h1]; simpl in E1, Hv.
  - subst h1. exact (Hk a (Hv a eq_refl) ext1).
  - subst h1. exists ext1. split; [reflexivity|]. intros a E. discriminate E.
Qed.

Lemma frames_load (h0 : list B) (l : loc) : frames h0 (load l) (fun _ => True).
Proof.
  intros ext. exists ext. unfold load.
  destruct ((h0 ++ ext) !! l); split; trivial.
Qed.

Lemma frames_alloc (h0 : list B) (b : B) :
  frames h0 (alloc b) (fun l => (length h0 <= l)%nat).
Proof.
  intros ext. exists (ext ++ [b]). unfold alloc. simpl. split.
  - now rewrite app_assoc.
  - intros a E. inversion E. rewrite length_app. lia.
Qed.

Lemma frames_store (h0 : list B) (l : loc) (b : B) :
  (length h0 <= l)%nat -> frames h0 (store l b) (fun _ => True).
Proof.
  intros Hl ext. exists (<[(l - length h0)%nat := b]> ext). unfold store. simpl. split.
  - now rewrite insert_app_r_alt.
  - trivial.
Qed.

(** What a successful bind went through. *)
Lemma sbind_ok {A C : Type} (m : St B A) (k : A -> St B C) (h h' : list B) (c : C) :
  sbind m k h = (Ok c, h') ->
  exists a h1, m h = (Ok a, h1) /\ k a h1 = (Ok c, h').
Proof.
  unfold sbind. destruct (m h) as [[a|e] h1]; intros E.
  - exists a, h1. split; [reflexivity | exact E].
  - discriminate E.
Qed.

Lemma slift_ok {A : Type} (r : result A) (h h' : list B) (a : A) :
  slift r h = (Ok a, h') -> r = Ok a /\ h' = h.
Proof. unfold slift. intros E. inversion E. split; reflexivity. Qed.

Lemma sret_ok {A : Type} (a a' : A) (h h' : list B) :
  sret a h = (Ok a', h') -> a' = a /\ h' = h.
Proof. unfold sret. intros E. inversion E. split; reflexivity. Qed.

Lemma load_ok (l : loc) (h h' : list B) (b : B) :
  load l h = (Ok b, h') -> h !! l = Some b /\ h' = h.
Proof.
  unfold load. destruct (h !! l); intros E; inversion E. split; reflexivity.
Qed.

End StoreFacts.

Lemma rbind_ok {A C : Type} (m : result A) (k : A -> result C) (c : C) :
  rbind m k = Ok c -> exists a, m = Ok a /\ k a = Ok c.
Proof. destruct m as [a|e]; simpl; intros E; [exists a; auto | discriminate E]. Qed.

Lemma rmap_Forall2 {A C : Type} (f : A -> result C) (l : list A) (r : list C) :
  rmap f l = Ok r <-> Forall2 (fun a c => f a = Ok c) l r.
Proof.
  revert r. induction l as [|a l IH]; intros r; simpl.
  - split; intros E; [inversion E; constructor | inversion E; reflexivity].
  - split.
    + intros E. apply rbind_ok in E. destruct E as (c & Ec & E).
      apply rbind_ok in E. destruct E as (cs & Ecs & E). inversion E. subst r.
      constructor; [exact Ec | now apply IH].
    + intros E. inversion E as [|a' c l' r' Ec Er]. subst.
      rewrite Ec. simpl. apply IH in Er. rewrite Er. reflexivity.
Qed.

Lemma rmap_length {A C : Type} (f : A -> result C) (l : list A) (r : list C) :
  rmap f l = Ok r -> length r = length l.
Proof. intros E. apply rmap_Forall2 in E. symmetry. exact (Forall2_length _ _ _ E). Qed.

(** * Properties of utils.py *)

Module UtilsFacts.

Import Utils.

(** ** The store *)

Lemma load_some {B : Type} (h : list B) (l : loc) (b : B) :
  h !! l = Some b -> load l h = (Ok b, h).
Proof. intros E. unfold load. now rewrite E. Qed.

Lemma load_fresh {B : Type} (h : list B) (b : B) :
  load (length h) (h ++ [b]) = (Ok b, h ++ [b]).
Proof.
  apply load_some. rewrite lookup_app_r by lia.
  now rewrite Nat.sub_diag.
Qed.

Lemma store_fresh {B : Type} (h : list B) (b b' : B) :
  store (length h) b' (h ++ [b]) = (Ok tt, h ++ [b']).
Proof.
  unfold store. f_equal.
  rewrite insert_app_r_alt by lia. now rewrite Nat.sub_diag.
Qed.

Ltac loads :=
  repeat (cbv beta iota;
          match goal with
          | E : ?h !! ?l = Some ?a |- context [load ?l ?h] => rewrite (load_some h l a E)
          end);
  cbv beta iota.

(** ** normalize_data_by_scaler *)

Lemma shape_eqb_true (s1 s2 : list nat) : shape_eqb s1 s2 = true <-> s1 = s2.
Proof. unfold shape_eqb. apply bool_decide_eq_true. Qed.

Lemma name_in_true (n : string) (names : list string) : name_in n names = true <-> In n names.
Proof.
  unfold name_in. rewrite existsb_exists. split.
  - intros (x & Hin & E). apply String.eqb_eq in E. now subst.
  - intros Hin. exists n. split; [assumption | apply String.eqb_refl].
Qed.

Lemma count_nonzero_all_zero (s : ndarray) :
  Forall (fun q => q == 0) (elems s) -> count_nonzero s = 0%nat.
Proof.
  unfold count_nonzero. induction 1 as [|q l Hq _ IH]; simpl; [reflexivity|].
  unfold nonzero at 1. apply Qeq_bool_iff in Hq. now rewrite Hq.
Qed.

Lemma filter_length_le {A : Type} (f : A -> bool) (l : list A) :
  (length (List.filter f l) <= length l)%nat.
Proof. induction l as [|a l IH]; simpl; [lia|]. destruct (f a); simpl; lia. Qed.

Lemma filter_length_lt {A : Type} (f : A -> bool) (l : list A) (a : A) :
  In a l -> f a = false -> (length (List.filter f l) < length l)%nat.
Proof.
  induction l as [|b l IH]; simpl; [tauto|].
  intros [->|Hin] Hf.
  - rewrite Hf. pose proof (filter_length_le f l). lia.
  - specialize (IH Hin Hf). destruct (f b); simpl; lia.
Qed.

Lemma filter_length_pos {A : Type} (f : A -> bool) (l : list A) (a : A) :
  In a l -> f a = true -> (0 < length (List.filter f l))%nat.
Proof.
  induction l as [|b l IH]; simpl; [tauto|].
  intros [->|Hin] Hf.
  - rewrite Hf. simpl. lia.
  - specialize (IH Hin Hf). destruct (f b); simpl; lia.
Qed.

(** C5: when the scaler is [None], has another shape than the data, is
    all zero, or the data name is among the names not to be scaled,
    [normalize_data_by_scaler] returns the reference [data_in] it was
    given and leaves the store as it was: nothing is copied. *)
Theorem normalize_skipped_returns_data_in (h : list ndarray) (data_in scaler : pyref)
  (data_name : option string) (name_not_scalable : option (list string)) :
  skipped h data_in scaler data_name name_not_scalable ->
  normalize_data_by_scaler data_in scaler data_name name_not_scalable h = (Ok data_in, h).
Proof.
  intros Hs. destruct Hs as [data_in dn nn | ld ls d s dn nn Hd Hs Hne
                            | ld ls d s dn nn Hd Hs Hz | ld ls d s n names Hd Hs Hin].
  - destruct data_in; reflexivity.
  - unfold normalize_data_by_scaler, sbind. rewrite (load_some _ _ _ Hd), (load_some _ _ _ Hs).
    destruct (shape_eqb (shape d) (shape s)) eqn:E; [|reflexivity].
    apply shape_eqb_true in E. contradiction.
  - unfold normalize_data_by_scaler, sbind. rewrite (load_some _ _ _ Hd), (load_some _ _ _ Hs).
    destruct (negb (shape_eqb (shape d) (shape s))); [reflexivity|].
    rewrite (count_nonzero_all_zero s Hz). reflexivity.
  - unfold normalize_data_by_scaler, sbind. rewrite (load_some _ _ _ Hd), (load_some _ _ _ Hs).
    destruct (negb (shape_eqb (shape d) (shape s))); [reflexivity|].
    apply name_in_true in Hin. rewrite Hin. simpl.
    destruct (Nat.eqb (count_nonzero s) 0); reflexivity.
Qed.

Lemma normalize_skipped_witness :
  normalize_data_by_scaler (PyArr 0%nat) (PyArr 1%nat) None None
    [mk_ndarray [2%nat] [3; 4]; mk_ndarray [2%nat] [0; 0]]
  = (Ok (PyArr 0%nat), [mk_ndarray [2%nat] [3; 4]; mk_ndarray [2%nat] [0; 0]]).
Proof.
  apply normalize_skipped_returns_data_in.
  eapply skip_all_zero; [reflexivity | reflexivity | ].
  simpl. repeat constructor.
Defined.

Lemma Qltb_lt (a b : Q) : Qltb a b = true <-> a < b.
Proof.
  unfold Qltb. rewrite negb_true_iff. split.
  - intros E. apply Qnot_le_lt. intros Hle. apply Qle_bool_iff in Hle. congruence.
  - intros Hlt. destruct (Qle_bool b a) eqn:E; [|reflexivity].
    apply Qle_bool_iff in E. exfalso. apply (Qlt_not_le _ _ Hlt E).
Qed.

Lemma Qltb_ge (a b : Q) : Qltb a b = false <-> b <= a.
Proof.
  unfold Qltb. rewrite negb_false_iff. apply Qle_bool_iff.
Qed.

Lemma nonzero_true (q : Q) : nonzero q = true <-> ~ q == 0.
Proof.
  unfold nonzero. rewrite negb_true_iff. split.
  - intros E Hq. apply Qeq_bool_iff in Hq. congruence.
  - intros Hq. destruct (Qeq_bool q 0) eqn:E; [|reflexivity].
    apply Qeq_bool_iff in E. contradiction.
Qed.

Lemma nonzero_false (q : Q) : nonzero q = false <-> q == 0.
Proof.
  unfold nonzero. rewrite negb_false_iff. apply Qeq_bool_iff.
Qed.

(** The value written over the zeros of the scaler: the mean, moved to
    plus or minus [1e-10] when it is closer to zero than that. *)
Lemma clamped_mean_spec (mean : Q) :
  let m := if Qltb (Qabs mean) tiny
           then (if Qle_bool 0 (np_sign mean) then tiny else - tiny)
           else mean in
  tiny <= Qabs m /\ (tiny <= Qabs mean -> m = mean) /\ (Qabs mean < tiny -> Qabs m == tiny).
Proof.
  cbv zeta. destruct (Qltb (Qabs mean) tiny) eqn:E.
  - apply Qltb_lt in E. repeat split.
    + destruct (Qle_bool 0 (np_sign mean)); vm_compute; discriminate.
    + intros Hge. exfalso. apply (Qlt_not_le _ _ E Hge).
    + intros _. destruct (Qle_bool 0 (np_sign mean)); reflexivity.
  - apply Qltb_ge in E. repeat split.
    + assumption.
    + intros Hlt. exfalso. apply (Qlt_not_le _ _ Hlt E).
Qed.

(** C6: for a scaler of the shape of the data that has a non-zero and a
    zero entry, and data that is not excluded by name, the result is a new
    array: the data divided, entry by entry, by the scaler in which every
    zero entry is replaced by [m], the mean of the non-zero entries, or
    plus or minus [1e-10] when the mean is closer to zero than that.  The
    modified scaler is a copy; the arrays passed in are left as they were. *)
Theorem normalize_replaces_zeros_by_mean (h : list ndarray) (ld ls : loc) (d s : ndarray)
  (data_name : option string) (name_not_scalable : option (list string)) :
  h !! ld = Some d -> h !! ls = Some s ->
  shape d = shape s -> length (elems d) = length (elems s) ->
  (exists q, In q (elems s) /\ ~ q == 0) ->
  (exists q, In q (elems s) /\ q == 0) ->
  (forall n names, data_name = Some n -> name_not_scalable = Some names -> ~ In n names) ->
  exists m : Q,
    tiny <= Qabs m /\
    (tiny <= Qabs (np_mean (List.filter nonzero (elems s))) ->
       m = np_mean (List.filter nonzero (elems s))) /\
    (Qabs (np_mean (List.filter nonzero (elems s))) < tiny -> Qabs m == tiny) /\
    normalize_data_by_scaler (PyArr ld) (PyArr ls) data_name name_not_scalable h =
      (Ok (PyArr (S (length h))),
       h ++ [mk_ndarray (shape s) (map (fun q => if Qeq_bool q 0 then m else q) (elems s));
             mk_ndarray (shape d)
               (zip_with Qdiv (elems d)
                  (map (fun q => if Qeq_bool q 0 then m else q) (elems s)))]).
Proof.
  intros Hd Hs Hshape Hlen (qn & Hqn & Hnz) (qz & Hqz & Hz) Hname.
  pose proof (clamped_mean_spec (np_mean (List.filter nonzero (elems s)))) as Hm.
  cbv zeta in Hm. destruct Hm as (Hm1 & Hm2 & Hm3).
  eexists. split; [exact Hm1|]. split; [exact Hm2|]. split; [exact Hm3|].
  unfold normalize_data_by_scaler, sbind at 1 2.
  rewrite (load_some _ _ _ Hd), (load_some _ _ _ Hs).
  assert (Esh : shape_eqb (shape d) (shape s) = true) by now apply shape_eqb_true.
  rewrite Esh. cbn [negb]. cbv iota.
  assert (Hpos : (0 < count_nonzero s)%nat).
  { unfold count_nonzero. apply (filter_length_pos nonzero _ qn Hqn). now apply nonzero_true. }
  assert (Hlt : (count_nonzero s < size d)%nat).
  { unfold count_nonzero, size. rewrite Hlen.
    apply (filter_length_lt nonzero _ qz Hqz). now apply nonzero_false. }
  assert (E0 : Nat.eqb (count_nonzero s) 0 = false) by (apply Nat.eqb_neq; lia).
  assert (E1 : Nat.eqb (size d) (count_nonzero s) = false) by (apply Nat.eqb_neq; lia).
  rewrite E0, E1.
  assert (Edo : match name_not_scalable, data_name with
                | None, _ => true
                | _, None => true
                | Some names, Some n => negb (name_in n names)
                end = true).
  { destruct name_not_scalable as [names|]; [|reflexivity].
    destruct data_name as [n|]; [|reflexivity].
    apply negb_true_iff. destruct (name_in n names) eqn:E; [|reflexivity].
    apply name_in_true in E. exfalso. exact (Hname n names eq_refl eq_refl E). }
  rewrite Edo. cbn [negb]. cbv iota.
  unfold sbind, alloc, sret. cbv beta iota. rewrite load_fresh, store_fresh, load_fresh.
  cbn [shape elems]. rewrite length_app. cbn [length]. rewrite Nat.add_1_r.
  rewrite <- app_assoc. reflexivity.
Qed.

Lemma normalize_replaces_zeros_witness :
  exists m : Q,
    tiny <= Qabs m /\
    (tiny <= Qabs (np_mean (List.filter nonzero (elems sample_scaler))) ->
       m = np_mean (List.filter nonzero (elems sample_scaler))) /\
    (Qabs (np_mean (List.filter nonzero (elems sample_scaler))) < tiny -> Qabs m == tiny) /\
    normalize_data_by_scaler (PyArr 0%nat) (PyArr 1%nat) None None
      [sample_counts; sample_scaler] =
      (Ok (PyArr (S (length [sample_counts; sample_scaler]))),
       [sample_counts; sample_scaler] ++
       [mk_ndarray (shape sample_scaler)
          (map (fun q => if Qeq_bool q 0 then m else q) (elems sample_scaler));
        mk_ndarray (shape sample_counts)
          (zip_with Qdiv (elems sample_counts)
             (map (fun q => if Qeq_bool q 0 then m else q) (elems sample_scaler)))]).
Proof.
  apply (normalize_replaces_zeros_by_mean [sample_counts; sample_scaler] 0%nat 1%nat
           sample_counts sample_scaler None None).
  - reflexivity.
  - reflexivity.
  - reflexivity.
  - reflexivity.
  - exists 2. split; [simpl; tauto | intros E; discriminate E].
  - exists 0. split; [simpl; tauto | reflexivity].
  - intros n names E. discriminate E.
Defined.

(** ** grid_interpolate *)

(** C9: when the coordinate arrays have one shape with a single row or a
    single column, the data is [None] or has that shape, and [xx_uniform]
    is [None] or has that shape, [grid_interpolate] returns the
    references [data], [xx] and [yy] it was given and leaves the store as
    it was, whatever [yy_uniform] holds, with one exception: when
    [yy_uniform] is given and [xx_uniform] is not, the guard for
    [yy_uniform] reads the shape of [xx_uniform] and the call raises
    [AttributeError] before it reaches the return for a single row or
    column. *)
Theorem grid_interpolate_degenerate (L : GridLib) (h : list ndarray)
  (data xx_uniform yy_uniform : pyref) (lx ly : loc) (ax ay : ndarray) (ny nx : nat) :
  h !! lx = Some ax -> h !! ly = Some ay ->
  shape ax = [ny; nx] -> shape ay = [ny; nx] ->
  (data = PyNone \/
   exists ld ad, data = PyArr ld /\ h !! ld = Some ad /\ shape ad = [ny; nx]) ->
  (xx_uniform = PyNone \/
   exists lu au, xx_uniform = PyArr lu /\ h !! lu = Some au /\ shape au = [ny; nx]) ->
  (nx <= 1 \/ ny <= 1)%nat ->
  grid_interpolate data (PyArr lx) (PyArr ly) xx_uniform yy_uniform h
  = if is_none xx_uniform && negb (is_none yy_uniform)
    then (Raise AttributeError, h)
    else (Ok (data, PyArr lx, PyArr ly), h).
Proof.
  intros Hx Hy Sx Sy Hdata Hxu Hdeg.
  assert (Edeg : (nx <=? 1)%nat || (ny <=? 1)%nat = true).
  { apply orb_true_iff. destruct Hdeg; [left | right]; now apply Nat.leb_le. }
  assert (Exy : shape_eqb [ny; nx] [ny; nx] = true) by now apply shape_eqb_true.
  unfold grid_interpolate.
  destruct Hdata as [-> | (ld & ad & -> & Hd & Sd)];
    destruct Hxu as [-> | (lu & au & -> & Hu & Su)];
    destruct yy_uniform as [|lyu];
    unfold shape_of, sret, sraise, is_none, sbind; cbn [negb andb];
    repeat (loads; rewrite ?Sd, ?Sx, ?Sy, ?Su, ?Exy; cbn [negb]; cbv beta iota);
    rewrite ?Edeg; reflexivity.
Qed.

Lemma grid_interpolate_degenerate_witness :
  @grid_interpolate idle_grid_lib PyNone (PyArr 0%nat) (PyArr 1%nat) PyNone (PyArr 1%nat)
    [mk_ndarray [1; 3]%nat [0; 1; 2]; mk_ndarray [1; 3]%nat [4; 4; 4]]
  = (Raise AttributeError, [mk_ndarray [1; 3]%nat [0; 1; 2]; mk_ndarray [1; 3]%nat [4; 4; 4]]) /\
  @grid_interpolate idle_grid_lib (PyArr 0%nat) (PyArr 1%nat) (PyArr 2%nat)
    (PyArr 1%nat) (PyArr 2%nat)
    [mk_ndarray [1; 3]%nat [5; 6; 7]; mk_ndarray [1; 3]%nat [0; 1; 2];
     mk_ndarray [1; 3]%nat [4; 4; 4]]
  = (Ok (PyArr 0%nat, PyArr 1%nat, PyArr 2%nat),
     [mk_ndarray [1; 3]%nat [5; 6; 7]; mk_ndarray [1; 3]%nat [0; 1; 2];
      mk_ndarray [1; 3]%nat [4; 4; 4]]).
Proof.
  split.
  - apply (grid_interpolate_degenerate idle_grid_lib _ PyNone PyNone (PyArr 1%nat)
             0%nat 1%nat (mk_ndarray [1; 3]%nat [0; 1; 2]) (mk_ndarray [1; 3]%nat [4; 4; 4])
             1%nat 3%nat).
    + reflexivity.
    + reflexivity.
    + reflexivity.
    + reflexivity.
    + left. reflexivity.
    + left. reflexivity.
    + right. lia.
  - apply (grid_interpolate_degenerate idle_grid_lib _ (PyArr 0%nat) (PyArr 1%nat)
             (PyArr 2%nat) 1%nat 2%nat
             (mk_ndarray [1; 3]%nat [0; 1; 2]) (mk_ndarray [1; 3]%nat [4; 4; 4]) 1%nat 3%nat).
    + reflexivity.
    + reflexivity.
    + reflexivity.
    + reflexivity.
    + right. exists 0%nat, (mk_ndarray [1; 3]%nat [5; 6; 7]).
      split; [reflexivity | split; reflexivity].
    + right. exists 1%nat, (mk_ndarray [1; 3]%nat [0; 1; 2]).
      split; [reflexivity | split; reflexivity].
    + right. lia.
Defined.

(** ** fitting_admm *)

(** C7: a call with [rate <= 0], [maxiter <= 0], [epsilon <= 0], or with
    data whose first axis differs from the row count of the reference
    matrix, raises [AssertionError]; it returns no weights and no traces. *)
Theorem fitting_admm_rejects (data ref_spectra : ndarray) (rate : Q) (maxiter : Z)
  (epsilon : Q) (n_pts : nat) (data_dims : list nat) :
  shape data = n_pts :: data_dims ->
  (rate <= 0 \/ (maxiter <= 0)%Z \/ epsilon <= 0 \/
   (forall n_refs, shape ref_spectra <> [n_pts; n_refs])) ->
  exists msg shown,
    fitting_admm data ref_spectra rate maxiter epsilon = Raise (AssertionError msg shown).
Proof.
  intros Hs Hv. unfold fitting_admm.
  destruct (shape ref_spectra) as [|a [|b [|c l]]] eqn:Er;
    try (eexists _, _; reflexivity).
  rewrite Hs.
  destruct (Nat.eqb n_pts a) eqn:E1; cbn [negb]; [|eexists _, _; reflexivity].
  apply Nat.eqb_eq in E1. subst a.
  destruct (Qltb 0 rate) eqn:E2; cbn [negb]; [|eexists _, _; reflexivity].
  destruct (0 <? maxiter)%Z eqn:E3; cbn [negb]; [|eexists _, _; reflexivity].
  destruct (Qltb 0 epsilon) eqn:E4; cbn [negb]; [|eexists _, _; reflexivity].
  exfalso. apply Qltb_lt in E2. apply Qltb_lt in E4. apply Z.ltb_lt in E3.
  destruct Hv as [Hv | [Hv | [Hv | Hv]]].
  - exact (Qlt_not_le _ _ E2 Hv).
  - lia.
  - exact (Qlt_not_le _ _ E4 Hv).
  - exact (Hv b eq_refl).
Qed.

Lemma fitting_admm_rejects_witness :
  exists msg shown,
    fitting_admm one_pixel flat_reference (-1) 50 epsilon_default
    = Raise (AssertionError msg shown).
Proof.
  apply (fitting_admm_rejects one_pixel flat_reference (-1) 50 epsilon_default 2%nat []).
  - reflexivity.
  - left. discriminate.
Defined.

Lemma clip0_nonneg (q : Q) : 0 <= clip0 q.
Proof.
  unfold clip0. destruct (Qlt_le_dec q 0); [apply Qle_refl | assumption].
Qed.

Lemma mclip_nonneg (x : matrix) : nonneg (mclip x).
Proof.
  unfold nonneg, mclip. apply List.Forall_map. apply Forall_forall. intros r _.
  apply List.Forall_map. apply Forall_forall. intros q _. apply clip0_nonneg.
Qed.

Lemma full_nonneg (r c : nat) (v : Q) : 0 <= v -> nonneg (full r c v).
Proof.
  intros Hv. unfold nonneg, full. apply Forall_forall. intros x Hx.
  apply list_elem_of_In, repeat_spec in Hx. subst x.
  apply Forall_forall. intros q Hq. apply list_elem_of_In, repeat_spec in Hq. now subst q.
Qed.

(** The loop keeps the weights non-negative. *)
Lemma admm_loop_nonneg (m1 z : matrix) (n : nat) (rate epsilon : Q) (iters : list nat) :
  forall st, nonneg (var_w st) -> nonneg (var_w (admm_loop m1 z n rate epsilon iters st)).
Proof.
  induction iters as [|i iters IH]; intros st Hst; [exact Hst|].
  cbn [admm_loop]. cbv zeta.
  match goal with |- context [if ?c then _ else _] => destruct c end.
  - cbn [var_w]. apply mclip_nonneg.
  - apply IH. cbn [var_w]. apply mclip_nonneg.
Qed.

(** After an iteration the weights are the clipped ones, whatever they
    were before. *)
Lemma admm_loop_clipped (m1 z : matrix) (n : nat) (rate epsilon : Q) (i : nat)
  (iters : list nat) (st : admm_vars) :
  nonneg (var_w (admm_loop m1 z n rate epsilon (i :: iters) st)).
Proof.
  cbn [admm_loop]. cbv zeta.
  match goal with |- context [if ?c then _ else _] => destruct c end.
  - cbn [var_w]. apply mclip_nonneg.
  - apply admm_loop_nonneg. cbn [var_w]. apply mclip_nonneg.
Qed.

(** C8: whatever the start, the weights are non-negative in every entry
    once the loop has run an iteration, so after every iteration; and for
    input that meets the preconditions a call that returns, returns
    weights that are non-negative in every entry.  The one exception such
    a call can raise is [LinAlgError], from [np.linalg.inv]. *)
Theorem fitting_admm_weights_nonneg (data ref_spectra : ndarray) (rate : Q) (maxiter : Z)
  (epsilon : Q) (n_pts n_refs : nat) (data_dims : list nat) :
  shape data = n_pts :: data_dims -> shape ref_spectra = [n_pts; n_refs] ->
  0 < rate -> (0 < maxiter)%Z -> 0 < epsilon ->
  (forall m1 z n i iters st,
     nonneg (var_w (admm_loop m1 z n rate epsilon (i :: iters) st))) /\
  ((exists w convergence feasibility,
      fitting_admm data ref_spectra rate maxiter epsilon = Ok (w, convergence, feasibility) /\
      Forall (fun q => 0 <= q) (elems w)) \/
   fitting_admm data ref_spectra rate maxiter epsilon = Raise LinAlgError).
Proof.
  intros Hd Hr Hrate Hiter Heps. split.
  - intros. apply admm_loop_clipped.
  - unfold fitting_admm. rewrite Hr, Hd, Nat.eqb_refl. cbn [negb].
    apply Qltb_lt in Hrate. apply Qltb_lt in Heps. apply Z.ltb_lt in Hiter.
    rewrite Hrate, Heps, Hiter. cbn [negb]. cbv zeta.
    match goal with |- context [linalg_inv ?n ?m] => destruct (linalg_inv n m) as [m1|] end.
    + left. eexists _, _, _. split; [reflexivity|].
      cbn [elems]. apply List.Forall_concat.
      apply admm_loop_nonneg. cbn [var_w]. apply full_nonneg. discriminate.
    + right. reflexivity.
Qed.

Lemma fitting_admm_weights_nonneg_witness :
  (forall m1 z n i iters st,
     nonneg (var_w (admm_loop m1 z n rate_default epsilon_default (i :: iters) st))) /\
  ((exists w convergence feasibility,
      fitting_admm one_pixel flat_reference rate_default 2 epsilon_default
      = Ok (w, convergence, feasibility) /\
      Forall (fun q => 0 <= q) (elems w)) \/
   fitting_admm one_pixel flat_reference rate_default 2 epsilon_default = Raise LinAlgError).
Proof.
  apply (fitting_admm_weights_nonneg one_pixel flat_reference rate_default 2 epsilon_default
           2%nat 1%nat []).
  - reflexivity.
  - reflexivity.
  - reflexivity.
  - reflexivity.
  - reflexivity.
Defined.

(** C3 (the code departs from the claim): with the default [rate] and
    [epsilon] and [maxiter = 1], the call on one pixel and one reference
    returns, and both traces it returns are empty: the one iteration did
    not reach [epsilon], and the iteration count that cuts the traces is
    set only on convergence. *)
Theorem fitting_admm_maxiter_1_empty_trace :
  exists w,
    fitting_admm one_pixel flat_reference rate_default 1 epsilon_default = Ok (w, [], []).
Proof. eexists. vm_compute. reflexivity. Qed.

(** ** Further properties of normalize_data_by_scaler *)

(** X1: for arguments that are [None] or arrays of the store, the call
    never raises and never writes to an array that exists: the store it
    leaves behind is the old one with, at most, new arrays appended. *)
Theorem normalize_keeps_arrays (h : list ndarray) (data_in scaler : pyref)
  (data_name : option string) (name_not_scalable : option (list string)) :
  valid_ref h data_in -> valid_ref h scaler ->
  exists r new_arrays,
    normalize_data_by_scaler data_in scaler data_name name_not_scalable h
    = (Ok r, h ++ new_arrays).
Proof.
  intros Hd Hs. unfold normalize_data_by_scaler.
  destruct data_in as [|ld]; [exists PyNone, []; now rewrite app_nil_r|].
  destruct scaler as [|ls]; [exists (PyArr ld), []; now rewrite app_nil_r|].
  destruct Hd as (d & Hd). destruct Hs as (s & Hs).
  unfold sbind at 1 2. rewrite (load_some _ _ _ Hd), (load_some _ _ _ Hs).
  destruct (negb (shape_eqb (shape d) (shape s)));
    [exists (PyArr ld), []; now rewrite app_nil_r|].
  match goal with |- context [if ?c then _ else sret (PyArr ld)] => destruct c end;
    [|exists (PyArr ld), []; now rewrite app_nil_r].
  destruct (negb (Nat.eqb (size d) (count_nonzero s))).
  - unfold sbind, alloc, sret. cbv beta iota. rewrite load_fresh, store_fresh, load_fresh.
    eexists _, [_; _]. rewrite <- app_assoc. reflexivity.
  - unfold sbind, alloc, sret. cbv beta iota. rewrite (load_some _ _ _ Hs).
    eexists _, [_]. reflexivity.
Qed.

Lemma normalize_keeps_arrays_witness :
  exists r new_arrays,
    normalize_data_by_scaler (PyArr 0%nat) (PyArr 1%nat) None None [sample_counts; sample_scaler]
    = (Ok r, [sample_counts; sample_scaler] ++ new_arrays).
Proof.
  apply normalize_keeps_arrays.
  - exists sample_counts. reflexivity.
  - exists sample_scaler. reflexivity.
Defined.

Lemma count_nonzero_full (l : list Q) :
  length (List.filter nonzero l) = length l -> Forall (fun q => ~ q == 0) l.
Proof.
  induction l as [|q l IH]; intros E; [constructor|].
  cbn [List.filter] in E. destruct (nonzero q) eqn:Eq.
  - cbn [length] in E. constructor; [now apply nonzero_true | apply IH; lia].
  - pose proof (filter_length_le nonzero l). cbn [length] in E. lia.
Qed.

(** The run on a scaler that has a zero entry, with the value written
    over the zeros spelled out. *)
Lemma normalize_zero_case (h : list ndarray) (ld ls : loc) (d s : ndarray)
  (data_name : option string) (name_not_scalable : option (list string)) :
  h !! ld = Some d -> h !! ls = Some s ->
  shape d = shape s -> length (elems d) = length (elems s) ->
  (exists q, In q (elems s) /\ ~ q == 0) ->
  (exists q, In q (elems s) /\ q == 0) ->
  (forall n names, data_name = Some n -> name_not_scalable = Some names -> ~ In n names) ->
  normalize_data_by_scaler (PyArr ld) (PyArr ls) data_name name_not_scalable h =
    (Ok (PyArr (S (length h))),
     h ++ [mk_ndarray (shape s)
             (map (fun q => if Qeq_bool q 0
                            then (if Qltb (Qabs (np_mean (List.filter nonzero (elems s)))) tiny
                                  then (if Qle_bool 0
                                             (np_sign (np_mean (List.filter nonzero (elems s))))
                                        then tiny else - tiny)
                                  else np_mean (List.filter nonzero (elems s)))
                            else q) (elems s));
           mk_ndarray (shape d)
             (zip_with Qdiv (elems d)
                (map (fun q => if Qeq_bool q 0
                               then (if Qltb (Qabs (np_mean (List.filter nonzero (elems s)))) tiny
                                     then (if Qle_bool 0
                                                (np_sign (np_mean (List.filter nonzero (elems s))))
                                           then tiny else - tiny)
                                     else np_mean (List.filter nonzero (elems s)))
                               else q) (elems s)))]).
Proof.
  intros Hd Hs Hshape Hlen (qn & Hqn & Hnz) (qz & Hqz & Hz) Hname.
  unfold normalize_data_by_scaler, sbind at 1 2.
  rewrite (load_some _ _ _ Hd), (load_some _ _ _ Hs).
  assert (Esh : shape_eqb (shape d) (shape s) = true) by now apply shape_eqb_true.
  rewrite Esh. cbn [negb]. cbv iota.
  assert (Hpos : (0 < count_nonzero s)%nat).
  { unfold count_nonzero. apply (filter_length_pos nonzero _ qn Hqn). now apply nonzero_true. }
  assert (Hlt : (count_nonzero s < size d)%nat).
  { unfold count_nonzero, size. rewrite Hlen.
    apply (filter_length_lt nonzero _ qz Hqz). now apply nonzero_false. }
  assert (E0 : Nat.eqb (count_nonzero s) 0 = false) by (apply Nat.eqb_neq; lia).
  assert (E1 : Nat.eqb (size d) (count_nonzero s) = false) by (apply Nat.eqb_neq; lia).
  rewrite E0, E1.
  assert (Edo : match name_not_scalable, data_name with
                | None, _ => true
                | _, None => true
                | Some names, Some n => negb (name_in n names)
                end = true).
  { destruct name_not_scalable as [names|]; [|reflexivity].
    destruct data_name as [n|]; [|reflexivity].
    apply negb_true_iff. destruct (name_in n names) eqn:E; [|reflexivity].
    apply name_in_true in E. exfalso. exact (Hname n names eq_refl eq_refl E). }
  rewrite Edo. cbn [negb]. cbv iota.
  unfold sbind, alloc, sret. cbv beta iota. rewrite load_fresh, store_fresh, load_fresh.
  cbn [shape elems]. rewrite length_app. cbn [length]. rewrite Nat.add_1_r.
  rewrite <- app_assoc. reflexivity.
Qed.

(** X2: whenever the data is scaled (same shape, a scaler with a non-zero
    entry, a name that is not excluded), the result is a new array, the
    entrywise quotient of the data by a divisor array that has no zero
    entry and agrees with the scaler wherever the scaler is not zero. *)
Theorem normalize_divisor_nonzero (h : list ndarray) (ld ls : loc) (d s : ndarray)
  (data_name : option string) (name_not_scalable : option (list string)) :
  h !! ld = Some d -> h !! ls = Some s ->
  shape d = shape s -> length (elems d) = length (elems s) ->
  (exists q, In q (elems s) /\ ~ q == 0) ->
  (forall n names, data_name = Some n -> name_not_scalable = Some names -> ~ In n names) ->
  exists lo divisor new_arrays,
    normalize_data_by_scaler (PyArr ld) (PyArr ls) data_name name_not_scalable h
    = (Ok (PyArr lo), h ++ new_arrays) /\
    (length h <= lo)%nat /\
    (h ++ new_arrays) !! lo = Some (mk_ndarray (shape d) (zip_with Qdiv (elems d) divisor)) /\
    length divisor = length (elems s) /\
    Forall (fun q => ~ q == 0) divisor /\
    Forall2 (fun q q' => ~ q == 0 -> q' = q) (elems s) divisor.
Proof.
  intros Hd Hs Hshape Hlen (qn & Hqn & Hnz) Hname.
  destruct (Nat.eq_dec (count_nonzero s) (length (elems s))) as [Hfull | Hsome].
  - (* no zero in the scaler: it is the divisor *)
    exists (length h), (elems s), [mk_ndarray (shape d) (zip_with Qdiv (elems d) (elems s))].
    split; [|split; [lia|split; [|split; [reflexivity|split]]]].
    + unfold normalize_data_by_scaler, sbind at 1 2.
      rewrite (load_some _ _ _ Hd), (load_some _ _ _ Hs).
      assert (Esh : shape_eqb (shape d) (shape s) = true) by now apply shape_eqb_true.
      rewrite Esh. cbn [negb]. cbv iota.
      assert (Hpos : (0 < count_nonzero s)%nat).
      { unfold count_nonzero. apply (filter_length_pos nonzero _ qn Hqn).
        now apply nonzero_true. }
      assert (E0 : Nat.eqb (count_nonzero s) 0 = false) by (apply Nat.eqb_neq; lia).
      assert (E1 : Nat.eqb (size d) (count_nonzero s) = true)
        by (apply Nat.eqb_eq; unfold size; lia).
      rewrite E0, E1.
      assert (Edo : match name_not_scalable, data_name with
                    | None, _ => true
                    | _, None => true
                    | Some names, Some n => negb (name_in n names)
                    end = true).
      { destruct name_not_scalable as [names|]; [|reflexivity].
        destruct data_name as [n|]; [|reflexivity].
        apply negb_true_iff. destruct (name_in n names) eqn:E; [|reflexivity].
        apply name_in_true in E. exfalso. exact (Hname n names eq_refl eq_refl E). }
      rewrite Edo. cbn [negb]. cbv iota.
      unfold sbind, alloc, sret. cbv beta iota. rewrite (load_some _ _ _ Hs). reflexivity.
    + rewrite lookup_app_r by lia. now rewrite Nat.sub_diag.
    + now apply count_nonzero_full.
    + clear. induction (elems s) as [|q l IH]; constructor; auto.
  - (* the scaler has a zero: C6 gives the divisor *)
    assert (Hzero : exists q, In q (elems s) /\ q == 0).
    { unfold count_nonzero in Hsome.
      assert (Hex : Exists (fun q => nonzero q = false) (elems s)).
      { apply List.Exists_exists. clear - Hsome.
        induction (elems s) as [|q l IH]; [contradiction Hsome; reflexivity|].
        cbn [List.filter] in Hsome. destruct (nonzero q) eqn:Eq.
        - cbn [length] in Hsome. destruct IH as (x & Hx & Ex); [lia|].
          exists x. split; [now right | exact Ex].
        - exists q. split; [now left | exact Eq]. }
      apply List.Exists_exists in Hex. destruct Hex as (q & Hq & Eq).
      exists q. split; [exact Hq | now apply nonzero_false]. }
    pose proof (clamped_mean_spec (np_mean (List.filter nonzero (elems s)))) as Hm.
    cbv zeta in Hm. destruct Hm as (Hm1 & _).
    set (m := if Qltb (Qabs (np_mean (List.filter nonzero (elems s)))) tiny
              then (if Qle_bool 0 (np_sign (np_mean (List.filter nonzero (elems s))))
                    then tiny else - tiny)
              else np_mean (List.filter nonzero (elems s))) in *.
    pose proof (normalize_zero_case h ld ls d s data_name name_not_scalable
                  Hd Hs Hshape Hlen (ex_intro _ qn (conj Hqn Hnz)) Hzero Hname) as He.
    fold m in He.
    exists (S (length h)), (map (fun q => if Qeq_bool q 0 then m else q) (elems s)).
    eexists. split; [exact He|]. split; [lia|].
    split; [|split; [apply List.length_map|split]].
    + rewrite lookup_app_r by lia. replace (S (length h) - length h)%nat with 1%nat by lia.
      reflexivity.
    + apply List.Forall_map. apply Forall_forall. intros q _.
      destruct (Qeq_bool q 0) eqn:Eq.
      * intros E0. rewrite E0 in Hm1. vm_compute in Hm1. now apply Hm1.
      * intros E0. apply Qeq_bool_iff in E0. congruence.
    + clear He Hm1. clearbody m. revert m. generalize (elems s). clear. intros l m.
      induction l as [|q l IH]; cbn [map]; constructor; [|exact IH].
      intros Hq. destruct (Qeq_bool q 0) eqn:Eq; [|reflexivity].
      apply Qeq_bool_iff in Eq. contradiction.
Qed.

Lemma normalize_divisor_nonzero_witness :
  exists lo divisor new_arrays,
    normalize_data_by_scaler (PyArr 0%nat) (PyArr 1%nat) None None [sample_counts; sample_scaler]
    = (Ok (PyArr lo), [sample_counts; sample_scaler] ++ new_arrays) /\
    (length [sample_counts; sample_scaler] <= lo)%nat /\
    ([sample_counts; sample_scaler] ++ new_arrays) !! lo
    = Some (mk_ndarray (shape sample_counts) (zip_with Qdiv (elems sample_counts) divisor)) /\
    length divisor = length (elems sample_scaler) /\
    Forall (fun q => ~ q == 0) divisor /\
    Forall2 (fun q q' => ~ q == 0 -> q' = q) (elems sample_scaler) divisor.
Proof.
  apply (normalize_divisor_nonzero [sample_counts; sample_scaler] 0%nat 1%nat
           sample_counts sample_scaler None None).
  - reflexivity.
  - reflexivity.
  - reflexivity.
  - reflexivity.
  - exists 2. split; [simpl; tauto | intros E; discriminate E].
  - intros n names E. discriminate E.
Defined.

(** ** Further properties of fitting_admm *)

Lemma admm_loop_traces (m1 z : matrix) (n : nat) (rate epsilon : Q) (total : nat)
  (iters : list nat) :
  Forall (fun i => (i < total)%nat) iters ->
  forall st,
    length (var_convergence st) = total -> length (var_feasibility st) = total ->
    var_n_iter st = 0%nat ->
    let st' := admm_loop m1 z n rate epsilon iters st in
    length (var_convergence st') = total /\ length (var_feasibility st') = total /\
    (var_n_iter st' = 0%nat \/
     exists i v, var_n_iter st' = S i /\ (i < total)%nat /\
                 var_convergence st' !! i = Some v /\ np_less v epsilon = true).
Proof.
  induction 1 as [|i iters Hi Hiters IH]; intros st Hc Hf Hn; cbv zeta.
  - cbn [admm_loop]. auto.
  - cbn [admm_loop]. cbv zeta.
    match goal with |- context [if np_less ?c epsilon then _ else _] =>
      destruct (np_less c epsilon) eqn:Econv end.
    + cbn [var_convergence var_feasibility var_n_iter].
      rewrite !length_insert. split; [exact Hc|]. split; [exact Hf|].
      right. eexists i, _. rewrite Nat.add_1_r. split; [reflexivity|]. split; [exact Hi|].
      split; [apply list_lookup_insert_eq; lia | exact Econv].
    + apply IH; cbn [var_convergence var_feasibility var_n_iter];
        rewrite ?length_insert; assumption.
Qed.

(** X3: the two traces [fitting_admm] returns have one length, at most
    [maxiter]; and a trace that is not empty ends in a value below
    [epsilon].  A run that does not converge within [maxiter] iterations
    therefore returns empty traces, whatever [maxiter] is. *)
Theorem fitting_admm_traces (data ref_spectra : ndarray) (rate : Q) (maxiter : Z)
  (epsilon : Q) (w : ndarray) (convergence feasibility : list npfloat) :
  fitting_admm data ref_spectra rate maxiter epsilon = Ok (w, convergence, feasibility) ->
  length convergence = length feasibility /\
  (Z.of_nat (length convergence) <= maxiter)%Z /\
  (forall v, last convergence = Some v -> np_less v epsilon = true).
Proof.
  unfold fitting_admm. intros E.
  destruct (shape ref_spectra) as [|a [|b [|c l]]]; try discriminate E.
  destruct (shape data) as [|n_pts data_dims]; [discriminate E|].
  destruct (negb (Nat.eqb n_pts a)); [discriminate E|].
  destruct (negb (Qltb 0 rate)); [discriminate E|].
  destruct (0 <? maxiter)%Z eqn:Em; cbn [negb] in E; [|discriminate E].
  destruct (negb (Qltb 0 epsilon)); [discriminate E|].
  cbv zeta in E.
  match type of E with context [linalg_inv ?n ?m] => destruct (linalg_inv n m) as [m1|] end;
    [|discriminate E].
  match type of E with context [admm_loop ?a ?b ?c ?d ?e ?f ?g] =>
    pose proof (admm_loop_traces a b c d e (Z.to_nat maxiter) f) as Hl;
    specialize (Hl ltac:(apply Forall_forall; intros i Hi;
                         apply list_elem_of_In, in_seq in Hi; lia) g);
    set (st := admm_loop a b c d e f g) in *
  end.
  cbn [var_convergence var_feasibility var_n_iter] in Hl.
  rewrite !repeat_length in Hl. specialize (Hl eq_refl eq_refl eq_refl). cbv zeta in Hl.
  destruct Hl as (Hc & Hf & Hn).
  inversion E. subst w convergence feasibility. clear E.
  apply Z.ltb_lt in Em.
  split; [rewrite !length_take; lia|].
  split; [rewrite length_take; lia|].
  intros v Hv. destruct Hn as [Hn | (i & v' & Hn & Hi & Hlook & Hless)].
  - rewrite Hn in Hv. discriminate Hv.
  - rewrite Hn in Hv. rewrite last_lookup in Hv.
    rewrite length_take, Hc in Hv.
    replace (Init.Nat.pred (S i `min` Z.to_nat maxiter)) with i in Hv by lia.
    rewrite lookup_take_lt in Hv by lia. rewrite Hlook in Hv. inversion Hv. now subst v'.
Qed.

Lemma fitting_admm_traces_witness :
  exists w convergence feasibility,
    fitting_admm one_pixel flat_reference rate_default 1 10 = Ok (w, convergence, feasibility) /\
    length convergence = length feasibility /\
    (Z.of_nat (length convergence) <= 1)%Z /\
    (forall v, last convergence = Some v -> np_less v 10 = true).
Proof.
  eexists _, _, _. split; [vm_compute; reflexivity|].
  eapply (fitting_admm_traces one_pixel flat_reference rate_default 1 10).
  vm_compute. reflexivity.
Defined.

Lemma has_dims_full (r c : nat) (v : Q) : has_dims r c (full r c v).
Proof.
  unfold has_dims, full. split; [apply repeat_length|].
  apply Forall_forall. intros x Hx. apply list_elem_of_In, repeat_spec in Hx.
  subst x. apply repeat_length.
Qed.

Lemma has_dims_matmul (nc : nat) (x y : matrix) : has_dims (length x) nc (matmul nc x y).
Proof.
  unfold has_dims, matmul. split; [apply List.length_map|].
  apply List.Forall_map. apply Forall_forall. intros r _.
  now rewrite List.length_map, length_seq.
Qed.

Lemma has_dims_zip (f : Q -> Q -> Q) (r c : nat) (a b : matrix) :
  has_dims r c a -> has_dims r c b -> has_dims r c (zip_with (zip_with f) a b).
Proof.
  unfold has_dims. intros (Ha & Fa) (Hb & Fb). subst r. revert b Hb Fb.
  induction a as [|x a IH]; intros [|y b] Hb Fb; try discriminate Hb.
  - split; [reflexivity | constructor].
  - cbn [zip_with length]. inversion Fa; subst. inversion Fb; subst.
    destruct (IH ltac:(assumption) b ltac:(now inversion Hb) ltac:(assumption)) as (Hl & Hf).
    split; [now rewrite Hl|]. constructor; [|exact Hf].
    rewrite length_zip_with. lia.
Qed.

Lemma has_dims_map (f : Q -> Q) (r c : nat) (a : matrix) :
  has_dims r c a -> has_dims r c (map (map f) a).
Proof.
  unfold has_dims. intros (Ha & Fa). split; [now rewrite List.length_map|].
  apply List.Forall_map. eapply Forall_impl; [exact Fa|].
  intros x Hx. cbn beta. now rewrite List.length_map.
Qed.

Lemma has_dims_concat (r c : nat) (m : matrix) :
  has_dims r c m -> length (concat m) = (r * c)%nat.
Proof.
  unfold has_dims. intros (Hm & Fm). subst r.
  induction Fm as [|x m Hx Fm IH]; [reflexivity|].
  cbn [concat length]. rewrite length_app, IH, Hx. lia.
Qed.

Lemma gauss_jordan_length (steps k : nat) (finished todo rows : matrix) :
  gauss_jordan steps k finished todo = Some rows ->
  length rows = (length finished + steps)%nat.
Proof.
  revert k finished todo. induction steps as [|steps IH]; intros k finished todo E.
  - cbn in E. inversion E. lia.
  - cbn [gauss_jordan] in E. destruct (extract_pivot k todo) as [[p rest]|]; [|discriminate E].
    cbv zeta in E. apply IH in E. rewrite E, length_app, List.length_map. cbn [length]. lia.
Qed.

Lemma linalg_inv_length (n : nat) (m m1 : matrix) :
  linalg_inv n m = Some m1 -> length m1 = n.
Proof.
  unfold linalg_inv. destruct (gauss_jordan n 0 [] _) as [rows|] eqn:E; intros E1;
    inversion E1. apply gauss_jordan_length in E. rewrite List.length_map, E. reflexivity.
Qed.

Lemma admm_loop_dims (m1 z : matrix) (r c : nat) (rate epsilon : Q) (iters : list nat) :
  length m1 = r ->
  forall st, has_dims r c (var_w st) -> has_dims r c (var_u st) ->
             has_dims r c (var_w (admm_loop m1 z c rate epsilon iters st)).
Proof.
  intros Hm1. induction iters as [|i iters IH]; intros st Hw Hu; [exact Hw|].
  cbn [admm_loop]. cbv zeta.
  set (x := matmul c m1 _).
  assert (Hx : has_dims r c x) by (rewrite <- Hm1; apply has_dims_matmul).
  assert (Hw' : has_dims r c (mclip (madd x (var_u st))))
    by (apply has_dims_map, has_dims_zip; assumption).
  match goal with |- context [if ?b then _ else _] => destruct b end.
  - exact Hw'.
  - apply IH; cbn [var_w var_u]; [exact Hw'|].
    apply has_dims_zip; [apply has_dims_zip|]; assumption.
Qed.

(** X4: the weights [fitting_admm] returns have a first axis of [n_refs]
    entries, the number of reference spectra, followed by the axes of the
    data after its first; they hold [n_refs] times the number of pixels
    entries.  Data that is a single point, a row of pixels or an image
    gets weights of the matching dimensionality. *)
Theorem fitting_admm_weights_shape (data ref_spectra : ndarray) (rate : Q) (maxiter : Z)
  (epsilon : Q) (w : ndarray) (convergence feasibility : list npfloat) :
  fitting_admm data ref_spectra rate maxiter epsilon = Ok (w, convergence, feasibility) ->
  exists n_pts n_refs data_dims,
    shape data = n_pts :: data_dims /\ shape ref_spectra = [n_pts; n_refs] /\
    shape w = n_refs :: data_dims /\
    length (elems w) = (n_refs * fold_right Nat.mul 1 data_dims)%nat.
Proof.
  unfold fitting_admm. intros E.
  destruct (shape ref_spectra) as [|a [|n_refs [|c l]]]; try discriminate E.
  destruct (shape data) as [|n_pts data_dims]; [discriminate E|].
  destruct (Nat.eqb n_pts a) eqn:En; cbn [negb] in E; [|discriminate E].
  apply Nat.eqb_eq in En. subst a.
  destruct (negb (Qltb 0 rate)); [discriminate E|].
  destruct (negb (0 <? maxiter)%Z); [discriminate E|].
  destruct (negb (Qltb 0 epsilon)); [discriminate E|].
  cbv zeta in E.
  match type of E with context [linalg_inv ?n ?m] =>
    destruct (linalg_inv n m) as [m1|] eqn:Einv end; [|discriminate E].
  apply linalg_inv_length in Einv.
  inversion E. subst w convergence feasibility. clear E.
  exists n_pts, n_refs, data_dims. split; [reflexivity|]. split; [reflexivity|].
  cbn [shape elems]. split.
  - destruct data_dims as [|d [|d' l]]; try reflexivity.
    cbn [fold_right]. now rewrite Nat.mul_1_r.
  - apply has_dims_concat. apply admm_loop_dims; [exact Einv | |]; apply has_dims_full.
Qed.

Lemma fitting_admm_weights_shape_witness :
  exists w convergence feasibility n_pts n_refs data_dims,
    fitting_admm one_pixel flat_reference rate_default 1 10 = Ok (w, convergence, feasibility) /\
    shape one_pixel = n_pts :: data_dims /\ shape flat_reference = [n_pts; n_refs] /\
    shape w = n_refs :: data_dims /\
    length (elems w) = (n_refs * fold_right Nat.mul 1 data_dims)%nat.
Proof.
  assert (E : exists r, fitting_admm one_pixel flat_reference rate_default 1 10 = Ok r)
    by (eexists; vm_compute; reflexivity).
  destruct E as ([[w c] f] & E).
  destruct (fitting_admm_weights_shape _ _ _ _ _ _ _ _ E) as (n_pts & n_refs & dd & H).
  exists w, c, f, n_pts, n_refs, dd. split; [exact E | exact H].
Defined.

(** ** Further properties of grid_interpolate *)

Lemma shape_eqb_false (s1 s2 : list nat) : s1 <> s2 -> shape_eqb s1 s2 = false.
Proof.
  intros Hne. destruct (shape_eqb s1 s2) eqn:E; [|reflexivity].
  apply shape_eqb_true in E. contradiction.
Qed.

(** X5: data whose shape differs from that of [xx], or coordinate arrays
    [xx] and [yy] of different shapes, with or without data, make
    [grid_interpolate] raise [ValueError]; the store is left as it was. *)
Theorem grid_interpolate_shape_guard (L : GridLib) (h : list ndarray) (data : pyref)
  (lx ly : loc) (ax ay : ndarray) (xx_uniform yy_uniform : pyref) :
  h !! lx = Some ax -> h !! ly = Some ay ->
  (data = PyNone \/ exists ld ad, data = PyArr ld /\ h !! ld = Some ad) ->
  ((exists ld ad, data = PyArr ld /\ h !! ld = Some ad /\ shape ad <> shape ax) \/
   shape ax <> shape ay) ->
  exists msg,
    grid_interpolate data (PyArr lx) (PyArr ly) xx_uniform yy_uniform h
    = (Raise (ValueError msg), h).
Proof.
  intros Hx Hy Hdata Hbad.
  assert (Hfirst : forall ld ad, h !! ld = Some ad -> shape ad <> shape ax ->
            grid_interpolate (PyArr ld) (PyArr lx) (PyArr ly) xx_uniform yy_uniform h
            = (Raise (ValueError msg_shape_data), h)).
  { intros ld ad Hd Hne. unfold grid_interpolate, shape_of, sret, sraise, is_none, sbind.
    cbn [negb]. loads. now rewrite (shape_eqb_false _ _ Hne). }
  destruct Hbad as [(ld & ad & -> & Hd & Hne) | Hne].
  { exists msg_shape_data. now apply (Hfirst ld ad). }
  destruct Hdata as [-> | (ld & ad & -> & Hd)].
  - exists msg_shape_xy. unfold grid_interpolate, shape_of, sret, sraise, is_none, sbind.
    cbn [negb]. loads. now rewrite (shape_eqb_false _ _ Hne).
  - destruct (shape_eqb (shape ad) (shape ax)) eqn:E.
    + exists msg_shape_xy. unfold grid_interpolate, shape_of, sret, sraise, is_none, sbind.
      cbn [negb]. loads. rewrite E. cbn [negb]. loads.
      now rewrite (shape_eqb_false _ _ Hne).
    + exists msg_shape_data. apply (Hfirst ld ad Hd).
      intros Heq. rewrite Heq in E.
      assert (E' : shape_eqb (shape ax) (shape ax) = true) by now apply shape_eqb_true.
      rewrite E' in E. discriminate E.
Qed.

Lemma grid_interpolate_shape_guard_witness :
  (exists msg,
     @grid_interpolate idle_grid_lib (PyArr 0%nat) (PyArr 1%nat) (PyArr 1%nat) PyNone PyNone
       [sample_counts; mk_ndarray [1; 2]%nat [0; 1]]
     = (Raise (ValueError msg), [sample_counts; mk_ndarray [1; 2]%nat [0; 1]])) /\
  (exists msg,
     @grid_interpolate idle_grid_lib (PyArr 0%nat) (PyArr 0%nat) (PyArr 1%nat) PyNone PyNone
       [mk_ndarray [1; 2]%nat [0; 1]; mk_ndarray [2; 1]%nat [3; 4]]
     = (Raise (ValueError msg), [mk_ndarray [1; 2]%nat [0; 1]; mk_ndarray [2; 1]%nat [3; 4]])).
Proof.
  split.
  - apply (grid_interpolate_shape_guard idle_grid_lib _ _ 1%nat 1%nat
             (mk_ndarray [1; 2]%nat [0; 1]) (mk_ndarray [1; 2]%nat [0; 1])).
    + reflexivity.
    + reflexivity.
    + right. exists 0%nat, sample_counts. split; reflexivity.
    + left. exists 0%nat, sample_counts. split; [reflexivity|]. split; [reflexivity|].
      discriminate.
  - apply (grid_interpolate_shape_guard idle_grid_lib _ _ 0%nat 1%nat
             (mk_ndarray [1; 2]%nat [0; 1]) (mk_ndarray [2; 1]%nat [3; 4])).
    + reflexivity.
    + reflexivity.
    + right. exists 0%nat, (mk_ndarray [1; 2]%nat [0; 1]). split; reflexivity.
    + right. discriminate.
Defined.

(** X6: when [yy_uniform] is given and [xx_uniform] is not, the guard for
    [yy_uniform] reads the shape of [xx_uniform], which is [None]: the
    call raises [AttributeError], with or without data, also for
    arguments of one shape. *)
Theorem grid_interpolate_yy_uniform_alone (L : GridLib) (h : list ndarray) (data : pyref)
  (lx ly lu : loc) (ax ay : ndarray) :
  h !! lx = Some ax -> h !! ly = Some ay -> shape ax = shape ay ->
  (data = PyNone \/
   exists ld ad, data = PyArr ld /\ h !! ld = Some ad /\ shape ad = shape ax) ->
  grid_interpolate data (PyArr lx) (PyArr ly) PyNone (PyArr lu) h
  = (Raise AttributeError, h).
Proof.
  intros Hx Hy Hs Hdata.
  assert (E : shape_eqb (shape ay) (shape ay) = true) by now apply shape_eqb_true.
  destruct Hdata as [-> | (ld & ad & -> & Hd & Sd)];
    unfold grid_interpolate, shape_of, sret, sraise, is_none, sbind; cbn [negb].
  - loads. rewrite Hs, E. reflexivity.
  - loads. rewrite Sd, Hs, E. cbn [negb]. loads. rewrite Hs, E. reflexivity.
Qed.

Lemma grid_interpolate_yy_uniform_alone_witness :
  @grid_interpolate idle_grid_lib (PyArr 0%nat) (PyArr 0%nat) (PyArr 0%nat) PyNone (PyArr 0%nat)
    [mk_ndarray [2; 2]%nat [0; 1; 0; 1]]
  = (Raise AttributeError, [mk_ndarray [2; 2]%nat [0; 1; 0; 1]]).
Proof.
  apply (grid_interpolate_yy_uniform_alone idle_grid_lib _ (PyArr 0%nat) 0%nat 0%nat 0%nat
           (mk_ndarray [2; 2]%nat [0; 1; 0; 1]) (mk_ndarray [2; 2]%nat [0; 1; 0; 1]));
    [reflexivity | reflexivity | reflexivity |].
  right. exists 0%nat, (mk_ndarray [2; 2]%nat [0; 1; 0; 1]).
  split; [reflexivity | split; reflexivity].
Defined.

Lemma frames_shape_of (h0 : list ndarray) (r : pyref) : frames h0 (shape_of r) (fun _ => True).
Proof.
  destruct r as [|l]; [apply frames_raise|].
  unfold shape_of. eapply frames_bind; [apply frames_load|]. intros a _. now apply frames_ret.
Qed.

(** X7: [grid_interpolate] never writes to an array that exists: whatever
    the arguments, and whether it returns or raises, the store it leaves
    behind is the old one with, at most, new arrays appended. *)
Theorem grid_interpolate_keeps_arrays (L : GridLib) (h : list ndarray)
  (data xx yy xx_uniform yy_uniform : pyref) :
  exists new_arrays,
    snd (grid_interpolate data xx yy xx_uniform yy_uniform h) = h ++ new_arrays.
Proof.
  assert (Hf : frames h (grid_interpolate data xx yy xx_uniform yy_uniform) (fun _ => True)).
  { unfold grid_interpolate.
    eapply frames_bind with (V := fun _ => True).
    { destruct (negb (is_none data)); [|now apply frames_ret].
      eapply frames_bind; [apply frames_shape_of|]. intros sd _.
      eapply frames_bind; [apply frames_shape_of|]. intros sx _.
      destruct (negb (shape_eqb sd sx)); [apply frames_raise | now apply frames_ret]. }
    intros _ _. eapply frames_bind; [apply frames_shape_of|]. intros sx _.
    eapply frames_bind; [apply frames_shape_of|]. intros sy _.
    destruct (negb (shape_eqb sx sy)); [apply frames_raise|].
    eapply frames_bind with (V := fun _ => True).
    { destruct (negb (is_none xx_uniform)); [|now apply frames_ret].
      eapply frames_bind; [apply frames_shape_of|]. intros su _.
      destruct (negb (shape_eqb su sx)); [apply frames_raise | now apply frames_ret]. }
    intros _ _. eapply frames_bind with (V := fun _ => True).
    { destruct (negb (is_none yy_uniform)); [|now apply frames_ret].
      eapply frames_bind; [apply frames_shape_of|]. intros su _.
      destruct (negb (shape_eqb su sx)); [apply frames_raise | now apply frames_ret]. }
    intros _ _. destruct sx as [|ny [|nx [|? ?]]]; try apply frames_raise.
    destruct ((nx <=? 1)%nat || (ny <=? 1)%nat); [now apply frames_ret|].
    destruct xx as [|lx]; [apply frames_raise|].
    destruct yy as [|ly]; [apply frames_raise|].
    eapply frames_bind; [apply frames_load|]. intros ax _.
    eapply frames_bind; [apply frames_load|]. intros ay _.
    destruct (_get_range ny nx ax) as [x_min x_max].
    destruct (_get_range ny nx ay) as [y_min y_max].
    destruct (np_mgrid y_min y_max ny x_min x_max nx) as [yu xu].
    eapply frames_bind with (V := fun _ => True).
    { destruct (is_none xx_uniform); [|now apply frames_ret].
      eapply frames_bind; [apply frames_alloc|]. intros l _. now apply frames_ret. }
    intros xu' _. eapply frames_bind with (V := fun _ => True).
    { destruct (is_none yy_uniform); [|now apply frames_ret].
      eapply frames_bind; [apply frames_alloc|]. intros l _. now apply frames_ret. }
    intros yu' _. cbv zeta.
    destruct data as [|ldt]; [now apply frames_ret|].
    destruct xu' as [|lxu]; [now apply frames_ret|].
    destruct yu' as [|lyu]; [now apply frames_ret|].
    eapply frames_bind; [apply frames_load|]. intros ad _.
    eapply frames_bind; [apply frames_load|]. intros axu _.
    eapply frames_bind; [apply frames_load|]. intros ayu _.
    eapply frames_bind; [apply frames_alloc|]. intros l _. now apply frames_ret. }
  destruct (Hf []) as (ext & E & _). rewrite app_nil_r in E. exists ext. exact E.
Qed.

End UtilsFacts.

(** * Properties of fit_spectrum.py *)

Module FitSpectrumFacts.

Import FitSpectrum.

Section Controller.

Context {F : Type} {FL : Float F} {EX : External (F := F)}.

Abbreviation store_of := (list (cube (F := F))).

(** ** No step writes below the buffers it allocates *)

Lemma frames_read (h0 : store_of) (a : arr) : frames h0 (read a) (fun _ => True).
Proof.
  unfold read. eapply frames_bind; [apply frames_load|].
  intros buf _. now apply frames_ret.
Qed.

Lemma frames_np_array (h0 : store_of) (a : arr) :
  frames h0 (np_array a) (fun a' => (length h0 <= base a')%nat).
Proof.
  unfold np_array. eapply frames_bind; [apply frames_read|].
  intros c _. eapply frames_bind; [apply frames_alloc|].
  intros l Hl. now apply frames_ret.
Qed.

Lemma frames_iadd (h0 : store_of) (a : arr) (v : F) :
  (length h0 <= base a)%nat -> frames h0 (iadd a v) (fun _ => True).
Proof.
  intros Ha. unfold iadd. eapply frames_bind; [apply frames_load|].
  intros buf _. now apply frames_store.
Qed.

Lemma frames_bin_data_spacial (h0 : store_of) (a : arr) (bin_size : Z) :
  (length h0 <= base a)%nat ->
  frames h0 (bin_data_spacial a bin_size) (fun a' => (length h0 <= base a')%nat).
Proof.
  intros Ha. unfold bin_data_spacial. destruct (bin_size <=? 1)%Z.
  - now apply frames_ret.
  - eapply frames_bind; [apply frames_read|]. intros d _. cbv zeta.
    eapply frames_bind; [apply frames_alloc|]. intros l Hl. now apply frames_ret.
Qed.

Lemma frames_conv_expdata_energy (h0 : store_of) (a : arr) (width : Z) :
  frames h0 (conv_expdata_energy a width) (fun a' => (length h0 <= base a')%nat).
Proof.
  unfold conv_expdata_energy. eapply frames_bind; [apply frames_np_array|].
  intros data_new Hn. cbv zeta. eapply frames_bind; [apply frames_read|].
  intros c _. eapply frames_bind; [apply frames_slift|].
  intros c' _. eapply frames_bind; [now apply frames_store|].
  intros _ _. now apply frames_ret.
Qed.

Lemma slice_channels_base (a : arr) (len : nat) (start stop : Z) :
  base (slice_channels a len start stop) = base a.
Proof.
  unfold slice_channels. destruct (slice_bounds len start stop) as [lo hi].
  destruct (window a) as [[lo0 hi0]|]; reflexivity.
Qed.

Lemma frames_get_cutted_spectrum_in3D (h0 : store_of) (a : arr) (low_e high_e off lin : F) :
  frames h0 (get_cutted_spectrum_in3D a low_e high_e off lin)
    (fun r => (length h0 <= base (snd (fst r)))%nat).
Proof.
  unfold get_cutted_spectrum_in3D. eapply frames_bind; [apply frames_np_array|].
  intros data Hd. eapply frames_bind; [apply frames_read|].
  intros c _. destruct c as [|[|y0 r0] c']; try apply frames_raise.
  cbv zeta.
  eapply frames_bind; [apply frames_slift|]. intros lowv _.
  eapply frames_bind; [apply frames_slift|]. intros highv _.
  eapply frames_bind; [apply frames_slift|]. intros lowz _.
  eapply frames_bind; [apply frames_slift|]. intros highz _.
  destruct (trim _ y0 lowz highz) as [x y].
  apply frames_ret. simpl. now rewrite slice_channels_base.
Qed.

Lemma frames_fit_pixel_multiprocess_nnls (h0 : store_of) (a : arr) (matv : mat)
  (param : fit_param) (use_snip : bool) :
  frames h0 (fit_pixel_multiprocess_nnls a matv param use_snip) (fun _ => True).
Proof.
  unfold fit_pixel_multiprocess_nnls. eapply frames_bind; [apply frames_read|].
  intros d _. eapply frames_weaken; [apply frames_slift | trivial].
Qed.

Lemma frames_fit_pixel_multiprocess_nonlinear (h0 : store_of) (a : arr) (x : list Z)
  (param : fit_param) (reg_mat : mat) (use_snip : bool) :
  frames h0 (fit_pixel_multiprocess_nonlinear a x param reg_mat use_snip) (fun _ => True).
Proof.
  unfold fit_pixel_multiprocess_nonlinear. eapply frames_bind; [apply frames_read|].
  intros d _. eapply frames_weaken; [apply frames_slift | trivial].
Qed.

Lemma frames_controller (h0 : store_of) (TL : list (string * list string)) (input_data : arr)
  (param : fit_param) (method : string) (pixel_bin raise_bg : Z)
  (comp_elastic_combine linear_bg use_snip : bool) (bin_energy : Z) :
  frames h0
    (single_pixel_fitting_controller TL input_data param method pixel_bin raise_bg
       comp_elastic_combine linear_bg use_snip bin_energy)
    (fun _ => True).
Proof.
  unfold single_pixel_fitting_controller.
  eapply frames_bind; [apply frames_get_cutted_spectrum_in3D|].
  intros [[x exp_data] fit_range] Hbase. simpl in Hbase. cbv zeta.
  eapply frames_bind; [apply frames_slift|]. intros [e_select matv] _.
  eapply frames_bind with (V := fun _ => True).
  { destruct comp_elastic_combine.
    - eapply frames_bind; [apply frames_slift|]. intros e1 _.
      eapply frames_bind; [apply frames_slift|]. intros m1 _. now apply frames_ret.
    - now apply frames_ret. }
  intros [e_select1 matv1] _.
  destruct (if linear_bg then _ else _) as [e_select2 matv2].
  eapply frames_bind with (V := fun _ => True).
  { destruct (0 <? raise_bg)%Z; [now apply frames_iadd | now apply frames_ret]. }
  intros _ _.
  eapply frames_bind with (V := fun a' => (length h0 <= base a')%nat).
  { destruct ((pixel_bin =? 4)%Z || (pixel_bin =? 9)%Z);
      [now apply frames_bin_data_spacial | now apply frames_ret]. }
  intros exp_data1 Hbase1.
  eapply frames_bind with (V := fun a' => (length h0 <= base a')%nat).
  { destruct ((bin_energy =? 2)%Z || (bin_energy =? 3)%Z);
      [apply frames_conv_expdata_energy | now apply frames_ret]. }
  intros exp_data2 Hbase2.
  eapply frames_bind; [apply frames_read|]. intros shown _. cbv zeta.
  destruct (String.eqb method "nnls").
  - eapply frames_bind; [apply frames_fit_pixel_multiprocess_nnls|]. intros res _.
    eapply frames_bind; [apply frames_slift|]. intros rm _. now apply frames_ret.
  - eapply frames_bind; [apply frames_fit_pixel_multiprocess_nonlinear|]. intros res _.
    eapply frames_bind; [apply frames_slift|]. intros [[rm em] w] _. now apply frames_ret.
Qed.

(** C10: whatever the arguments, the store the controller leaves behind
    begins with the store it was started in: every buffer that existed
    before the call, the caller's cube among them, holds what it held,
    whether the call returns or raises.  The buffers the call writes (the
    copy made by the energy-window cut, the binned and the convolved
    cubes) are the ones it has allocated itself. *)
Theorem controller_keeps_input (TL : list (string * list string)) (input_data : arr)
  (param : fit_param) (method : string) (pixel_bin raise_bg : Z)
  (comp_elastic_combine linear_bg use_snip : bool) (bin_energy : Z) (h : store_of) :
  exists allocated,
    snd (single_pixel_fitting_controller TL input_data param method pixel_bin raise_bg
           comp_elastic_combine linear_bg use_snip bin_energy h)
    = h ++ allocated.
Proof.
  destruct (frames_controller h TL input_data param method pixel_bin raise_bg
              comp_elastic_combine linear_bg use_snip bin_energy []) as (ext' & E & _).
  rewrite app_nil_r in E. exists ext'. exact E.
Qed.

(** ** What each step returns *)

Lemma read_ok (a : arr) (h h' : store_of) (c : cube) :
  read a h = (Ok c, h') ->
  h' = h /\ exists buf, h !! base a = Some buf /\ c = view (window a) buf.
Proof.
  unfold read. intros E. apply sbind_ok in E. destruct E as (buf & h1 & E1 & E).
  apply load_ok in E1. destruct E1 as (Hb & ->).
  apply sret_ok in E. destruct E as (-> & ->).
  split; [reflexivity|]. exists buf. split; [exact Hb | reflexivity].
Qed.

Lemma np_array_ok (a a' : arr) (h h' : store_of) :
  np_array a h = (Ok a', h') ->
  exists buf, h !! base a = Some buf /\ a' = mk_arr (length h) None /\
              h' = h ++ [view (window a) buf].
Proof.
  unfold np_array. intros E. apply sbind_ok in E. destruct E as (c & h1 & E1 & E).
  apply read_ok in E1. destruct E1 as (-> & buf & Hb & ->).
  apply sbind_ok in E. destruct E as (l & h2 & E2 & E).
  unfold alloc in E2. inversion E2. subst l h2.
  apply sret_ok in E. destruct E as (-> & ->).
  exists buf. split; [exact Hb|]. split; reflexivity.
Qed.

Lemma view_none (c : list (list (list F))) : view None c = c.
Proof.
  unfold view. induction c as [|r c IH]; [reflexivity|].
  cbn [map]. rewrite IH. f_equal.
  induction r as [|s r IHr]; [reflexivity|]. cbn [map window_of]. now rewrite IHr.
Qed.

Lemma read_fresh (h : store_of) (c : list (list (list F))) (w : option (nat * nat)) :
  read (mk_arr (length h) w) (h ++ [c]) = (Ok (view w c), h ++ [c]).
Proof.
  unfold read, sbind. cbn [base window].
  rewrite UtilsFacts.load_fresh. reflexivity.
Qed.

Lemma get_cutted_spectrum_in3D_ok (a a' : arr) (low_e high_e off lin : F) (x : list Z)
  (rng : Z * Z) (h h' : store_of) :
  get_cutted_spectrum_in3D a low_e high_e off lin h = (Ok (x, a', rng), h') ->
  exists buf,
    h !! base a = Some buf /\
    h' = h ++ [view (window a) buf] /\
    shape0 (view (window a) buf) <> 0%nat /\ shape1 (view (window a) buf) <> 0%nat /\
    a' = mk_arr (length h)
           (Some (slice_bounds (shape2 (view (window a) buf)) (fst rng) (snd rng + 1))).
Proof.
  unfold get_cutted_spectrum_in3D. intros E.
  apply sbind_ok in E. destruct E as (data & h1 & E1 & E).
  apply np_array_ok in E1. destruct E1 as (buf & Hb & -> & ->).
  exists buf. split; [exact Hb|].
  apply sbind_ok in E. destruct E as (c & h2 & E2 & E).
  rewrite read_fresh, view_none in E2. inversion E2. subst c h2. clear E2.
  destruct (view (window a) buf) as [|[|y0 r0] c'] eqn:Ev.
  - discriminate E.
  - discriminate E.
  - cbv zeta in E.
    apply sbind_ok in E. destruct E as (lowv & h3 & E3 & E).
    apply slift_ok in E3. destruct E3 as (_ & ->).
    apply sbind_ok in E. destruct E as (highv & h3 & E3 & E).
    apply slift_ok in E3. destruct E3 as (_ & ->).
    apply sbind_ok in E. destruct E as (lowz & h3 & E3 & E).
    apply slift_ok in E3. destruct E3 as (_ & ->).
    apply sbind_ok in E. destruct E as (highz & h3 & E3 & E).
    apply slift_ok in E3. destruct E3 as (_ & ->).
    destruct (trim _ y0 lowz highz) as [x' y'].
    apply sret_ok in E. destruct E as (E & ->). inversion E. subst.
    split; [reflexivity|]. split; [discriminate|]. split; [discriminate|].
    reflexivity.
Qed.

Lemma iadd_fresh (h : store_of) (c : list (list (list F))) (w : option (nat * nat)) (v : F) :
  iadd (mk_arr (length h) w) v (h ++ [c])
  = (Ok tt, h ++ [map (map (add_in_window w v)) c]).
Proof.
  unfold iadd, sbind. cbn [base window].
  rewrite UtilsFacts.load_fresh. apply UtilsFacts.store_fresh.
Qed.

(** A view shows the sum where [+=] was applied through that view. *)
Lemma window_of_add (w : option (nat * nat)) (v : F) (s : list F) :
  window_of w (add_in_window w v s) = map (fun q => f_add q v) (window_of w s).
Proof.
  destruct w as [[lo hi]|]; [|reflexivity].
  cbn [window_of add_in_window].
  destruct (le_lt_dec lo (length s)) as [Hlo | Hlo].
  - rewrite drop_app_length' by (rewrite length_take_le; lia).
    destruct (le_lt_dec (hi - lo) (length (drop lo s))) as [Hn | Hn].
    + rewrite take_app_length'; [reflexivity|].
      rewrite List.length_map, length_take_le; lia.
    + rewrite length_drop in Hn.
      rewrite (drop_ge s (lo + (hi - lo))) by lia.
      rewrite app_nil_r. apply take_ge.
      rewrite List.length_map, length_take, length_drop. lia.
  - rewrite (drop_ge s lo) by lia. rewrite (drop_ge s (lo + (hi - lo))) by lia.
    cbn [take map]. rewrite (take_ge s lo) by lia.
    rewrite take_nil. cbn [map]. rewrite !app_nil_r.
    rewrite (drop_ge s lo) by lia. apply take_nil.
Qed.

Lemma view_add (w : option (nat * nat)) (v : F) (c : list (list (list F))) :
  view w (map (map (add_in_window w v)) c)
  = map (map (fun s => map (fun q => f_add q v) (window_of w s))) c.
Proof.
  unfold view. rewrite List.map_map. apply List.map_ext. intros r.
  rewrite List.map_map. apply List.map_ext. intros s. apply window_of_add.
Qed.

Lemma Forall2_map_l {A A' C : Type} (g : A -> A') (P : A' -> C -> Prop) (l : list A)
  (r : list C) :
  Forall2 P (map g l) r <-> Forall2 (fun a c => P (g a) c) l r.
Proof.
  revert r. induction l as [|a l IH]; intros r; cbn [map]; split; intros E;
    inversion E; subst; constructor; try assumption; now apply IH.
Qed.

Lemma Forall2_combine_seq {A C : Type} (Q : nat * A -> C -> Prop) (l : list A) (r : list C)
  (k : nat) :
  Forall2 Q (combine (seq k (length l)) l) r ->
  Forall2 (fun a c => exists n, Q (n, a) c) l r.
Proof.
  revert r k. induction l as [|a l IH]; intros r k E; cbn in E; inversion E; subst.
  - constructor.
  - constructor; [eexists; eassumption | eapply IH; eassumption].
Qed.

Lemma Forall2_impl' {A C : Type} (P Q : A -> C -> Prop) (l : list A) (r : list C) :
  Forall2 P l r -> (forall a c, P a c -> Q a c) -> Forall2 Q l r.
Proof. induction 1; intros HPQ; constructor; auto. Qed.

(** The rows are fitted in order, each by the row function. *)
Lemma fit_pixel_multiprocess_nnls_ok (a : arr) (matv : mat) (param : fit_param)
  (use_snip : bool) (h h' : store_of) (res : cube) :
  fit_pixel_multiprocess_nnls a matv param use_snip h = (Ok res, h') ->
  h' = h /\
  exists buf, h !! base a = Some buf /\
    Forall2 (fun row fitted => exists n, fit_per_line_nnls n row matv param use_snip = Ok fitted)
      (view (window a) buf) res.
Proof.
  unfold fit_pixel_multiprocess_nnls. intros E.
  apply sbind_ok in E. destruct E as (d & h1 & E1 & E).
  apply read_ok in E1. destruct E1 as (-> & buf & Hb & ->).
  apply slift_ok in E. destruct E as (E & ->). split; [reflexivity|].
  exists buf. split; [exact Hb|].
  apply rmap_Forall2 in E. unfold enumerate in E.
  apply Forall2_combine_seq in E.
  eapply Forall2_impl'; [exact E|]. intros row fitted (n & Hn). now exists (Z.of_nat n).
Qed.

(** ** The cube an array reference shows *)

Lemma shows_fresh (h : store_of) (c : list (list (list F))) :
  shows (h ++ [c]) (mk_arr (length h) None) c.
Proof. unfold shows. rewrite read_fresh. now rewrite view_none. Qed.

Lemma bin_data_spacial_ok (h h' : store_of) (a a' : arr) (c : list (list (list F)))
  (bin_size : Z) :
  shows h a c -> bin_data_spacial a bin_size h = (Ok a', h') ->
  shows h' a' (if (bin_size <=? 1)%Z then c else bin_blocks c (Z.to_nat bin_size)).
Proof.
  unfold shows, bin_data_spacial. intros Hs E. destruct (bin_size <=? 1)%Z.
  - apply sret_ok in E. destruct E as (-> & ->). exact Hs.
  - apply sbind_ok in E. destruct E as (d & h1 & E1 & E).
    rewrite Hs in E1. inversion E1. subst d h1.
    apply sbind_ok in E. destruct E as (l & h2 & E2 & E).
    unfold alloc in E2. inversion E2. subst l h2.
    apply sret_ok in E. destruct E as (-> & ->). apply shows_fresh.
Qed.

Lemma conv_expdata_energy_ok (h h' : store_of) (a a' : arr) (c : list (list (list F)))
  (width : Z) :
  shows h a c -> conv_expdata_energy a width h = (Ok a', h') ->
  exists c', rmap (rmap (convolve_spectrum (conv_kernel width))) c = Ok c' /\ shows h' a' c'.
Proof.
  unfold conv_expdata_energy. intros Hs E.
  apply sbind_ok in E. destruct E as (data_new & h1 & E1 & E).
  unfold np_array in E1. apply sbind_ok in E1. destruct E1 as (d & h0 & E0 & E1).
  unfold shows in Hs. rewrite Hs in E0. inversion E0. subst d h0.
  apply sbind_ok in E1. destruct E1 as (l & h2 & E2 & E1).
  unfold alloc in E2. inversion E2. subst l h2.
  apply sret_ok in E1. destruct E1 as (-> & ->).
  clear E0 E2.
  cbv zeta in E. apply sbind_ok in E. destruct E as (d & h2 & E2 & E).
  rewrite read_fresh, view_none in E2. inversion E2. subst d h2.
  apply sbind_ok in E. destruct E as (c' & h2 & E3 & E).
  apply slift_ok in E3. destruct E3 as (Hc' & ->).
  apply sbind_ok in E. destruct E as (u & h2 & E4 & E).
  cbn [base] in E4. rewrite UtilsFacts.store_fresh in E4. inversion E4. subst h2.
  apply sret_ok in E. destruct E as (-> & ->).
  exists c'. split; [exact Hc' | apply shows_fresh].
Qed.

(** ** Pixel counts *)

Lemma pixel_count_map (g : list F -> list F) (c : list (list (list F))) :
  pixel_count (map (map g) c) = pixel_count c.
Proof.
  unfold pixel_count, shape0, shape1. rewrite List.length_map.
  destruct c as [|r c]; [reflexivity|]. cbn [map]. now rewrite List.length_map.
Qed.

Lemma pixel_count_rmap (g : list F -> result (list F)) (c c' : list (list (list F))) :
  rmap (rmap g) c = Ok c' -> pixel_count c' = pixel_count c.
Proof.
  intros E. apply rmap_Forall2 in E. unfold pixel_count, shape0, shape1.
  rewrite <- (Forall2_length _ _ _ E).
  destruct E as [|r r' c c' Er E]; [reflexivity|].
  apply rmap_length in Er. now rewrite Er.
Qed.

Lemma pixel_count_bin_blocks (c : list (list (list F))) (bs : nat) :
  pixel_count (bin_blocks c bs)
  = (Z.of_nat (shape0 c / bs) * Z.of_nat (shape1 c / bs))%Z.
Proof.
  unfold pixel_count, bin_blocks. cbv zeta.
  unfold shape0 at 1. rewrite List.length_map, length_seq.
  destruct (shape0 c / bs)%nat as [|k] eqn:E; [reflexivity|].
  rewrite <- cons_seq. cbn [map shape1]. now rewrite List.length_map, length_seq.
Qed.

Lemma bin_side_sqrt (pixel_bin : Z) :
  (pixel_bin =? 4)%Z || (pixel_bin =? 9)%Z = true ->
  (Z.sqrt pixel_bin <=? 1)%Z = false /\ Z.to_nat (Z.sqrt pixel_bin) = bin_side pixel_bin.
Proof.
  intros E. apply orb_true_iff in E. unfold bin_side.
  destruct E as [E | E]; apply Z.eqb_eq in E; subst pixel_bin; split; reflexivity.
Qed.

Lemma bin_side_1 (pixel_bin : Z) :
  (pixel_bin =? 4)%Z || (pixel_bin =? 9)%Z = false -> bin_side pixel_bin = 1%nat.
Proof.
  intros E. apply orb_false_iff in E. destruct E as (E4 & E9).
  unfold bin_side. now rewrite E4, E9.
Qed.

(** ** What a run of the controller that returns has gone through *)

Lemma controller_ok (TL : list (string * list string)) (input_data : arr)
  (param : fit_param) (method : string) (pixel_bin raise_bg : Z)
  (comp_elastic_combine linear_bg use_snip : bool) (bin_energy : Z) (h h' : store_of)
  (result_map : list (string * list (list F))) (info : calculation_info) :
  single_pixel_fitting_controller TL input_data param method pixel_bin raise_bg
    comp_elastic_combine linear_bg use_snip bin_energy h = (Ok (result_map, info), h') ->
  exists buf e0 m0 built shown,
    h !! base input_data = Some buf /\
    shape0 (view (window input_data) buf) <> 0%nat /\
    shape1 (view (window input_data) buf) <> 0%nat /\
    construct_linear_model (energy_axis info) param (element_names param) = Ok (e0, m0) /\
    processed_matrix comp_elastic_combine linear_bg m0 = Ok built /\
    regression_mat info = mat_div built (pixel_count shown) /\
    (let c0 := view (window input_data) buf in
     let c1 := map (map (fun s => raised_spectrum raise_bg
                                    (cut_spectrum (shape2 c0) (fit_range info) s))) c0 in
     let c2 := if (pixel_bin =? 4)%Z || (pixel_bin =? 9)%Z
               then bin_blocks c1 (bin_side pixel_bin) else c1 in
     if (bin_energy =? 2)%Z || (bin_energy =? 3)%Z
     then rmap (rmap (convolve_spectrum (conv_kernel bin_energy))) c2 = Ok shown
     else shown = c2) /\
    shows h' (exp_data info) shown /\
    (method = "nnls"%string ->
     Forall2 (fun row fitted =>
                exists n, fit_per_line_nnls n row (regression_mat info) param use_snip = Ok fitted)
       shown (results info)).
Proof.
  unfold single_pixel_fitting_controller. intros E.
  apply sbind_ok in E. destruct E as ([[x ed0] rng] & h1 & E1 & E).
  apply get_cutted_spectrum_in3D_ok in E1.
  destruct E1 as (buf & Hb & -> & Hr & Hc & ->).
  set (c0 := view (window input_data) buf) in *.
  set (w := Some (slice_bounds (shape2 c0) rng.1 (rng.2 + 1))) in *.
  cbv zeta in E.
  apply sbind_ok in E. destruct E as ([e0 m0] & h1 & E1 & E).
  apply slift_ok in E1. destruct E1 as (Hclm & ->).
  apply sbind_ok in E. destruct E as ([e1 m1] & h1 & E1 & E).
  assert (Hm1 : (if comp_elastic_combine then combine_last_columns m0 else Ok m0) = Ok m1
                /\ h1 = h ++ [c0]).
  { destruct comp_elastic_combine.
    - apply sbind_ok in E1. destruct E1 as (e' & h2 & E2 & E1).
      apply slift_ok in E2. destruct E2 as (_ & ->).
      apply sbind_ok in E1. destruct E1 as (m' & h2 & E2 & E1).
      apply slift_ok in E2. destruct E2 as (Hm' & ->).
      apply sret_ok in E1. destruct E1 as (E1 & ->). inversion E1. subst. now split.
    - apply sret_ok in E1. destruct E1 as (E1 & ->). inversion E1. now split. }
  clear E1. destruct Hm1 as (Hm1 & ->).
  set (built := if linear_bg then append_ones m1 else m1).
  assert (Hbuilt : processed_matrix comp_elastic_combine linear_bg m0 = Ok built).
  { unfold processed_matrix. now rewrite Hm1. }
  assert (Epair : (if linear_bg then (e1 ++ ["const_bkg"%string], append_ones m1) else (e1, m1))
                  = (if linear_bg then e1 ++ ["const_bkg"%string] else e1, built)).
  { unfold built. now destruct linear_bg. }
  rewrite Epair in E. clear Epair.
  set (e2 := if linear_bg then e1 ++ ["const_bkg"%string] else e1) in *.
  set (c1 := map (map (fun s => raised_spectrum raise_bg (cut_spectrum (shape2 c0) rng s))) c0).
  apply sbind_ok in E. destruct E as (u & h2 & E2 & E).
  assert (Hs1 : shows h2 (mk_arr (length h) w) c1).
  { unfold shows, c1, raised_spectrum, cut_spectrum. fold w.
    destruct (0 <? raise_bg)%Z.
    - rewrite iadd_fresh in E2. inversion E2. subst h2.
      rewrite read_fresh. now rewrite view_add.
    - apply sret_ok in E2. destruct E2 as (_ & ->). rewrite read_fresh. reflexivity. }
  clear E2.
  apply sbind_ok in E. destruct E as (ed1 & h3 & E3 & E).
  set (c2 := if (pixel_bin =? 4)%Z || (pixel_bin =? 9)%Z
             then bin_blocks c1 (bin_side pixel_bin) else c1).
  assert (Hs2 : shows h3 ed1 c2).
  { unfold c2. destruct ((pixel_bin =? 4)%Z || (pixel_bin =? 9)%Z) eqn:Eb.
    - apply bin_side_sqrt in Eb. destruct Eb as (Eb1 & Eb2).
      pose proof (bin_data_spacial_ok _ _ _ _ _ _ Hs1 E3) as Hs.
      now rewrite Eb1, Eb2 in Hs.
    - apply sret_ok in E3. destruct E3 as (-> & ->). exact Hs1. }
  clear E3.
  apply sbind_ok in E. destruct E as (ed2 & h4 & E4 & E).
  assert (Hs3 : exists shown,
             (if (bin_energy =? 2)%Z || (bin_energy =? 3)%Z
              then rmap (rmap (convolve_spectrum (conv_kernel bin_energy))) c2 = Ok shown
              else shown = c2) /\ shows h4 ed2 shown).
  { destruct ((bin_energy =? 2)%Z || (bin_energy =? 3)%Z).
    - exact (conv_expdata_energy_ok _ _ _ _ _ _ Hs2 E4).
    - apply sret_ok in E4. destruct E4 as (-> & ->). exists c2. now split. }
  clear E4. destruct Hs3 as (shown & Hconv & Hs3).
  apply sbind_ok in E. destruct E as (shown' & h5 & E5 & E).
  unfold shows in Hs3. rewrite Hs3 in E5. inversion E5. subst shown' h5. clear E5.
  exists buf, e0, m0, built, shown.
  destruct (String.eqb method "nnls") eqn:Em.
  - apply sbind_ok in E. destruct E as (res & h5 & E5 & E).
    apply fit_pixel_multiprocess_nnls_ok in E5. destruct E5 as (-> & buf' & Hb' & Hfit).
    apply sbind_ok in E. destruct E as (rm & h5 & E5 & E).
    apply slift_ok in E5. destruct E5 as (_ & ->).
    apply sret_ok in E. destruct E as (E & ->). inversion E. subst. cbn.
    repeat split; try assumption.
    intros _. apply read_ok in Hs3. destruct Hs3 as (_ & buf'' & Hb'' & Hshown).
    rewrite Hb' in Hb''. inversion Hb''. subst buf''. rewrite <- Hshown in Hfit. exact Hfit.
  - apply sbind_ok in E. destruct E as (res & h5 & E5 & E).
    unfold fit_pixel_multiprocess_nonlinear in E5.
    apply sbind_ok in E5. destruct E5 as (d & h6 & E6 & E5).
    rewrite Hs3 in E6. inversion E6. subst d h6.
    apply slift_ok in E5. destruct E5 as (_ & ->).
    apply sbind_ok in E. destruct E as ([[rm em] wm] & h5 & E5 & E).
    apply slift_ok in E5. destruct E5 as (_ & ->).
    apply sret_ok in E. destruct E as (E & ->). inversion E. subst. cbn.
    repeat split; try assumption.
    intros Hm. subst method. discriminate Em.
Qed.

Lemma shape0_map (g : list F -> list F) (c : list (list (list F))) :
  shape0 (map (map g) c) = shape0 c.
Proof. unfold shape0. apply List.length_map. Qed.

Lemma shape1_map (g : list F -> list F) (c : list (list (list F))) :
  shape1 (map (map g) c) = shape1 c.
Proof. destruct c as [|r c]; [reflexivity|]. cbn [map shape1]. apply List.length_map. Qed.

(** C1: with [method='nnls'], no pixel binning and no energy binning, a
    run that returns has fitted every pixel on its own.  Where the row
    function of scikit-beam fits each spectrum of a row with a
    single-spectrum solver [fit_spectrum], the result the controller
    holds for a pixel is what [fit_spectrum] gives for that pixel's
    spectrum (cut to the fit range, and raised by [raise_bg] when that is
    positive) against the regression matrix the controller reports; the
    results have the rows and columns of the caller's cube. *)
Theorem controller_nnls_fits_each_pixel (TL : list (string * list string)) (input_data : arr)
  (param : fit_param) (pixel_bin raise_bg : Z)
  (comp_elastic_combine linear_bg use_snip : bool) (bin_energy : Z) (h h' : store_of)
  (result_map : list (string * list (list F))) (info : calculation_info)
  (fit_spectrum : list F -> mat -> fit_param -> bool -> result (list F)) :
  (forall n row matv p s,
     fit_per_line_nnls n row matv p s = rmap (fun y => fit_spectrum y matv p s) row) ->
  pixel_bin <> 4%Z -> pixel_bin <> 9%Z -> bin_energy <> 2%Z -> bin_energy <> 3%Z ->
  single_pixel_fitting_controller TL input_data param "nnls" pixel_bin raise_bg
    comp_elastic_combine linear_bg use_snip bin_energy h = (Ok (result_map, info), h') ->
  exists buf,
    h !! base input_data = Some buf /\
    Forall2
      (Forall2 (fun spectrum fitted =>
                  fit_spectrum
                    (raised_spectrum raise_bg
                       (cut_spectrum (shape2 (view (window input_data) buf))
                          (fit_range info) spectrum))
                    (regression_mat info) param use_snip = Ok fitted))
      (view (window input_data) buf) (results info).
Proof.
  intros Hrow Hp4 Hp9 Hb2 Hb3 E.
  apply controller_ok in E.
  destruct E as (buf & e0 & m0 & built & shown & Hb & _ & _ & _ & _ & _ & Hshown & _ & Hfit).
  exists buf. split; [exact Hb|].
  specialize (Hfit eq_refl). cbv zeta in Hshown.
  assert (E4 : (pixel_bin =? 4)%Z = false) by now apply Z.eqb_neq.
  assert (E9 : (pixel_bin =? 9)%Z = false) by now apply Z.eqb_neq.
  assert (E2 : (bin_energy =? 2)%Z = false) by now apply Z.eqb_neq.
  assert (E3 : (bin_energy =? 3)%Z = false) by now apply Z.eqb_neq.
  rewrite E4, E9, E2, E3 in Hshown. cbn [orb] in Hshown. subst shown.
  apply Forall2_map_l in Hfit.
  eapply Forall2_impl'; [exact Hfit|]. intros row fitted (n & Hn).
  rewrite Hrow in Hn. apply rmap_Forall2 in Hn. apply Forall2_map_l in Hn. exact Hn.
Qed.

(** C2, as the code has it: the controller divides the regression matrix
    by the number of pixels of the cube that is fitted, whether or not
    binning is selected.  For a caller's cube of [R] by [C] pixels and
    blocks of side [n] ([n = 1] without binning) the divisor is
    [(R div n) * (C div n)], the pixel count after binning, not the
    block pixel count [n * n]. *)
Theorem controller_divides_by_pixel_count (TL : list (string * list string))
  (input_data : arr) (param : fit_param) (method : string) (pixel_bin raise_bg : Z)
  (comp_elastic_combine linear_bg use_snip : bool) (bin_energy : Z) (h h' : store_of)
  (result_map : list (string * list (list F))) (info : calculation_info) :
  single_pixel_fitting_controller TL input_data param method pixel_bin raise_bg
    comp_elastic_combine linear_bg use_snip bin_energy h = (Ok (result_map, info), h') ->
  exists buf e0 m0 built,
    h !! base input_data = Some buf /\
    construct_linear_model (energy_axis info) param (element_names param) = Ok (e0, m0) /\
    processed_matrix comp_elastic_combine linear_bg m0 = Ok built /\
    regression_mat info
    = mat_div built
        (Z.of_nat (shape0 (view (window input_data) buf) / bin_side pixel_bin) *
         Z.of_nat (shape1 (view (window input_data) buf) / bin_side pixel_bin))%Z.
Proof.
  intros E. apply controller_ok in E.
  destruct E as (buf & e0 & m0 & built & shown & Hb & _ & _ & Hclm & Hbuilt & Hreg & Hshown & _).
  exists buf, e0, m0, built. repeat split; try assumption.
  rewrite Hreg. f_equal. cbv zeta in Hshown.
  set (c0 := view (window input_data) buf) in *.
  set (c1 := map (map _) c0) in Hshown.
  assert (Hc2 : pixel_count (if (pixel_bin =? 4)%Z || (pixel_bin =? 9)%Z
                             then bin_blocks c1 (bin_side pixel_bin) else c1)
                = (Z.of_nat (shape0 c0 / bin_side pixel_bin) *
                   Z.of_nat (shape1 c0 / bin_side pixel_bin))%Z).
  { destruct ((pixel_bin =? 4)%Z || (pixel_bin =? 9)%Z) eqn:Eb.
    - rewrite pixel_count_bin_blocks. unfold c1. now rewrite shape0_map, shape1_map.
    - rewrite (bin_side_1 _ Eb), !Nat.div_1_r. unfold c1. apply pixel_count_map. }
  destruct ((bin_energy =? 2)%Z || (bin_energy =? 3)%Z).
  - apply pixel_count_rmap in Hshown. now rewrite Hshown.
  - now subst shown.
Qed.

(** ** Further properties of bin_data_spacial *)

Lemma sum_spectra_length (nchan : nat) (l : list (list F)) :
  Forall (fun s => length s = nchan) l -> length (sum_spectra nchan l) = nchan.
Proof.
  unfold sum_spectra. intros Hl.
  assert (Hacc : length (repeat f_zero nchan) = nchan) by apply repeat_length.
  revert Hacc. generalize (repeat f_zero nchan).
  induction Hl as [|s l Hs Hl IH]; intros acc Hacc; [exact Hacc|].
  cbn [fold_left]. apply IH. unfold vadd. rewrite length_zip_with. lia.
Qed.

Lemma block_spectra_channels (nchan : nat) (c : list (list (list F))) (bs i j : nat) :
  channels_are nchan c -> Forall (fun s => length s = nchan) (block_spectra c bs i j).
Proof.
  unfold channels_are, block_spectra. intros Hc.
  apply List.Forall_concat. apply List.Forall_map.
  apply Forall_take, Forall_drop. eapply Forall_impl; [exact Hc|].
  intros r Hr. cbn beta. now apply Forall_take, Forall_drop.
Qed.

(** X8: [bin_data_spacial] with a bin size of at most 1 returns the
    reference it was given and allocates nothing.  With a larger bin size
    it returns a new array and leaves the one it was given as it was: a
    cube of [R] by [C] pixels gives [R div n] rows of [C div n] pixels (a
    remainder of rows or columns is dropped), each with the channels of
    the input. *)
Theorem bin_data_spacial_result (h : store_of) (a : arr) (c : list (list (list F)))
  (bin_size : Z) :
  shows h a c -> channels_are (shape2 c) c ->
  ((bin_size <= 1)%Z -> bin_data_spacial a bin_size h = (Ok a, h)) /\
  ((1 < bin_size)%Z ->
   exists binned,
     bin_data_spacial a bin_size h = (Ok (mk_arr (length h) None), h ++ [binned]) /\
     length binned = (shape0 c / Z.to_nat bin_size)%nat /\
     Forall (fun r => length r = (shape1 c / Z.to_nat bin_size)%nat) binned /\
     channels_are (shape2 c) binned).
Proof.
  intros Hs Hc. unfold bin_data_spacial. split; intros Hb.
  - apply Z.leb_le in Hb. now rewrite Hb.
  - apply Z.leb_gt in Hb. rewrite Hb. unfold sbind. unfold shows in Hs. rewrite Hs.
    unfold alloc, sret. eexists. split; [reflexivity|].
    unfold bin_blocks. cbv zeta. split; [now rewrite List.length_map, length_seq|].
    split.
    + apply List.Forall_map. apply Forall_forall. intros i _.
      now rewrite List.length_map, length_seq.
    + unfold channels_are. apply List.Forall_map. apply Forall_forall. intros i _.
      apply List.Forall_map. apply Forall_forall. intros j _.
      apply sum_spectra_length. now apply block_spectra_channels.
Qed.

(** ** Further properties of conv_expdata_energy *)

Lemma rmap_raise_first {A C : Type} (a : A) (l : list A) (e : exn) :
  rmap (fun _ : A => @Raise C e) (a :: l) = Raise e.
Proof. reflexivity. Qed.

(** X10: with a width other than 2 or 3 the kernel is never bound:
    [conv_expdata_energy] raises [UnboundLocalError] as soon as the cube
    has a pixel.  The copy it made is all it has added to the store. *)
Theorem conv_expdata_energy_unbound (h : store_of) (a : arr) (c : list (list (list F)))
  (width : Z) :
  shows h a c -> width <> 2%Z -> width <> 3%Z -> shape1 c <> 0%nat ->
  conv_expdata_energy a width h = (Raise UnboundLocalError, h ++ [c]).
Proof.
  intros Hs H2 H3 Hc. unfold conv_expdata_energy, np_array, sbind.
  unfold shows in Hs. rewrite Hs. unfold alloc, sret. cbv beta iota zeta.
  rewrite read_fresh, view_none. unfold conv_kernel.
  apply Z.eqb_neq in H2, H3. rewrite H2, H3.
  destruct c as [|[|s r] c]; [contradiction Hc; reflexivity.. |]. reflexivity.
Qed.

Lemma assign_spectrum_length (old r r' : list F) :
  assign_spectrum old r = Ok r' -> length r' = length old.
Proof.
  unfold assign_spectrum. destruct (Nat.eqb (length r) (length old)) eqn:E.
  - intros E1. inversion E1. subst r'. now apply Nat.eqb_eq.
  - destruct r as [|v [|? ?]]; intros E1; inversion E1. apply repeat_length.
Qed.

Lemma Forall2_nested_rmap {A C : Type} (f : A -> result C) (P : A -> C -> Prop)
  (c : list (list A)) (c' : list (list C)) :
  (forall a b, f a = Ok b -> P a b) ->
  rmap (rmap f) c = Ok c' -> Forall2 (Forall2 P) c c'.
Proof.
  intros Hf E. apply rmap_Forall2 in E.
  eapply Forall2_impl'; [exact E|]. intros r r' Er. apply rmap_Forall2 in Er.
  eapply Forall2_impl'; [exact Er|]. exact Hf.
Qed.

(** X11: a call of [conv_expdata_energy] that returns, returns a new
    array: the store is the old one with that array appended, the array
    passed in is as it was, and the new cube has the rows, the pixels and
    the channel counts of the old one. *)
Theorem conv_expdata_energy_layout (h h' : store_of) (a a' : arr)
  (c : list (list (list F))) (width : Z) :
  shows h a c -> conv_expdata_energy a width h = (Ok a', h') ->
  a' = mk_arr (length h) None /\
  exists c', h' = h ++ [c'] /\
             Forall2 (Forall2 (fun s s' => length s' = length s)) c c'.
Proof.
  intros Hs E. unfold conv_expdata_energy in E.
  apply sbind_ok in E. destruct E as (data_new & h1 & E1 & E).
  apply np_array_ok in E1. destruct E1 as (buf & Hb & -> & ->).
  apply read_ok in Hs. destruct Hs as (_ & buf' & Hb' & ->).
  rewrite Hb in Hb'. inversion Hb'. subst buf'. clear Hb'.
  cbv zeta in E. apply sbind_ok in E. destruct E as (d & h2 & E2 & E).
  rewrite read_fresh, view_none in E2. inversion E2. subst d h2. clear E2.
  apply sbind_ok in E. destruct E as (c' & h2 & E3 & E).
  apply slift_ok in E3. destruct E3 as (Hc' & ->).
  apply sbind_ok in E. destruct E as (u & h2 & E4 & E).
  cbn [base] in E4. rewrite UtilsFacts.store_fresh in E4. inversion E4. subst h2.
  apply sret_ok in E. destruct E as (-> & ->).
  split; [reflexivity|]. exists c'. split; [reflexivity|].
  eapply Forall2_nested_rmap; [|exact Hc'].
  intros s s' Es. unfold convolve_spectrum in Es.
  destruct (conv_kernel width) as [f|]; [|discriminate Es].
  apply rbind_ok in Es. destruct Es as (r & _ & Es). now apply assign_spectrum_length in Es.
Qed.

(** ** Further properties of get_cutted_spectrum_in3D *)

(** X12: on a cube without a pixel (no row, or a first row without
    pixels) [get_cutted_spectrum_in3D] raises [IndexError], and so does
    the controller; all they have added to the store is the copy. *)
Theorem empty_cube_IndexError (TL : list (string * list string)) (h : store_of) (a : arr)
  (c : list (list (list F))) (low_e high_e off lin : F) (param : fit_param)
  (method : string) (pixel_bin raise_bg : Z)
  (comp_elastic_combine linear_bg use_snip : bool) (bin_energy : Z) :
  shows h a c -> (shape0 c = 0%nat \/ shape1 c = 0%nat) ->
  get_cutted_spectrum_in3D a low_e high_e off lin h = (Raise IndexError, h ++ [c]) /\
  single_pixel_fitting_controller TL a param method pixel_bin raise_bg
    comp_elastic_combine linear_bg use_snip bin_energy h = (Raise IndexError, h ++ [c]).
Proof.
  intros Hs Hc.
  assert (Hcut : forall lo hi e0 e1,
             get_cutted_spectrum_in3D a lo hi e0 e1 h = (Raise IndexError, h ++ [c])).
  { intros lo hi e0 e1. unfold get_cutted_spectrum_in3D, np_array, sbind.
    unfold shows in Hs. rewrite Hs. unfold alloc, sret. cbv beta iota.
    rewrite read_fresh, view_none.
    destruct c as [|[|s r] c']; try reflexivity.
    destruct Hc as [Hc | Hc]; discriminate Hc. }
  split; [apply Hcut|].
  unfold single_pixel_fitting_controller. unfold sbind at 1. now rewrite Hcut.
Qed.

Lemma clamp_index_in_range (len : nat) (i : Z) :
  (0 <= i <= Z.of_nat len)%Z -> clamp_index len i = Z.to_nat i.
Proof.
  intros Hi. unfold clamp_index.
  destruct (i <? 0)%Z eqn:E; [apply Z.ltb_lt in E; lia|]. f_equal. lia.
Qed.

(** X13: when the fit range [lowv..highv] that [get_cutted_spectrum_in3D]
    returns lies inside the channels of the cube, the array it returns
    shows, for every pixel, the channels [lowv] to [highv] of the input,
    both included; the copy it has made is the only buffer added to the
    store. *)
Theorem get_cutted_spectrum_in3D_window (h h' : store_of) (a a' : arr)
  (c : list (list (list F))) (low_e high_e off lin : F) (x : list Z) (lowv highv : Z) :
  shows h a c ->
  get_cutted_spectrum_in3D a low_e high_e off lin h = (Ok (x, a', (lowv, highv)), h') ->
  (0 <= lowv)%Z -> (lowv <= highv)%Z -> (highv < Z.of_nat (shape2 c))%Z ->
  h' = h ++ [c] /\
  shows h' a'
    (map (map (fun s => take (Z.to_nat (highv - lowv + 1)) (drop (Z.to_nat lowv) s))) c).
Proof.
  intros Hs E H0 Hle Hhi.
  apply get_cutted_spectrum_in3D_ok in E.
  destruct E as (buf & Hb & -> & _ & _ & ->).
  apply read_ok in Hs. destruct Hs as (_ & buf' & Hb' & ->).
  rewrite Hb in Hb'. inversion Hb'. subst buf'. clear Hb'.
  split; [reflexivity|].
  unfold shows. rewrite read_fresh. f_equal. unfold view at 1.
  cbn [fst snd]. unfold slice_bounds.
  rewrite !clamp_index_in_range by lia.
  replace (Z.to_nat lowv `max` Z.to_nat (highv + 1))%nat with (Z.to_nat (highv + 1)) by lia.
  unfold window_of.
  replace (Z.to_nat (highv + 1) - Z.to_nat lowv)%nat with (Z.to_nat (highv - lowv + 1)) by lia.
  reflexivity.
Qed.

(** ** Further properties of calculate_area *)

Lemma dict_get_set_eq {V : Type} (k : string) (v : V) (d : list (string * V)) :
  dict_get k (dict_set k v d) = Some v.
Proof.
  induction d as [|[k' v'] d IH]; cbn [dict_set dict_get].
  - now rewrite String.eqb_refl.
  - destruct (String.eqb k k') eqn:E; cbn [dict_get].
    + now rewrite String.eqb_refl.
    + now rewrite E.
Qed.

Lemma dict_get_set_ne {V : Type} (k k0 : string) (v : V) (d : list (string * V)) :
  k <> k0 -> dict_get k (dict_set k0 v d) = dict_get k d.
Proof.
  intros Hne. apply String.eqb_neq in Hne.
  induction d as [|[k' v'] d IH]; cbn [dict_set dict_get].
  - now rewrite Hne.
  - destruct (String.eqb k0 k') eqn:E; cbn [dict_get].
    + apply String.eqb_eq in E. subst k'. now rewrite Hne.
    + destruct (String.eqb k k'); [reflexivity | exact IH].
Qed.

Lemma dict_fold_get_notin {V : Type} (k : string) (entries : list (string * V))
  (d0 : list (string * V)) :
  ~ In k (map fst entries) ->
  dict_get k (fold_left (fun d e => dict_set (fst e) (snd e) d) entries d0) = dict_get k d0.
Proof.
  revert d0. induction entries as [|[k' v'] entries IH]; intros d0 Hnin; [reflexivity|].
  cbn [fold_left fst snd]. rewrite IH by (intros Hin; apply Hnin; now right).
  apply dict_get_set_ne. intros ->. apply Hnin. now left.
Qed.

Lemma dict_fold_get_in {V : Type} (k : string) (v : V) (entries : list (string * V))
  (d0 : list (string * V)) :
  List.NoDup (map fst entries) -> In (k, v) entries ->
  dict_get k (fold_left (fun d e => dict_set (fst e) (snd e) d) entries d0) = Some v.
Proof.
  revert d0. induction entries as [|[k' v'] entries IH]; intros d0 Hnd Hin; [contradiction|].
  cbn [map fst] in Hnd. inversion Hnd as [|? ? Hnin Hnd']. subst.
  cbn [fold_left fst snd]. destruct Hin as [E | Hin].
  - inversion E. subst k' v'. rewrite dict_fold_get_notin by exact Hnin.
    apply dict_get_set_eq.
  - now apply IH.
Qed.

Lemma rfold_ext {A C : Type} (f f' : C -> A -> result C) (l : list A) (c : C) :
  (forall c' a, f c' a = f' c' a) -> rfold f l c = rfold f' l c.
Proof.
  intros Hf. revert c. induction l as [|a l IH]; intros c; [reflexivity|].
  cbn [rfold]. rewrite Hf. destruct (f' c a) as [c'|e]; [|reflexivity].
  cbn [rbind]. apply IH.
Qed.

(** The entries a loop writes that stores, for every index [i], the value
    [g name i] under the name at position [i]. *)
Lemma calculate_area_loop (total : list string)
  (g : string -> nat -> result (list (list F)))
  (l : list nat) (d0 d : list (string * list (list F))) :
  rfold (fun result_map i =>
           try name <- list_index total i;
           try v <- g name i;
           Ok (dict_set name v result_map)) l d0 = Ok d ->
  exists entries,
    Forall2 (fun i e => total !! i = Some (fst e) /\ g (fst e) i = Ok (snd e)) l entries /\
    d = fold_left (fun d e => dict_set (fst e) (snd e) d) entries d0.
Proof.
  revert d0. induction l as [|i l IH]; intros d0 E.
  - cbn in E. inversion E. exists []. split; [constructor | reflexivity].
  - cbn [rfold] in E. apply rbind_ok in E. destruct E as (d1 & E1 & E).
    apply rbind_ok in E1. destruct E1 as (name & Hname & E1).
    apply rbind_ok in E1. destruct E1 as (v & Hv & E1). inversion E1. subst d1.
    apply IH in E. destruct E as (entries & Hent & ->).
    exists ((name, v) :: entries). split; [|reflexivity].
    constructor; [|exact Hent]. cbn [fst snd]. split; [|exact Hv].
    unfold list_index in Hname. destruct (_ !! i); inversion Hname. reflexivity.
Qed.

(** X14: the map [calculate_area] returns holds, under 'snip_bkg' and
    'r_squared', the last two components of the results as they are; and,
    when the names of the components are distinct, under the name of the
    component [i] the map of that component multiplied by the sum of the
    column [i] of the matrix and, with [first_peak_area], also by the
    branching ratio of the name when it is one of the emission lines (by
    1 when it is not). *)
Theorem calculate_area_entries (TL : list (string * list string)) (e_select : list string)
  (matv : mat) (res : list (list (list F))) (param : fit_param) (first_peak_area : bool)
  (result_map : list (string * list (list F))) :
  calculate_area TL e_select matv res param first_peak_area = Ok result_map ->
  (exists bkg r2,
     component res (-2) = Ok bkg /\ component res (-1) = Ok r2 /\
     dict_get "snip_bkg" result_map = Some bkg /\
     dict_get "r_squared" result_map = Some r2) /\
  (List.NoDup e_select ->
   forall i name,
     e_select !! i = Some name -> name <> "snip_bkg"%string -> name <> "r_squared"%string ->
     exists r s,
       component res (Z.of_nat i) = Ok r /\ col_sums matv !! i = Some s /\
       (first_peak_area = false -> dict_get name result_map = Some (scale_map r s)) /\
       (first_peak_area = true ->
        exists ratio_v,
          (if existsb (String.eqb name) ELEMENT_LINES
           then get_branching_ratio TL name (coherent_sct_energy param)
           else Ok (f_of_Z 1)) = Ok ratio_v /\
          dict_get name result_map = Some (scale_map (scale_map r s) ratio_v))).
Proof.
  unfold calculate_area. cbv zeta. intros E.
  apply rbind_ok in E. destruct E as (d & Hloop & E).
  apply rbind_ok in E. destruct E as (bkg & Hbkg & E).
  apply rbind_ok in E. destruct E as (r2 & Hr2 & E). inversion E. subst result_map. clear E.
  split.
  - exists bkg, r2. split; [exact Hbkg|]. split; [exact Hr2|]. split.
    + rewrite dict_get_set_ne by discriminate. apply dict_get_set_eq.
    + apply dict_get_set_eq.
  - intros Hnd i name Hi Hn1 Hn2.
    set (total := e_select ++ ["snip_bkg"; "r_squared"]%string) in *.
    set (g := fun (name : string) (i : nat) =>
                if negb first_peak_area then
                  try r <- component res (Z.of_nat i);
                  try s <- list_index (col_sums matv) i;
                  Ok (scale_map r s)
                else
                  try ratio_v <-
                    (if negb (existsb (String.eqb name) ELEMENT_LINES) then Ok (f_of_Z 1)
                     else get_branching_ratio TL name (coherent_sct_energy param));
                  try r <- component res (Z.of_nat i);
                  try s <- list_index (col_sums matv) i;
                  Ok (scale_map (scale_map r s) ratio_v)).
    assert (Hloop' : rfold (fun result_map i =>
                              try name <- list_index total i;
                              try v <- g name i;
                              Ok (dict_set name v result_map))
                           (seq 0 (length e_select)) [] = Ok d).
    { rewrite <- Hloop. apply rfold_ext. intros rm k.
      destruct (list_index total k) as [nm|e]; [|reflexivity]. cbn [rbind]. unfold g.
      destruct (negb first_peak_area).
      - destruct (component res (Z.of_nat k)) as [r|e]; [|reflexivity]. cbn [rbind].
        destruct (list_index (col_sums matv) k); reflexivity.
      - destruct (if negb (existsb (String.eqb nm) ELEMENT_LINES) then Ok (f_of_Z 1)
                  else get_branching_ratio TL nm (coherent_sct_energy param)) as [rv|e];
          [|reflexivity]. cbn [rbind].
        destruct (component res (Z.of_nat k)) as [r|e]; [|reflexivity]. cbn [rbind].
        destruct (list_index (col_sums matv) k); reflexivity. }
    clear Hloop. apply calculate_area_loop in Hloop'.
    destruct Hloop' as (entries & Hent & ->).
    rewrite !dict_get_set_ne by assumption.
    assert (Hkeys : map fst entries = e_select).
    { apply list_eq. intros k. rewrite list_lookup_fmap.
      destruct (entries !! k) as [e|] eqn:Ek.
      - destruct (Forall2_lookup_r _ _ _ _ _ Hent Ek) as (k' & Hk' & Hname & _).
        apply lookup_seq in Hk'. destruct Hk' as (-> & Hk'). cbn [plus] in Hname.
        unfold total in Hname. rewrite lookup_app_l in Hname by exact Hk'. now rewrite Hname.
      - apply lookup_ge_None in Ek. rewrite <- (Forall2_length _ _ _ Hent), length_seq in Ek.
        symmetry. now apply lookup_ge_None. }
    assert (Hi' : (i < length e_select)%nat) by (eapply lookup_lt_Some; exact Hi).
    assert (Hseq : seq 0 (length e_select) !! i = Some i) by (apply lookup_seq; lia).
    destruct (Forall2_lookup_l _ _ _ _ _ Hent Hseq) as ([nm v] & He & Hname & Hg).
    cbn [fst snd] in Hname, Hg.
    unfold total in Hname. rewrite lookup_app_l in Hname by exact Hi'.
    rewrite Hi in Hname. inversion Hname. subst nm. clear Hname.
    assert (Hget : dict_get name
                     (fold_left (fun d e => dict_set (fst e) (snd e) d) entries []) = Some v).
    { apply dict_fold_get_in; [now rewrite Hkeys|].
      apply list_elem_of_In. apply list_elem_of_lookup. exists i. exact He. }
    unfold g in Hg. destruct first_peak_area; cbn [negb] in Hg.
    + apply rbind_ok in Hg. destruct Hg as (rv & Hrv & Hg).
      apply rbind_ok in Hg. destruct Hg as (r & Hr & Hg).
      apply rbind_ok in Hg. destruct Hg as (s0 & Hs & Hg). inversion Hg. subst v.
      exists r, s0. split; [exact Hr|]. split.
      { unfold list_index in Hs. destruct (col_sums matv !! i); inversion Hs. reflexivity. }
      split; [discriminate|]. intros _. exists rv. split; [|exact Hget].
      destruct (existsb (String.eqb name) ELEMENT_LINES); exact Hrv.
    + apply rbind_ok in Hg. destruct Hg as (r & Hr & Hg).
      apply rbind_ok in Hg. destruct Hg as (s0 & Hs & Hg). inversion Hg. subst v.
      exists r, s0. split; [exact Hr|]. split.
      { unfold list_index in Hs. destruct (col_sums matv !! i); inversion Hs. reflexivity. }
      split; [intros _; exact Hget | discriminate].
Qed.

(** ** Further properties of get_branching_ratio *)

Lemma string_of_chars_of_string (s : string) : string_of_chars (chars_of_string s) = s.
Proof. induction s as [|c s IH]; [reflexivity|]. cbn. now rewrite IH. Qed.

Lemma chars_of_string_app (s1 s2 : string) :
  chars_of_string (s1 ++ s2) = chars_of_string s1 ++ chars_of_string s2.
Proof. induction s1 as [|c s1 IH]; [reflexivity|]. cbn. now rewrite IH. Qed.

Lemma split_go_plain (cur : list ascii) (s : string) :
  no_underscore s ->
  split_go "_" 0 cur s = [string_of_chars (rev cur ++ chars_of_string s)].
Proof.
  unfold no_underscore. revert cur. induction s as [|c s IH]; intros cur Hs.
  - cbn. now rewrite app_nil_r.
  - cbn [split_go String.prefix chars_of_string] in *.
    destruct (ascii_dec "_" c) as [<- | Hc]; [exfalso; apply Hs; now left|].
    rewrite IH by (intros Hin; apply Hs; now right).
    cbn [rev]. now rewrite <- app_assoc.
Qed.

Lemma split_go_underscore (cur : list ascii) (s1 rest : string) :
  no_underscore s1 ->
  split_go "_" 0 cur (s1 ++ String "_" rest)
  = string_of_chars (rev cur ++ chars_of_string s1) :: split_go "_" 0 [] rest.
Proof.
  unfold no_underscore. revert cur. induction s1 as [|c s1 IH]; intros cur Hs.
  - cbn. rewrite app_nil_r. now destruct rest.
  - cbn [append split_go String.prefix chars_of_string] in *.
    destruct (ascii_dec "_" c) as [<- | Hc]; [exfalso; apply Hs; now left|].
    rewrite IH by (intros Hin; apply Hs; now right).
    cbn [rev]. now rewrite <- app_assoc.
Qed.

Lemma split_name_line (name line : string) :
  no_underscore name -> no_underscore line ->
  split "_" (name ++ String "_" line) = [name; line].
Proof.
  intros Hn Hl. unfold split. rewrite split_go_underscore by exact Hn.
  rewrite split_go_plain by exact Hl. cbn [rev app].
  now rewrite !string_of_chars_of_string.
Qed.

Lemma upper_char_idem (c : ascii) : upper_char (upper_char c) = upper_char c.
Proof. destruct c as [[] [] [] [] [] [] [] []]; reflexivity. Qed.

Lemma upper_char_underscore (c : ascii) : upper_char c = "_"%char -> c = "_"%char.
Proof. destruct c as [[] [] [] [] [] [] [] []]; intros E; try discriminate E; reflexivity. Qed.

Lemma upper_idem (s : string) : upper (upper s) = upper s.
Proof.
  induction s as [|c s IH]; [reflexivity|]. cbn [upper]. now rewrite upper_char_idem, IH.
Qed.

Lemma upper_no_underscore (s : string) : no_underscore s -> no_underscore (upper s).
Proof.
  unfold no_underscore. induction s as [|c s IH]; intros Hs; [exact Hs|].
  cbn [upper chars_of_string] in *. intros [E | Hin].
  - apply Hs. left. apply upper_char_underscore in E. now symmetry.
  - apply IH; [|exact Hin]. intros Hin'. apply Hs. now right.
Qed.

(** X15: the letter of the line series is read without regard to its
    case: for an element name and a series without underscore,
    [get_branching_ratio] gives for [name_series] what it gives with the
    series in upper case ('Mg_k' is read as 'Mg_K'). *)
Theorem get_branching_ratio_series_case (TL : list (string * list string))
  (name line : string) (energy : F) :
  no_underscore name -> no_underscore line ->
  get_branching_ratio TL (name ++ String "_" line) energy
  = get_branching_ratio TL (name ++ String "_" (upper line)) energy.
Proof.
  intros Hn Hl. unfold get_branching_ratio.
  rewrite (split_name_line name line Hn Hl).
  rewrite (split_name_line name (upper line) Hn (upper_no_underscore line Hl)).
  now rewrite upper_idem.
Qed.

(** X16: a line identifier that does not split at one underscore into a
    name and a series makes [get_branching_ratio] raise [ValueError]; a
    series that, in upper case, is not a key of the table makes it raise
    [KeyError] with that key, once the element has been found. *)
Theorem get_branching_ratio_errors (TL : list (string * list string))
  (elemental_line : string) (energy : F) :
  (length (split "_" elemental_line) <> 2%nat ->
   exists msg, get_branching_ratio TL elemental_line energy = Raise (ValueError msg)) /\
  (forall name line e,
     split "_" elemental_line = [name; line] -> Element name = Ok e ->
     dict_get (upper line) TL = None ->
     get_branching_ratio TL elemental_line energy = Raise (KeyError (upper line))).
Proof.
  unfold get_branching_ratio. split.
  - intros Hlen. destruct (split "_" elemental_line) as [|a [|b [|c l]]];
      try (eexists; reflexivity). contradiction Hlen. reflexivity.
  - intros name line e Hs He Hk. rewrite Hs, He. cbn [rbind]. now rewrite Hk.
Qed.

(** ** Further properties of the dispatch of rows *)

Lemma rmap_lookup {A C : Type} (f : A -> result C) (l : list A) (r : list C) (n : nat) (a : A) :
  rmap f l = Ok r -> l !! n = Some a -> exists b, r !! n = Some b /\ f a = Ok b.
Proof.
  intros E Hn. apply rmap_Forall2 in E.
  destruct (Forall2_lookup_l _ _ _ _ _ E Hn) as (b & Hb & Hf). now exists b.
Qed.

Lemma rmap_first_raise {A C : Type} (f : A -> result C) (l : list A) (k : nat) (a : A)
  (e : exn) :
  l !! k = Some a -> f a = Raise e ->
  (forall j a', (j < k)%nat -> l !! j = Some a' -> exists b, f a' = Ok b) ->
  rmap f l = Raise e.
Proof.
  revert k. induction l as [|x l IH]; intros k Hk Hf Hbefore; [discriminate Hk|].
  destruct k as [|k].
  - cbn in Hk. inversion Hk. subst x. cbn [rmap]. now rewrite Hf.
  - destruct (Hbefore 0%nat x ltac:(lia) eq_refl) as (b & Hb).
    cbn [rmap]. rewrite Hb. cbn [rbind].
    rewrite (IH k Hk Hf); [reflexivity|].
    intros j a' Hj Ha'. apply (Hbefore (S j) a'); [lia | exact Ha'].
Qed.

Lemma enumerate_lookup {A : Type} (l : list A) (n : nat) (a : A) :
  l !! n = Some a -> enumerate l !! n = Some (n, a).
Proof.
  intros Hn. unfold enumerate.
  assert (Hlt : (n < length l)%nat) by (eapply lookup_lt_Some; exact Hn).
  assert (Hgen : forall k (l' : list A) m a',
             l' !! m = Some a' -> combine (seq k (length l')) l' !! m = Some ((k + m)%nat, a')).
  { clear. intros k l'. revert k. induction l' as [|x l' IH]; intros k m a' Hm;
      [discriminate Hm|].
    destruct m as [|m].
    - cbn in Hm. inversion Hm. cbn. now rewrite Nat.add_0_r.
    - change ((x :: l') !! S m) with (l' !! m) in Hm.
      change (combine (seq k (length (x :: l'))) (x :: l') !! S m)
        with (combine (seq (S k) (length l')) l' !! m).
      rewrite (IH (S k) m a' Hm). f_equal. f_equal. lia. }
  now rewrite (Hgen 0%nat l n a Hn).
Qed.

Lemma enumerate_lookup_inv {A : Type} (l : list A) (n m : nat) (a : A) :
  enumerate l !! n = Some (m, a) -> m = n /\ l !! n = Some a.
Proof.
  intros E. destruct (l !! n) as [a'|] eqn:Hn.
  - rewrite (enumerate_lookup l n a' Hn) in E. inversion E. now split.
  - apply lookup_ge_None in Hn.
    assert (Hlen : length (enumerate l) = length l).
    { unfold enumerate. rewrite length_combine, length_seq. lia. }
    assert (Hnone : enumerate l !! n = None) by (apply lookup_ge_None; lia).
    rewrite Hnone in E. discriminate E.
Qed.

(** X17: the rows are fitted under their own row number and handed back
    in row order: a run of [fit_pixel_multiprocess_nnls] that returns,
    returns one result per row of the cube, the result [n] being the one
    of the row function on the row [n].  When the row function raises on
    a row and returns on the rows before it, the run raises that
    exception. *)
Theorem fit_pixel_multiprocess_nnls_rows (a : arr) (matv : mat) (param : fit_param)
  (use_snip : bool) (h : store_of) (c : list (list (list F))) :
  shows h a c ->
  (forall res h',
     fit_pixel_multiprocess_nnls a matv param use_snip h = (Ok res, h') ->
     h' = h /\ length res = length c /\
     forall n row, c !! n = Some row ->
       exists fitted, res !! n = Some fitted /\
                      fit_per_line_nnls (Z.of_nat n) row matv param use_snip = Ok fitted) /\
  (forall k row e,
     c !! k = Some row ->
     fit_per_line_nnls (Z.of_nat k) row matv param use_snip = Raise e ->
     (forall j row', (j < k)%nat -> c !! j = Some row' ->
        exists fitted, fit_per_line_nnls (Z.of_nat j) row' matv param use_snip = Ok fitted) ->
     fit_pixel_multiprocess_nnls a matv param use_snip h = (Raise e, h)).
Proof.
  intros Hs. unfold shows in Hs. split.
  - intros res h' E. unfold fit_pixel_multiprocess_nnls, sbind in E. rewrite Hs in E.
    apply slift_ok in E. destruct E as (E & ->). split; [reflexivity|]. split.
    + apply rmap_length in E. rewrite E. unfold enumerate.
      rewrite length_combine, length_seq. lia.
    + intros n row Hn.
      destruct (rmap_lookup _ _ _ n (n, row) E (enumerate_lookup c n row Hn)) as (b & Hb & Hf).
      now exists b.
  - intros k row e Hk Hf Hbefore.
    unfold fit_pixel_multiprocess_nnls, sbind. rewrite Hs. unfold slift. f_equal.
    apply (rmap_first_raise _ (enumerate c) k (k, row) e (enumerate_lookup c k row Hk) Hf).
    intros j [m row'] Hj Hm. apply enumerate_lookup_inv in Hm. destruct Hm as (-> & Hm).
    exact (Hbefore j row' Hj Hm).
Qed.

(** ** Further properties of the regression matrix *)

Lemma processed_lengths (comp_elastic_combine linear_bg : bool) (e0 names : list string)
  (m0 built : mat) :
  processed_names comp_elastic_combine linear_bg e0 = Ok names ->
  processed_matrix comp_elastic_combine linear_bg m0 = Ok built ->
  ncols m0 = length e0 -> ncols built = length names.
Proof.
  unfold processed_names, processed_matrix. intros En Em Hl.
  apply rbind_ok in En. destruct En as (e1 & He1 & En).
  apply rbind_ok in Em. destruct Em as (m1 & Hm1 & Em).
  inversion En. inversion Em. subst names built. clear En Em.
  assert (H1 : ncols m1 = length e1).
  { destruct comp_elastic_combine.
    - unfold combine_last_columns in Hm1.
      destruct (ncols m0 <=? 1)%nat; [discriminate Hm1|]. inversion Hm1. cbn [ncols].
      unfold set_last in He1. destruct (removelast e0) eqn:Er; [discriminate He1|].
      inversion He1. rewrite length_insert, <- Er.
      rewrite removelast_firstn_len, length_take. lia.
    - inversion He1. inversion Hm1. now subst. }
  destruct linear_bg; cbn [append_ones ncols]; rewrite ?length_app; cbn [length]; lia.
Qed.

(** ** The two fitting paths of the controller *)

Lemma controller_paths (TL : list (string * list string)) (input_data : arr)
  (param : fit_param) (method : string) (pixel_bin raise_bg : Z)
  (comp_elastic_combine linear_bg use_snip : bool) (bin_energy : Z) (h h' : store_of)
  (result_map : list (string * list (list F))) (info : calculation_info) :
  single_pixel_fitting_controller TL input_data param method pixel_bin raise_bg
    comp_elastic_combine linear_bg use_snip bin_energy h = (Ok (result_map, info), h') ->
  exists e0 m0 built shown,
    construct_linear_model (energy_axis info) param (element_names param) = Ok (e0, m0) /\
    processed_matrix comp_elastic_combine linear_bg m0 = Ok built /\
    processed_names comp_elastic_combine linear_bg e0 = Ok (fit_name info) /\
    regression_mat info = mat_div built (pixel_count shown) /\
    shows h' (exp_data info) shown /\
    (method = "nnls"%string ->
     error_map info = None /\
     calculate_area TL (fit_name info) (regression_mat info) (results info) param false
     = Ok result_map) /\
    (method <> "nnls"%string ->
     exists fit_results em,
       rmap (fun '(n, row) =>
               fit_pixel_nonlinear_per_line (Z.of_nat n) row (energy_axis info) param
                 (mat_div (regression_mat info) (pixel_count shown)) use_snip)
            (enumerate shown) = Ok fit_results /\
       get_area_and_error_nonlinear_fit (fit_name info) fit_results
         (mat_div (regression_mat info) (pixel_count shown))
       = Ok (result_map, em, results info) /\
       error_map info = Some em).
Proof.
  unfold single_pixel_fitting_controller. intros E.
  apply sbind_ok in E. destruct E as ([[x ed0] rng] & h1 & E1 & E).
  apply get_cutted_spectrum_in3D_ok in E1.
  destruct E1 as (buf & Hb & -> & Hr & Hc & ->).
  set (c0 := view (window input_data) buf) in *.
  set (w := Some (slice_bounds (shape2 c0) rng.1 (rng.2 + 1))) in *.
  cbv zeta in E.
  apply sbind_ok in E. destruct E as ([e0 m0] & h1 & E1 & E).
  apply slift_ok in E1. destruct E1 as (Hclm & ->).
  apply sbind_ok in E. destruct E as ([e1 m1] & h1 & E1 & E).
  assert (Hm1 : (if comp_elastic_combine then combine_last_columns m0 else Ok m0) = Ok m1
                /\ (if comp_elastic_combine
                    then set_last (removelast e0) "comp_elastic"%string else Ok e0) = Ok e1
                /\ h1 = h ++ [c0]).
  { destruct comp_elastic_combine.
    - apply sbind_ok in E1. destruct E1 as (e' & h2 & E2 & E1).
      apply slift_ok in E2. destruct E2 as (He' & ->).
      apply sbind_ok in E1. destruct E1 as (m' & h2 & E2 & E1).
      apply slift_ok in E2. destruct E2 as (Hm' & ->).
      apply sret_ok in E1. destruct E1 as (E1 & ->). inversion E1. subst. now repeat split.
    - apply sret_ok in E1. destruct E1 as (E1 & ->). inversion E1. now repeat split. }
  clear E1. destruct Hm1 as (Hm1 & He1 & ->).
  set (built := if linear_bg then append_ones m1 else m1).
  set (e2 := if linear_bg then e1 ++ ["const_bkg"%string] else e1).
  assert (Hbuilt : processed_matrix comp_elastic_combine linear_bg m0 = Ok built).
  { unfold processed_matrix. now rewrite Hm1. }
  assert (Hnames : processed_names comp_elastic_combine linear_bg e0 = Ok e2).
  { unfold processed_names. now rewrite He1. }
  assert (Epair : (if linear_bg then (e1 ++ ["const_bkg"%string], append_ones m1) else (e1, m1))
                  = (e2, built)).
  { unfold built, e2. now destruct linear_bg. }
  rewrite Epair in E. clear Epair.
  apply sbind_ok in E. destruct E as (u & h2 & E2 & E).
  assert (Hs1 : exists c1, shows h2 (mk_arr (length h) w) c1).
  { unfold shows. destruct (0 <? raise_bg)%Z.
    - rewrite iadd_fresh in E2. inversion E2. subst h2. eexists. apply read_fresh.
    - apply sret_ok in E2. destruct E2 as (_ & ->). eexists. apply read_fresh. }
  clear E2. destruct Hs1 as (c1 & Hs1).
  apply sbind_ok in E. destruct E as (ed1 & h3 & E3 & E).
  assert (Hs2 : exists c2, shows h3 ed1 c2).
  { destruct ((pixel_bin =? 4)%Z || (pixel_bin =? 9)%Z).
    - eexists. exact (bin_data_spacial_ok _ _ _ _ _ _ Hs1 E3).
    - apply sret_ok in E3. destruct E3 as (-> & ->). now exists c1. }
  clear E3. destruct Hs2 as (c2 & Hs2).
  apply sbind_ok in E. destruct E as (ed2 & h4 & E4 & E).
  assert (Hs3 : exists shown, shows h4 ed2 shown).
  { destruct ((bin_energy =? 2)%Z || (bin_energy =? 3)%Z).
    - destruct (conv_expdata_energy_ok _ _ _ _ _ _ Hs2 E4) as (c' & _ & Hc'). now exists c'.
    - apply sret_ok in E4. destruct E4 as (-> & ->). now exists c2. }
  clear E4. destruct Hs3 as (shown & Hs3).
  apply sbind_ok in E. destruct E as (shown' & h5 & E5 & E).
  unfold shows in Hs3. rewrite Hs3 in E5. inversion E5. subst shown' h5. clear E5.
  exists e0, m0, built, shown.
  destruct (String.eqb method "nnls") eqn:Em.
  - apply String.eqb_eq in Em.
    apply sbind_ok in E. destruct E as (res & h5 & E5 & E).
    apply fit_pixel_multiprocess_nnls_ok in E5. destruct E5 as (-> & _).
    apply sbind_ok in E. destruct E as (rm & h5 & E5 & E).
    apply slift_ok in E5. destruct E5 as (Harea & ->).
    apply sret_ok in E. destruct E as (E & ->). inversion E. subst. cbn.
    do 5 (split; [first [assumption | reflexivity | exact Hs3]|]). split.
    + intros _. split; [reflexivity | assumption].
    + intros Hne. now contradiction Hne.
  - apply String.eqb_neq in Em.
    apply sbind_ok in E. destruct E as (res & h5 & E5 & E).
    unfold fit_pixel_multiprocess_nonlinear in E5.
    apply sbind_ok in E5. destruct E5 as (d & h6 & E6 & E5).
    rewrite Hs3 in E6. inversion E6. subst d h6.
    apply slift_ok in E5. destruct E5 as (Hfit & ->).
    apply sbind_ok in E. destruct E as ([[rm em] wm] & h5 & E5 & E).
    apply slift_ok in E5. destruct E5 as (Harea & ->).
    apply sret_ok in E. destruct E as (E & ->). inversion E. subst. cbn.
    do 5 (split; [first [assumption | reflexivity | exact Hs3]|]). split.
    + intros Hm. now contradiction Em.
    + intros _. exists res, em. split; [assumption|]. split; [assumption | reflexivity].
Qed.

(** X18: with a method other than 'nnls' the matrix the nonlinear fit of
    every row is run against, and the one the areas and errors are scaled
    with, is the regression matrix the controller reports divided once
    more by the number of pixels: the built matrix divided by the square
    of the pixel count, where the 'nnls' path fits against the reported
    matrix itself. *)
Theorem controller_nonlinear_matrix (TL : list (string * list string)) (input_data : arr)
  (param : fit_param) (method : string) (pixel_bin raise_bg : Z)
  (comp_elastic_combine linear_bg use_snip : bool) (bin_energy : Z) (h h' : store_of)
  (result_map : list (string * list (list F))) (info : calculation_info) :
  method <> "nnls"%string ->
  single_pixel_fitting_controller TL input_data param method pixel_bin raise_bg
    comp_elastic_combine linear_bg use_snip bin_energy h = (Ok (result_map, info), h') ->
  exists shown fit_results em,
    shows h' (exp_data info) shown /\
    rmap (fun '(n, row) =>
            fit_pixel_nonlinear_per_line (Z.of_nat n) row (energy_axis info) param
              (mat_div (regression_mat info) (pixel_count shown)) use_snip)
         (enumerate shown) = Ok fit_results /\
    get_area_and_error_nonlinear_fit (fit_name info) fit_results
      (mat_div (regression_mat info) (pixel_count shown))
    = Ok (result_map, em, results info) /\
    error_map info = Some em.
Proof.
  intros Hm E. apply controller_paths in E.
  destruct E as (e0 & m0 & built & shown & _ & _ & _ & _ & Hs & _ & Hnl).
  destruct (Hnl Hm) as (fr & em & H1 & H2 & H3).
  exists shown, fr, em. repeat split; assumption.
Qed.

(** X19: the columns of the regression matrix and the names of the
    components stay paired: when the model builder returns as many names
    as its matrix has columns, the matrix the controller reports has as
    many columns as [fit_name] has names, with or without the merged
    'comp_elastic' column and the 'const_bkg' column. *)
Theorem controller_columns_match_names (TL : list (string * list string)) (input_data : arr)
  (param : fit_param) (method : string) (pixel_bin raise_bg : Z)
  (comp_elastic_combine linear_bg use_snip : bool) (bin_energy : Z) (h h' : store_of)
  (result_map : list (string * list (list F))) (info : calculation_info) :
  (forall x p elist names m,
     construct_linear_model x p elist = Ok (names, m) -> ncols m = length names) ->
  single_pixel_fitting_controller TL input_data param method pixel_bin raise_bg
    comp_elastic_combine linear_bg use_snip bin_energy h = (Ok (result_map, info), h') ->
  ncols (regression_mat info) = length (fit_name info).
Proof.
  intros Hclm E. apply controller_paths in E.
  destruct E as (e0 & m0 & built & shown & Hc & Hb & Hn & Hreg & _).
  rewrite Hreg. cbn [mat_div ncols].
  exact (processed_lengths _ _ _ _ _ _ Hn Hb (Hclm _ _ _ _ _ Hc)).
Qed.

(** ** Further properties of the nonlinear fit *)

Lemma spectrum_fold_length (reg_mat : mat) (l : list (nat * F)) (acc s : list F) :
  rfold (fun acc '(i, a) =>
           try col <- mat_column reg_mat i;
           Ok (zip_with f_add acc (map (fun q => f_mul a q) col))) l acc = Ok s ->
  length acc = length (mrows reg_mat) -> length s = length (mrows reg_mat).
Proof.
  revert acc. induction l as [|[i a] l IH]; intros acc E Hacc.
  - cbn in E. inversion E. now subst.
  - cbn [rfold] in E. apply rbind_ok in E. destruct E as (acc' & E1 & E).
    apply rbind_ok in E1. destruct E1 as (col & Hcol & E1). inversion E1. subst acc'.
    apply (IH _ E). unfold mat_column in Hcol.
    destruct (i <? ncols reg_mat)%nat; inversion Hcol.
    rewrite length_zip_with, !List.length_map. lia.
Qed.

Lemma spectrum_fold_ok (reg_mat : mat) (l : list (nat * F)) (acc : list F) :
  Forall (fun p => (fst p < ncols reg_mat)%nat) l ->
  exists s, rfold (fun acc '(i, a) =>
                     try col <- mat_column reg_mat i;
                     Ok (zip_with f_add acc (map (fun q => f_mul a q) col))) l acc = Ok s.
Proof.
  intros Hl. revert acc. induction Hl as [|[i a] l Hi Hl IH]; intros acc.
  - eexists. reflexivity.
  - cbn [rfold]. unfold mat_column at 1. cbn [fst] in Hi.
    apply Nat.ltb_lt in Hi. rewrite Hi. cbn [rbind]. apply IH.
Qed.

Lemma combine_app_eq {A C : Type} (a1 a2 : list A) (b1 b2 : list C) :
  length a1 = length b1 -> combine (a1 ++ a2) (b1 ++ b2) = combine a1 b1 ++ combine a2 b2.
Proof.
  revert b1. induction a1 as [|x a1 IH]; intros [|y b1] Hl; try discriminate Hl.
  - reflexivity.
  - cbn. rewrite IH; [reflexivity | cbn in Hl; lia].
Qed.

Lemma enumerate_bound {A : Type} (l : list A) :
  Forall (fun p => (fst p < length l)%nat) (enumerate l).
Proof.
  apply Forall_forall. intros [i a] Hin. apply list_elem_of_lookup in Hin.
  destruct Hin as (n & Hn). apply enumerate_lookup_inv in Hn. destruct Hn as (-> & Hn).
  cbn [fst]. eapply lookup_lt_Some. exact Hn.
Qed.

(** X20: the model spectrum of [spectrum_nonlinear_fit] has one value for
    every row (channel) of the regression matrix when there is a
    parameter and there are no more parameters than columns; with more
    parameters than columns the function raises [IndexError]. *)
Theorem spectrum_nonlinear_fit_length (vals : list F) (reg_mat : mat) :
  ((0 < length vals <= ncols reg_mat)%nat ->
   exists s, spectrum_nonlinear_fit vals reg_mat = Ok s /\
             length s = length (mrows reg_mat)) /\
  ((ncols reg_mat < length vals)%nat ->
   spectrum_nonlinear_fit vals reg_mat = Raise IndexError).
Proof.
  unfold spectrum_nonlinear_fit. split.
  - intros [_ Hle].
    destruct (spectrum_fold_ok reg_mat (enumerate vals)
                (repeat f_zero (length (mrows reg_mat)))) as (s & Hs).
    { eapply Forall_impl; [apply enumerate_bound|]. intros p Hp. cbn beta in *. lia. }
    exists s. split; [exact Hs|].
    apply (spectrum_fold_length _ _ _ _ Hs). apply repeat_length.
  - intros Hlt.
    assert (Hsplit : enumerate vals
                     = enumerate (take (ncols reg_mat) vals)
                       ++ combine (seq (ncols reg_mat) (length vals - ncols reg_mat))
                            (drop (ncols reg_mat) vals)).
    { unfold enumerate. rewrite length_take.
      replace (ncols reg_mat `min` length vals)%nat with (ncols reg_mat) by lia.
      rewrite <- (take_drop (ncols reg_mat) vals) at 2.
      replace (length vals) with (ncols reg_mat + (length vals - ncols reg_mat))%nat at 1
        by lia.
      rewrite seq_app. apply combine_app_eq. rewrite length_seq, length_take. lia. }
    rewrite Hsplit.
    destruct (spectrum_fold_ok reg_mat (enumerate (take (ncols reg_mat) vals))
                (repeat f_zero (length (mrows reg_mat)))) as (s & Hs).
    { eapply Forall_impl; [apply enumerate_bound|]. intros p Hp. cbn beta in *.
      rewrite length_take in Hp. lia. }
    assert (Hfold : forall (f : list F -> nat * F -> result (list F)) l1 l2 a b,
               rfold f l1 a = Ok b -> rfold f (l1 ++ l2) a = rfold f l2 b).
    { clear. intros f l1. induction l1 as [|x l1 IH]; intros l2 a b E.
      - cbn in E. inversion E. reflexivity.
      - cbn [rfold app] in *. destruct (f a x) as [a'|e]; [|discriminate E]. cbn [rbind] in *.
        now apply IH. }
    rewrite (Hfold _ _ _ _ _ Hs).
    destruct (drop (ncols reg_mat) vals) as [|v rest] eqn:Ed.
    { apply (f_equal length) in Ed. rewrite length_drop in Ed. cbn in Ed. lia. }
    destruct (length vals - ncols reg_mat)%nat as [|k] eqn:Ek; [lia|].
    cbn [seq combine rfold]. unfold mat_column at 1.
    now rewrite Nat.ltb_irrefl.
Qed.

(** ** Further properties of get_area_and_error_nonlinear_fit *)

Lemma rmap_keys {A : Type} (f : nat * string -> result (string * A))
  (keyed : list (nat * string)) (out : list (string * A)) :
  (forall p e, f p = Ok e -> fst e = snd p) ->
  rmap f keyed = Ok out -> map fst out = map snd keyed.
Proof.
  intros Hf E. apply rmap_Forall2 in E.
  induction E as [|p e keyed out Hp E IH]; [reflexivity|].
  cbn [map]. now rewrite (Hf p e Hp), IH.
Qed.

Lemma enumerate_snd {A : Type} (l : list A) : map snd (enumerate l) = l.
Proof.
  unfold enumerate. generalize 0%nat. induction l as [|x l IH]; intros k; [reflexivity|].
  cbn. now rewrite IH.
Qed.

(** X21: [get_area_and_error_nonlinear_fit] raises [IndexError] when
    there is no row of fit results.  When it returns, the area map has
    the keys of the component names, each once and in order of first
    appearance, followed by 'snip_bg' (unless that is a component name);
    the error map has the keys of the component names; and the weights
    have a row for every row of fit results. *)
Theorem get_area_and_error_keys (elist : list string) (fit_results : list (list pixel_fit))
  (reg_mat : mat) :
  (fit_results = [] ->
   get_area_and_error_nonlinear_fit elist fit_results reg_mat = Raise IndexError) /\
  (forall area_dict error_dict weights_mat,
     get_area_and_error_nonlinear_fit elist fit_results reg_mat
     = Ok (area_dict, error_dict, weights_mat) ->
     map fst area_dict = ordered_keys (elist ++ ["snip_bg"%string]) /\
     map fst error_dict = ordered_keys elist /\
     length weights_mat = length fit_results).
Proof.
  split; [intros ->; reflexivity|].
  intros area_dict error_dict weights_mat E.
  unfold get_area_and_error_nonlinear_fit in E. cbv zeta in E.
  destruct fit_results as [|row0 rest]; [discriminate E|].
  apply rbind_ok in E. destruct E as (cells & Hcells & E).
  apply rbind_ok in E. destruct E as (ad & Had & E).
  apply rbind_ok in E. destruct E as (ed & Hed & E).
  inversion E. subst area_dict error_dict weights_mat. clear E.
  split; [|split].
  - erewrite rmap_keys; [apply enumerate_snd | | exact Had].
    intros [i v] e He. cbn [snd]. destruct (String.eqb v "snip_bg").
    + inversion He. reflexivity.
    + apply rbind_ok in He. destruct He as (s & _ & He). inversion He. reflexivity.
  - erewrite rmap_keys; [apply enumerate_snd | | exact Hed].
    intros [i v] e He. cbn [snd]. destruct (String.eqb v "snip_bg").
    + inversion He. reflexivity.
    + apply rbind_ok in He. destruct He as (s & _ & He). inversion He. reflexivity.
  - rewrite List.length_map. now apply rmap_length in Hcells.
Qed.

(** ** Further properties of bin_data_energy3D *)

Lemma shows_app (h ext : store_of) (a : arr) (c : list (list (list F))) :
  shows h a c -> shows (h ++ ext) a c.
Proof.
  intros Hs. apply read_ok in Hs. destruct Hs as (_ & buf & Hb & ->).
  unfold shows, read, sbind.
  rewrite (UtilsFacts.load_some (h ++ ext) (base a) buf); [reflexivity|].
  now apply lookup_app_l_Some.
Qed.

Lemma every_nth_lookup (step : nat) (s : list F) :
  (0 < step)%nat ->
  forall wait k, every_nth step wait s !! k = s !! (wait + k * step)%nat.
Proof.
  intros Hs. induction s as [|q s IH]; intros wait k; [reflexivity|].
  cbn [every_nth]. destruct wait as [|w].
  - destruct k as [|k]; [reflexivity|].
    replace (0 + S k * step)%nat with (S (step - 1 + k * step)) by lia.
    cbn [lookup list_lookup]. apply IH.
  - cbn [Nat.add lookup list_lookup]. apply IH.
Qed.

Lemma take_strided_lookup (nchan step t k : nat) (s : list F) :
  (0 < step)%nat -> (t < step)%nat -> length s = nchan -> (k < nchan / step)%nat ->
  (t + k * step < nchan)%nat /\
  take (nchan / step) (strided t step s) !! k = s !! (t + k * step)%nat.
Proof.
  intros Hs Ht Hlen Hk. split.
  - pose proof (Nat.Div0.mul_div_le nchan step). nia.
  - rewrite lookup_take_lt by exact Hk. now apply every_nth_lookup.
Qed.

Lemma take_strided_length (nchan step t : nat) (s : list F) :
  (0 < step)%nat -> (t < step)%nat -> length s = nchan ->
  length (take (nchan / step) (strided t step s)) = (nchan / step)%nat.
Proof.
  intros Hs Ht Hlen. rewrite length_take. apply Nat.min_l.
  destruct (nchan / step)%nat as [|n] eqn:E; [lia|].
  assert (Hn : (t + n * step < nchan)%nat).
  { pose proof (Nat.Div0.mul_div_le nchan step). nia. }
  assert (Hsome : is_Some (strided t step s !! n)).
  { unfold strided. rewrite every_nth_lookup by exact Hs.
    apply lookup_lt_is_Some. lia. }
  apply lookup_lt_is_Some in Hsome. lia.
Qed.

Lemma vadd_lookup (a b : list F) (k : nat) (x y : F) :
  a !! k = Some x -> b !! k = Some y -> vadd a b !! k = Some (f_add x y).
Proof. intros Ha Hb. unfold vadd. rewrite lookup_zip_with, Ha, Hb. reflexivity. Qed.

Lemma vadd_length (a b : list F) (n : nat) :
  length a = n -> length b = n -> length (vadd a b) = n.
Proof. intros Ha Hb. unfold vadd. rewrite length_zip_with. lia. Qed.

Lemma vdiv_lookup (s : list F) (d : Z) (k : nat) (x : F) :
  s !! k = Some x -> vdiv s d !! k = Some (f_div x (f_of_Z d)).
Proof. intros Hs. unfold vdiv. rewrite list_lookup_fmap, Hs. reflexivity. Qed.

Lemma vdiv_length (s : list F) (d : Z) : length (vdiv s d) = length s.
Proof. unfold vdiv. apply length_map. Qed.

(** X23: with step 1 [bin_data_energy3D] returns its argument, the same
    array and not a copy, and leaves the store as it is.  With step 2, 3
    or 4 it returns a new array that shows every pixel's spectrum binned,
    and the caller's array shows what it showed.  With any other step it
    returns [None] without raising. *)
Theorem bin_data_energy3D_result (h : store_of) (a : arr) (c : list (list (list F)))
  (bin_step : Z) (sum_data : bool) :
  shows h a c ->
  (bin_step = 1%Z -> bin_data_energy3D a bin_step sum_data h = (Ok (Some a), h)) /\
  ((2 <= bin_step <= 4)%Z ->
   exists a' h',
     bin_data_energy3D a bin_step sum_data h = (Ok (Some a'), h') /\
     (length h <= base a')%nat /\
     shows h' a c /\
     shows h' a' (map (map (bin_channels bin_step sum_data (shape2 c))) c)) /\
  ((bin_step < 1 \/ 4 < bin_step)%Z ->
   exists h', bin_data_energy3D a bin_step sum_data h = (Ok None, h') /\ shows h' a c).
Proof.
  intros Hs. split; [|split].
  - intros ->. reflexivity.
  - intros Hb. unfold bin_data_energy3D.
    destruct (bin_step =? 1)%Z eqn:E1; [apply Z.eqb_eq in E1; lia|].
    unfold np_array, sbind at 1 2. rewrite Hs. unfold alloc at 1, sret at 1.
    unfold sbind. rewrite read_fresh, view_none.
    assert (E : ((bin_step =? 2) || (bin_step =? 3) || (bin_step =? 4))%Z = true).
    { destruct (Z.eqb_spec bin_step 2), (Z.eqb_spec bin_step 3), (Z.eqb_spec bin_step 4);
        try reflexivity. lia. }
    rewrite E. unfold alloc, sret.
    eexists _, _. split; [reflexivity|]. cbn [base]. rewrite length_app. cbn [length].
    split; [lia|]. split.
    + rewrite <- app_assoc. now apply shows_app.
    + replace (length h + 1)%nat with (length (h ++ [c])) by (rewrite length_app; reflexivity).
      apply shows_fresh.
  - intros Hb. unfold bin_data_energy3D.
    destruct (bin_step =? 1)%Z eqn:E1; [apply Z.eqb_eq in E1; lia|].
    unfold np_array, sbind at 1 2. rewrite Hs. unfold alloc at 1, sret at 1.
    unfold sbind. rewrite read_fresh, view_none.
    assert (E : ((bin_step =? 2) || (bin_step =? 3) || (bin_step =? 4))%Z = false).
    { destruct (Z.eqb_spec bin_step 2), (Z.eqb_spec bin_step 3), (Z.eqb_spec bin_step 4);
        try reflexivity; lia. }
    rewrite E. unfold sret. eexists. split; [reflexivity|]. now apply shows_app.
Qed.

(** X24: for a spectrum of [nchan] channels and a step of 2, 3 or 4, the
    binned spectrum of [bin_data_energy3D] has [nchan div step]
    channels, the channels left over at the end being dropped; without
    [sum_data] its channel [k] is the channel [step * k] of the input. *)
Theorem bin_channels_picks (bin_step : Z) (sum_data : bool) (nchan : nat) (s : list F) :
  (2 <= bin_step <= 4)%Z -> length s = nchan ->
  length (bin_channels bin_step sum_data nchan s) = (nchan / Z.to_nat bin_step)%nat /\
  (sum_data = false ->
   forall k, (k < nchan / Z.to_nat bin_step)%nat ->
             bin_channels bin_step false nchan s !! k = s !! (Z.to_nat bin_step * k)%nat).
Proof.
  intros Hb Hlen.
  assert (Hcase : bin_step = 2%Z \/ bin_step = 3%Z \/ bin_step = 4%Z) by lia.
  destruct Hcase as [-> | [-> | ->]]; unfold bin_channels; cbn [Z.eqb Pos.eqb]; cbv zeta;
    change (Z.to_nat 2) with 2%nat; change (Z.to_nat 3) with 3%nat;
    change (Z.to_nat 4) with 4%nat.
  all: split;
    [ destruct sum_data;
      [ rewrite vdiv_length;
        repeat (apply vadd_length); apply take_strided_length; (lia || exact Hlen)
      | apply take_strided_length; (lia || exact Hlen) ]
    | intros _ k Hk;
      match goal with
      | |- take (?n / ?st) _ !! _ = _ =>
          destruct (take_strided_lookup n st 0 k s ltac:(lia) ltac:(lia) Hlen Hk)
            as (_ & ->)
      end;
      f_equal; lia ].
Qed.

End Controller.

Lemma controller_nnls_fits_each_pixel_witness :
  exists info buf,
    [toy_cube] !! base toy_input = Some buf /\
    Forall2
      (Forall2 (fun spectrum fitted =>
                  toy_fit
                    (raised_spectrum 0
                       (cut_spectrum (shape2 (view (window toy_input) buf))
                          (fit_range info) spectrum))
                    (regression_mat info) toy_param true = Ok fitted))
      (view (window toy_input) buf) (results info).
Proof.
  eexists.
  eapply (controller_nnls_fits_each_pixel toy_lookup toy_input toy_param 0 0
            false false true 1 [toy_cube] _ _ _ toy_fit).
  - intros n row matv p s. reflexivity.
  - discriminate.
  - discriminate.
  - discriminate.
  - discriminate.
  - vm_compute. reflexivity.
Defined.

Lemma controller_divides_by_pixel_count_witness :
  exists info buf e0 m0 built,
    [toy_cube] !! base toy_input = Some buf /\
    construct_linear_model (energy_axis info) toy_param (element_names toy_param)
    = Ok (e0, m0) /\
    processed_matrix false false m0 = Ok built /\
    regression_mat info
    = mat_div built
        (Z.of_nat (shape0 (view (window toy_input) buf) / bin_side 9) *
         Z.of_nat (shape1 (view (window toy_input) buf) / bin_side 9))%Z.
Proof.
  eexists.
  eapply (controller_divides_by_pixel_count toy_lookup toy_input toy_param "nnls" 9 0
            false false true 1 [toy_cube]).
  vm_compute. reflexivity.
Defined.

(** C2, as claimed, fails: on a cube of 4 by 6 pixels with 2 by 2 binning
    the controller divides the regression matrix by 6, the number of
    binned pixels, and not by 4, the number of pixels in a block. *)
Lemma controller_divisor_counterexample :
  exists result_map info h' e0 built,
    single_pixel_fitting_controller toy_lookup toy_input toy_param "nnls" 4 0
      false false true 1 [toy_cube] = (Ok (result_map, info), h') /\
    construct_linear_model (energy_axis info) toy_param (element_names toy_param)
    = Ok (e0, built) /\
    regression_mat info = mat_div built 6 /\
    regression_mat info <> mat_div built (2 * 2).
Proof.
  eexists _, _, _, _, _. split; [vm_compute; reflexivity|].
  split; [vm_compute; reflexivity|].
  split; [vm_compute; reflexivity|].
  intros E. vm_compute in E. discriminate E.
Qed.

Lemma bin_data_spacial_result_witness :
  ((2 <= 1)%Z -> bin_data_spacial toy_input 2 [toy_cube] = (Ok toy_input, [toy_cube])) /\
  ((1 < 2)%Z ->
   exists binned,
     bin_data_spacial toy_input 2 [toy_cube]
     = (Ok (mk_arr (length [toy_cube]) None), [toy_cube] ++ [binned]) /\
     length binned = (shape0 toy_cube / Z.to_nat 2)%nat /\
     Forall (fun r => length r = (shape1 toy_cube / Z.to_nat 2)%nat) binned /\
     channels_are (shape2 toy_cube) binned).
Proof.
  apply (bin_data_spacial_result [toy_cube] toy_input toy_cube 2).
  - reflexivity.
  - unfold channels_are, toy_cube. repeat constructor.
Defined.

(** ** Counts under binning *)

Lemma Qsum_cons (x : Q) (l : list Q) : Utils.Qsum (x :: l) = x + Utils.Qsum l.
Proof. reflexivity. Qed.

Lemma Qsum_vadd (a b : list Q) :
  length a = length b -> Utils.Qsum (vadd a b) == Utils.Qsum a + Utils.Qsum b.
Proof.
  revert b. induction a as [|x a IH]; intros [|y b] Hl; try discriminate Hl.
  - reflexivity.
  - change (vadd (x :: a) (y :: b)) with ((x + y) :: vadd a b).
    rewrite !Qsum_cons. rewrite IH by (cbn in Hl; lia). ring.
Qed.

Lemma Qsum_app (a b : list Q) : Utils.Qsum (a ++ b) == Utils.Qsum a + Utils.Qsum b.
Proof.
  induction a as [|x a IH].
  - change ([] ++ b) with b. change (Utils.Qsum []) with 0. ring.
  - change ((x :: a) ++ b) with (x :: (a ++ b)). rewrite !Qsum_cons, IH. ring.
Qed.

Lemma Qsum_zeros (n : nat) : Utils.Qsum (repeat (f_zero (F := Q)) n) == 0.
Proof.
  induction n as [|n IH]; [reflexivity|].
  change (repeat (f_zero (F := Q)) (S n)) with (0 :: repeat (f_zero (F := Q)) n).
  rewrite Qsum_cons, IH. ring.
Qed.

Lemma Qsum_fold_vadd (nchan : nat) (l : list (list Q)) (acc : list Q) :
  Forall (fun s => length s = nchan) l -> length acc = nchan ->
  Utils.Qsum (fold_left vadd l acc) == Utils.Qsum acc + Utils.Qsum (concat l).
Proof.
  intros Hl. revert acc. induction Hl as [|s l Hs Hl IH]; intros acc Hacc.
  - cbn [fold_left concat]. change (Utils.Qsum []) with 0. ring.
  - cbn [fold_left concat]. rewrite IH by (unfold vadd; rewrite length_zip_with; lia).
    rewrite Qsum_vadd by lia. rewrite Qsum_app. ring.
Qed.

(** X9: binning keeps the counts.  In exact arithmetic the counts of a
    binned pixel, summed over its channels, are the counts of all the
    pixels of its block. *)
Theorem bin_blocks_keeps_counts (c : cube (F := Q)) (bs i j : nat) (r : list (list Q))
  (spectrum : list Q) :
  channels_are (shape2 c) c ->
  bin_blocks c bs !! i = Some r -> r !! j = Some spectrum ->
  Utils.Qsum spectrum == Utils.Qsum (concat (block_spectra c bs i j)).
Proof.
  intros Hc Hi Hj. unfold bin_blocks in Hi. cbv zeta in Hi.
  apply list_lookup_fmap_Some in Hi. destruct Hi as (i' & -> & Hi).
  apply lookup_seq in Hi. destruct Hi as (-> & Hi). cbn [plus] in Hj.
  apply list_lookup_fmap_Some in Hj. destruct Hj as (j' & -> & Hj).
  apply lookup_seq in Hj. destruct Hj as (-> & Hj). cbn [plus].
  unfold sum_spectra.
  rewrite (Qsum_fold_vadd (shape2 c));
    [| now apply block_spectra_channels | apply repeat_length].
  rewrite Qsum_zeros. ring.
Qed.

Lemma bin_blocks_keeps_counts_witness :
  Utils.Qsum [4; 8] == Utils.Qsum (concat (block_spectra toy_cube 2 1 2)).
Proof.
  apply (bin_blocks_keeps_counts toy_cube 2 1 2 [[4; 8]; [4; 8]; [4; 8]] [4; 8]).
  - unfold channels_are, toy_cube. repeat constructor.
  - reflexivity.
  - reflexivity.
Defined.

Lemma conv_expdata_energy_unbound_witness :
  conv_expdata_energy toy_input 4 [toy_cube] = (Raise UnboundLocalError, [toy_cube] ++ [toy_cube]).
Proof.
  apply (conv_expdata_energy_unbound [toy_cube] toy_input toy_cube 4).
  - reflexivity.
  - discriminate.
  - discriminate.
  - discriminate.
Defined.

Lemma conv_expdata_energy_layout_witness :
  exists a' h',
    conv_expdata_energy toy_input 2 [toy_cube] = (Ok a', h') /\
    a' = mk_arr (length [toy_cube]) None /\
    exists c', h' = [toy_cube] ++ [c'] /\
               Forall2 (Forall2 (fun s s' => length s' = length s)) toy_cube c'.
Proof.
  assert (E : exists r, conv_expdata_energy toy_input 2 [toy_cube] = (Ok (fst r), snd r))
    by (eexists (_, _); vm_compute; reflexivity).
  destruct E as ([a' h'] & E). exists a', h'. split; [exact E|].
  apply (conv_expdata_energy_layout [toy_cube] h' toy_input a' toy_cube 2);
    [reflexivity | exact E].
Defined.

Lemma empty_cube_IndexError_witness :
  get_cutted_spectrum_in3D toy_input 0 1 0 1 [[]] = (Raise IndexError, [[]] ++ [[]]) /\
  single_pixel_fitting_controller toy_lookup toy_input toy_param "nnls" 0 0
    false false true 1 [[]] = (Raise IndexError, [[]] ++ [[]]).
Proof.
  apply (empty_cube_IndexError toy_lookup [[]] toy_input []).
  - reflexivity.
  - left. reflexivity.
Defined.

Lemma get_cutted_spectrum_in3D_window_witness :
  exists x a' h',
    get_cutted_spectrum_in3D toy_input 0 1 0 1 [toy_cube] = (Ok (x, a', (0, 1)%Z), h') /\
    h' = [toy_cube] ++ [toy_cube] /\
    shows h' a'
      (map (map (fun s => take (Z.to_nat (1 - 0 + 1)) (drop (Z.to_nat 0) s))) toy_cube).
Proof.
  assert (E : exists r, get_cutted_spectrum_in3D toy_input 0 1 0 1 [toy_cube]
                        = (Ok (fst (fst r), snd (fst r), (0, 1)%Z), snd r))
    by (eexists (_, _, _); vm_compute; reflexivity).
  destruct E as ([[x a'] h'] & E). exists x, a', h'. split; [exact E|].
  apply (get_cutted_spectrum_in3D_window [toy_cube] h' toy_input a' toy_cube 0 1 0 1 x 0 1);
    [reflexivity | exact E | lia | lia | vm_compute; reflexivity].
Defined.

Lemma Forall2_map_r' {A C C' : Type} (g : C -> C') (P : A -> C' -> Prop) (l : list A)
  (r : list C) :
  Forall2 (fun a c => P a (g c)) l r -> Forall2 P l (map g r).
Proof. induction 1; cbn [map]; constructor; assumption. Qed.

(** ** Witnesses on the stand-in libraries *)

Lemma calculate_area_entries_witness :
  exists result_map,
    calculate_area toy_lookup ["Fe_K"; "compton"; "elastic"]%string
      (mk_mat 3 [[1; 1; 1]; [2; 2; 2]]) [[[12; 12; 12; 0; 0]]] toy_param true
    = Ok result_map /\
    (exists bkg r2,
       component [[[12; 12; 12; 0; 0]]] (-2) = Ok bkg /\
       component [[[12; 12; 12; 0; 0]]] (-1) = Ok r2 /\
       dict_get "snip_bkg" result_map = Some bkg /\
       dict_get "r_squared" result_map = Some r2) /\
    (List.NoDup ["Fe_K"; "compton"; "elastic"]%string ->
     forall i name,
       ["Fe_K"; "compton"; "elastic"]%string !! i = Some name ->
       name <> "snip_bkg"%string -> name <> "r_squared"%string ->
       exists r s,
         component [[[12; 12; 12; 0; 0]]] (Z.of_nat i) = Ok r /\
         col_sums (mk_mat 3 [[1; 1; 1]; [2; 2; 2]]) !! i = Some s /\
         (true = false -> dict_get name result_map = Some (scale_map r s)) /\
         (true = true ->
          exists ratio_v,
            (if existsb (String.eqb name) ELEMENT_LINES
             then get_branching_ratio toy_lookup name (coherent_sct_energy toy_param)
             else Ok (f_of_Z 1)) = Ok ratio_v /\
            dict_get name result_map = Some (scale_map (scale_map r s) ratio_v))).
Proof.
  assert (E : exists result_map,
             calculate_area toy_lookup ["Fe_K"; "compton"; "elastic"]%string
               (mk_mat 3 [[1; 1; 1]; [2; 2; 2]]) [[[12; 12; 12; 0; 0]]] toy_param true
             = Ok result_map) by (eexists; vm_compute; reflexivity).
  destruct E as (result_map & E). exists result_map. split; [exact E|].
  apply (calculate_area_entries toy_lookup ["Fe_K"; "compton"; "elastic"]%string
           (mk_mat 3 [[1; 1; 1]; [2; 2; 2]]) [[[12; 12; 12; 0; 0]]] toy_param true
           result_map E).
Defined.

Lemma get_branching_ratio_series_case_witness :
  get_branching_ratio toy_lookup ("Mg" ++ String "_" "k") 12
  = get_branching_ratio toy_lookup ("Mg" ++ String "_" (upper "k")) 12.
Proof.
  apply (get_branching_ratio_series_case toy_lookup "Mg" "k" 12).
  - unfold no_underscore. cbn. intros [E | [E | []]]; discriminate E.
  - unfold no_underscore. cbn. intros [E | []]; discriminate E.
Defined.

Lemma get_branching_ratio_errors_witness :
  (length (split "_" "Si_K-Si_K") <> 2%nat ->
   exists msg, get_branching_ratio toy_lookup "Si_K-Si_K" 12 = Raise (ValueError msg)) /\
  (forall name line e,
     split "_" "Si_K-Si_K" = [name; line] -> Element name = Ok e ->
     dict_get (upper line) toy_lookup = None ->
     get_branching_ratio toy_lookup "Si_K-Si_K" 12 = Raise (KeyError (upper line))).
Proof. apply (get_branching_ratio_errors toy_lookup "Si_K-Si_K" 12). Defined.

Lemma fit_pixel_multiprocess_nnls_rows_witness :
  (forall res h',
     fit_pixel_multiprocess_nnls toy_input (mk_mat 1 [[1]; [1]]) toy_param true [toy_cube]
     = (Ok res, h') ->
     h' = [toy_cube] /\ length res = length toy_cube /\
     forall n row, toy_cube !! n = Some row ->
       exists fitted, res !! n = Some fitted /\
                      fit_per_line_nnls (Z.of_nat n) row (mk_mat 1 [[1]; [1]]) toy_param true
                      = Ok fitted) /\
  (forall k row e,
     toy_cube !! k = Some row ->
     fit_per_line_nnls (Z.of_nat k) row (mk_mat 1 [[1]; [1]]) toy_param true = Raise e ->
     (forall j row', (j < k)%nat -> toy_cube !! j = Some row' ->
        exists fitted,
          fit_per_line_nnls (Z.of_nat j) row' (mk_mat 1 [[1]; [1]]) toy_param true = Ok fitted) ->
     fit_pixel_multiprocess_nnls toy_input (mk_mat 1 [[1]; [1]]) toy_param true [toy_cube]
     = (Raise e, [toy_cube])).
Proof.
  apply (fit_pixel_multiprocess_nnls_rows toy_input (mk_mat 1 [[1]; [1]]) toy_param true
           [toy_cube] toy_cube).
  reflexivity.
Defined.

Lemma controller_nonlinear_matrix_witness :
  exists result_map info h' shown fit_results em,
    single_pixel_fitting_controller toy_lookup toy_input toy_param "nonlinear" 0 0
      false false true 1 [toy_cube] = (Ok (result_map, info), h') /\
    shows h' (exp_data info) shown /\
    rmap (fun '(n, row) =>
            fit_pixel_nonlinear_per_line (Z.of_nat n) row (energy_axis info) toy_param
              (mat_div (regression_mat info) (pixel_count shown)) true)
         (enumerate shown) = Ok fit_results /\
    get_area_and_error_nonlinear_fit (fit_name info) fit_results
      (mat_div (regression_mat info) (pixel_count shown))
    = Ok (result_map, em, results info) /\
    error_map info = Some em.
Proof.
  assert (E : exists r, single_pixel_fitting_controller toy_lookup toy_input toy_param
                          "nonlinear" 0 0 false false true 1 [toy_cube]
                        = (Ok (fst (fst r), snd (fst r)), snd r))
    by (eexists (_, _, _); vm_compute; reflexivity).
  destruct E as ([[rm info] h'] & E). cbn [fst snd] in E.
  destruct (controller_nonlinear_matrix toy_lookup toy_input toy_param "nonlinear" 0 0
              false false true 1 [toy_cube] h' rm info ltac:(discriminate) E)
    as (shown & fr & em & H).
  exists rm, info, h', shown, fr, em. split; [exact E | exact H].
Defined.

Lemma controller_columns_match_names_witness :
  exists result_map info h',
    single_pixel_fitting_controller toy_lookup toy_input toy_param "nnls" 0 0
      true true true 1 [toy_cube] = (Ok (result_map, info), h') /\
    ncols (regression_mat info) = length (fit_name info).
Proof.
  assert (E : exists r, single_pixel_fitting_controller toy_lookup toy_input toy_param
                          "nnls" 0 0 true true true 1 [toy_cube]
                        = (Ok (fst (fst r), snd (fst r)), snd r))
    by (eexists (_, _, _); vm_compute; reflexivity).
  destruct E as ([[rm info] h'] & E). cbn [fst snd] in E.
  exists rm, info, h'. split; [exact E|].
  apply (controller_columns_match_names toy_lookup toy_input toy_param "nnls" 0 0
           true true true 1 [toy_cube] h' rm info); [|exact E].
  intros x p elist names m Hc. cbn in Hc. inversion Hc. cbn [ncols].
  now rewrite length_app.
Defined.

Lemma spectrum_nonlinear_fit_length_witness :
  (exists s, spectrum_nonlinear_fit [2; 3] (mk_mat 2 [[1; 1]; [1; 0]; [0; 1]]) = Ok s /\
             length s = length (mrows (mk_mat 2 [[1; 1]; [1; 0]; [0; 1]]))) /\
  spectrum_nonlinear_fit [2; 3; 4] (mk_mat 2 [[1; 1]; [1; 0]; [0; 1]]) = Raise IndexError.
Proof.
  split.
  - apply (spectrum_nonlinear_fit_length [2; 3] (mk_mat 2 [[1; 1]; [1; 0]; [0; 1]])).
    cbn. lia.
  - apply (spectrum_nonlinear_fit_length [2; 3; 4] (mk_mat 2 [[1; 1]; [1; 0]; [0; 1]])).
    cbn. lia.
Defined.

Lemma get_area_and_error_keys_witness :
  get_area_and_error_nonlinear_fit ["Fe_K"; "Cu_K"]%string
    (@nil (list (pixel_fit (F := Q)))) (mk_mat 2 [[1; 2]; [3; 4]]) = Raise IndexError /\
  exists area_dict error_dict weights_mat,
    get_area_and_error_nonlinear_fit ["Fe_K"; "Cu_K"]%string
      [[mk_pixel_fit [5; 6] [1; 2] 7; mk_pixel_fit [8; 9] [3; 4] 0]]
      (mk_mat 2 [[1; 2]; [3; 4]])
    = Ok (area_dict, error_dict, weights_mat) /\
    map fst area_dict = ordered_keys (["Fe_K"; "Cu_K"]%string ++ ["snip_bg"%string]) /\
    map fst error_dict = ordered_keys ["Fe_K"; "Cu_K"]%string /\
    length weights_mat
    = length [[mk_pixel_fit (F := Q) [5; 6] [1; 2] 7; mk_pixel_fit [8; 9] [3; 4] 0]].
Proof.
  split.
  - apply (get_area_and_error_keys ["Fe_K"; "Cu_K"]%string [] (mk_mat 2 [[1; 2]; [3; 4]])).
    reflexivity.
  - assert (E : exists r,
               get_area_and_error_nonlinear_fit ["Fe_K"; "Cu_K"]%string
                 [[mk_pixel_fit [5; 6] [1; 2] 7; mk_pixel_fit [8; 9] [3; 4] 0]]
                 (mk_mat 2 [[1; 2]; [3; 4]])
               = Ok (fst (fst r), snd (fst r), snd r))
      by (eexists (_, _, _); vm_compute; reflexivity).
    destruct E as ([[ad ed] wm] & E). cbn [fst snd] in E.
    exists ad, ed, wm. split; [exact E|].
    apply (proj2 (get_area_and_error_keys ["Fe_K"; "Cu_K"]%string
                    [[mk_pixel_fit [5; 6] [1; 2] 7; mk_pixel_fit [8; 9] [3; 4] 0]]
                    (mk_mat 2 [[1; 2]; [3; 4]])) ad ed wm E).
Defined.

(** ** The merged column *)

Lemma two_last {A : Type} (r : list A) :
  (2 <= length r)%nat -> exists p a b, r = p ++ [a; b] /\ length p = (length r - 2)%nat.
Proof.
  intros Hl. exists (take (length r - 2) r).
  destruct (drop (length r - 2) r) as [|a [|b [|c l]]] eqn:Ed;
    apply (f_equal length) in Ed as El; rewrite length_drop in El; cbn in El; try lia.
  exists a, b. split; [|rewrite length_take; lia].
  rewrite <- Ed. symmetry. apply take_drop.
Qed.

(** X22: merging the elastic and the Compton column keeps the total of
    every row: in exact arithmetic a row of the merged matrix sums to
    what the row summed to before, and the merged matrix has one column
    less. *)
Theorem combine_last_columns_keeps_row_sums (matv : mat (F := Q)) :
  (2 <= ncols matv)%nat -> Forall (fun r => length r = ncols matv) (mrows matv) ->
  exists merged,
    combine_last_columns matv = Ok merged /\
    ncols merged = (ncols matv - 1)%nat /\
    Forall (fun r => length r = ncols merged) (mrows merged) /\
    Forall2 (fun r r' => Utils.Qsum r' == Utils.Qsum r) (mrows matv) (mrows merged).
Proof.
  intros Hn Hrows. unfold combine_last_columns.
  assert (E : (ncols matv <=? 1)%nat = false) by (apply Nat.leb_gt; lia).
  rewrite E. eexists. split; [reflexivity|]. cbn [ncols mrows]. split; [reflexivity|].
  assert (Hrow : forall r, length r = ncols matv ->
            length (<[(ncols matv - 2)%nat :=
                      f_add (nth (ncols matv - 2) r f_zero) (nth (ncols matv - 1) r f_zero)]>
                      (take (ncols matv - 1) r)) = (ncols matv - 1)%nat /\
            Utils.Qsum (<[(ncols matv - 2)%nat :=
                      f_add (nth (ncols matv - 2) r f_zero) (nth (ncols matv - 1) r f_zero)]>
                      (take (ncols matv - 1) r)) == Utils.Qsum r).
  { intros r Hr. destruct (two_last r ltac:(lia)) as (p & a & b & -> & Hp).
    rewrite Hr in Hp.
    assert (Hn2 : (ncols matv - 2)%nat = length p) by lia.
    assert (Hn1 : (ncols matv - 1)%nat = (length p + 1)%nat) by lia.
    rewrite Hn2, Hn1.
    rewrite (nth_middle p [b] a f_zero).
    replace (p ++ [a; b]) with ((p ++ [a]) ++ [b]) by (now rewrite <- app_assoc).
    replace (length p + 1)%nat with (length (p ++ [a])) by (rewrite length_app; cbn; lia).
    rewrite (nth_middle (p ++ [a]) [] b f_zero).
    rewrite take_app_length.
    rewrite !insert_app_r_alt by lia. rewrite Nat.sub_diag.
    change (<[0%nat := f_add a b]> [a]) with [a + b].
    split; [rewrite !length_app; cbn; lia|].
    rewrite !Qsum_app, !Qsum_cons. change (Utils.Qsum []) with 0. ring. }
  split.
  - apply List.Forall_map. eapply Forall_impl; [exact Hrows|].
    intros r Hr. cbn beta. exact (proj1 (Hrow r Hr)).
  - apply Forall2_map_r'. induction Hrows as [|r rows Hr Hrows IH]; constructor.
    + exact (proj2 (Hrow r Hr)).
    + exact IH.
Qed.

Lemma combine_last_columns_keeps_row_sums_witness :
  exists merged,
    combine_last_columns (mk_mat 3 [[1; 2; 3]; [4; 5; 6]]) = Ok merged /\
    ncols merged = (ncols (mk_mat 3 [[1; 2; 3]; [4; 5; 6]]) - 1)%nat /\
    Forall (fun r => length r = ncols merged) (mrows merged) /\
    Forall2 (fun r r' => Utils.Qsum r' == Utils.Qsum r)
      (mrows (mk_mat 3 [[1; 2; 3]; [4; 5; 6]])) (mrows merged).
Proof.
  apply (combine_last_columns_keeps_row_sums (mk_mat 3 [[1; 2; 3]; [4; 5; 6]])).
  - cbn. lia.
  - cbn. repeat constructor.
Defined.

(** ** bin_data_energy3D on rationals *)

Lemma bin_data_energy3D_result_witness :
  bin_data_energy3D toy_input 1 true [toy_cube] = (Ok (Some toy_input), [toy_cube]) /\
  (exists a' h',
     bin_data_energy3D toy_input 2 true [toy_cube] = (Ok (Some a'), h') /\
     (length [toy_cube] <= base a')%nat /\
     shows h' toy_input toy_cube /\
     shows h' a' (map (map (bin_channels 2 true (shape2 toy_cube))) toy_cube)) /\
  (exists h', bin_data_energy3D toy_input 5 true [toy_cube] = (Ok None, h') /\
              shows h' toy_input toy_cube).
Proof.
  assert (Hs : shows [toy_cube] toy_input toy_cube) by reflexivity.
  split; [|split].
  - apply (bin_data_energy3D_result [toy_cube] toy_input toy_cube 1 true Hs). reflexivity.
  - apply (bin_data_energy3D_result [toy_cube] toy_input toy_cube 2 true Hs). lia.
  - apply (bin_data_energy3D_result [toy_cube] toy_input toy_cube 5 true Hs). lia.
Defined.

Lemma bin_channels_picks_witness :
  length (bin_channels 3 false 7 [10; 20; 30; 40; 50; 60; 70]) = (7 / Z.to_nat 3)%nat /\
  forall k, (k < 7 / Z.to_nat 3)%nat ->
            bin_channels 3 false 7 [10; 20; 30; 40; 50; 60; 70] !! k
            = [10; 20; 30; 40; 50; 60; 70] !! (Z.to_nat 3 * k)%nat.
Proof.
  destruct (bin_channels_picks 3 false 7 [10; 20; 30; 40; 50; 60; 70]) as [H1 H2];
    [lia | reflexivity |].
  split; [exact H1 | exact (H2 eq_refl)].
Defined.

Lemma take_drop_2 (s : list Q) (i : nat) (x0 x1 : Q) :
  s !! i = Some x0 -> s !! S i = Some x1 -> take 2 (drop i s) = [x0; x1].
Proof.
  intros H0 H1. rewrite (drop_S s x0 i H0). cbn [take].
  rewrite (drop_S s x1 (S i) H1). reflexivity.
Qed.

Lemma take_drop_3 (s : list Q) (i : nat) (x0 x1 x2 : Q) :
  s !! i = Some x0 -> s !! S i = Some x1 -> s !! S (S i) = Some x2 ->
  take 3 (drop i s) = [x0; x1; x2].
Proof.
  intros H0 H1 H2. rewrite (drop_S s x0 i H0). cbn [take].
  now rewrite (take_drop_2 s (S i) x1 x2 H1 H2).
Qed.

Lemma take_drop_4 (s : list Q) (i : nat) (x0 x1 x2 x3 : Q) :
  s !! i = Some x0 -> s !! S i = Some x1 -> s !! S (S i) = Some x2 ->
  s !! S (S (S i)) = Some x3 ->
  take 4 (drop i s) = [x0; x1; x2; x3].
Proof.
  intros H0 H1 H2 H3. rewrite (drop_S s x0 i H0). cbn [take].
  now rewrite (take_drop_3 s (S i) x1 x2 x3 H1 H2 H3).
Qed.

(** X25: with [sum_data] the binned spectrum of [bin_data_energy3D] holds
    in channel [k] the mean of the [step] input channels of bin [k], not
    their sum: the channel times the step is the sum of the channels
    [step * k] to [step * k + step - 1] of the input. *)
Theorem bin_channels_mean (bin_step : Z) (nchan : nat) (s : list Q) :
  (2 <= bin_step <= 4)%Z -> length s = nchan ->
  forall k, (k < nchan / Z.to_nat bin_step)%nat ->
    exists v,
      bin_channels bin_step true nchan s !! k = Some v /\
      v * inject_Z bin_step
      == Utils.Qsum (take (Z.to_nat bin_step) (drop (Z.to_nat bin_step * k) s)).
Proof.
  intros Hb Hlen k Hk.
  assert (Hcase : bin_step = 2%Z \/ bin_step = 3%Z \/ bin_step = 4%Z) by lia.
  destruct Hcase as [-> | [-> | ->]].
  - change (Z.to_nat 2) with 2%nat in *.
    destruct (take_strided_lookup nchan 2 0 k s ltac:(lia) ltac:(lia) Hlen Hk) as (L0 & E0).
    destruct (take_strided_lookup nchan 2 1 k s ltac:(lia) ltac:(lia) Hlen Hk) as (L1 & E1).
    destruct (lookup_lt_is_Some_2 s (0 + k * 2)%nat ltac:(lia)) as [x0 H0].
    destruct (lookup_lt_is_Some_2 s (1 + k * 2)%nat ltac:(lia)) as [x1 H1].
    exists (f_div (f_add x0 x1) (f_of_Z 2)). split.
    + unfold bin_channels. cbn [Z.eqb Pos.eqb]. cbv zeta.
      apply vdiv_lookup, vadd_lookup; [rewrite E0 | rewrite E1]; assumption.
    + rewrite (take_drop_2 s (2 * k) x0 x1);
        [| rewrite <- H0; f_equal; lia | rewrite <- H1; f_equal; lia].
      unfold Utils.Qsum. cbn [fold_right f_div f_add f_of_Z Float_Q].
      change (inject_Z 2) with 2. field.
  - change (Z.to_nat 3) with 3%nat in *.
    destruct (take_strided_lookup nchan 3 0 k s ltac:(lia) ltac:(lia) Hlen Hk) as (L0 & E0).
    destruct (take_strided_lookup nchan 3 1 k s ltac:(lia) ltac:(lia) Hlen Hk) as (L1 & E1).
    destruct (take_strided_lookup nchan 3 2 k s ltac:(lia) ltac:(lia) Hlen Hk) as (L2 & E2).
    destruct (lookup_lt_is_Some_2 s (0 + k * 3)%nat ltac:(lia)) as [x0 H0].
    destruct (lookup_lt_is_Some_2 s (1 + k * 3)%nat ltac:(lia)) as [x1 H1].
    destruct (lookup_lt_is_Some_2 s (2 + k * 3)%nat ltac:(lia)) as [x2 H2].
    exists (f_div (f_add (f_add x0 x1) x2) (f_of_Z 3)). split.
    + unfold bin_channels. cbn [Z.eqb Pos.eqb]. cbv zeta.
      apply vdiv_lookup, vadd_lookup; [apply vadd_lookup; [rewrite E0 | rewrite E1] | rewrite E2];
        assumption.
    + rewrite (take_drop_3 s (3 * k) x0 x1 x2);
        [| rewrite <- H0; f_equal; lia | rewrite <- H1; f_equal; lia
         | rewrite <- H2; f_equal; lia].
      unfold Utils.Qsum. cbn [fold_right f_div f_add f_of_Z Float_Q].
      change (inject_Z 3) with 3. field.
  - change (Z.to_nat 4) with 4%nat in *.
    destruct (take_strided_lookup nchan 4 0 k s ltac:(lia) ltac:(lia) Hlen Hk) as (L0 & E0).
    destruct (take_strided_lookup nchan 4 1 k s ltac:(lia) ltac:(lia) Hlen Hk) as (L1 & E1).
    destruct (take_strided_lookup nchan 4 2 k s ltac:(lia) ltac:(lia) Hlen Hk) as (L2 & E2).
    destruct (take_strided_lookup nchan 4 3 k s ltac:(lia) ltac:(lia) Hlen Hk) as (L3 & E3).
    destruct (lookup_lt_is_Some_2 s (0 + k * 4)%nat ltac:(lia)) as [x0 H0].
    destruct (lookup_lt_is_Some_2 s (1 + k * 4)%nat ltac:(lia)) as [x1 H1].
    destruct (lookup_lt_is_Some_2 s (2 + k * 4)%nat ltac:(lia)) as [x2 H2].
    destruct (lookup_lt_is_Some_2 s (3 + k * 4)%nat ltac:(lia)) as [x3 H3].
    exists (f_div (f_add (f_add (f_add x0 x1) x2) x3) (f_of_Z 4)). split.
    + unfold bin_channels. cbn [Z.eqb Pos.eqb]. cbv zeta.
      apply vdiv_lookup, vadd_lookup;
        [apply vadd_lookup; [apply vadd_lookup; [rewrite E0 | rewrite E1] | rewrite E2]
        | rewrite E3]; assumption.
    + rewrite (take_drop_4 s (4 * k) x0 x1 x2 x3);
        [| rewrite <- H0; f_equal; lia | rewrite <- H1; f_equal; lia
         | rewrite <- H2; f_equal; lia | rewrite <- H3; f_equal; lia].
      unfold Utils.Qsum. cbn [fold_right f_div f_add f_of_Z Float_Q].
      change (inject_Z 4) with 4. field.
Qed.

Lemma bin_channels_mean_witness :
  exists v,
    bin_channels 2 true 5 [10; 20; 30; 40; 50] !! 1%nat = Some v /\
    v * inject_Z 2
    == Utils.Qsum (take (Z.to_nat 2) (drop (Z.to_nat 2 * 1) [10; 20; 30; 40; 50])).
Proof.
  apply (bin_channels_mean 2 5 [10; 20; 30; 40; 50]);
    [lia | reflexivity | change (1 < 2)%nat; lia].
Defined.

(** ** cal_r2 *)

Lemma sum_squares_cons (x : Q) (l : list Q) : sum_squares (x :: l) = x * x + sum_squares l.
Proof. reflexivity. Qed.

Lemma square_nonneg (x : Q) : 0 <= x * x.
Proof.
  destruct (Qlt_le_dec x 0) as [Hx | Hx].
  - assert (E : x * x == (- x) * (- x)) by ring.
    rewrite E. apply Qmult_le_0_compat; lra.
  - now apply Qmult_le_0_compat.
Qed.

Lemma sum_squares_nonneg (l : list Q) : 0 <= sum_squares l.
Proof.
  induction l as [|x l IH]; [apply Qle_refl|].
  rewrite sum_squares_cons. pose proof (square_nonneg x). lra.
Qed.

Lemma sum_squares_zero (l : list Q) :
  sum_squares l == 0 <-> Forall (fun q => q == 0) l.
Proof.
  induction l as [|x l IH].
  - split; [constructor | reflexivity].
  - rewrite sum_squares_cons. pose proof (square_nonneg x). pose proof (sum_squares_nonneg l).
    split.
    + intros E. assert (Hx : x * x == 0) by lra. assert (Hl : sum_squares l == 0) by lra.
      constructor; [|now apply IH].
      apply Qmult_integral in Hx. now destruct Hx.
    + intros Hf. inversion Hf as [|? ? Hx Hl]. subst.
      apply IH in Hl. rewrite Hx, Hl. ring.
Qed.

Lemma np_sub_same_length (a b : list Q) :
  length a = length b -> np_sub a b = Ok (zip_with Qminus a b).
Proof. intros E. unfold np_sub. now rewrite E, Nat.eqb_refl. Qed.

Lemma zip_minus_zero (a b : list Q) :
  length a = length b ->
  Forall (fun q => q == 0) (zip_with Qminus a b) <-> Forall2 Qeq a b.
Proof.
  revert b. induction a as [|x a IH]; intros [|y b] Hl; try discriminate Hl.
  - split; constructor.
  - cbn [zip_with]. split; intros Hf.
    + inversion Hf as [|? ? Hx Hr]. subst. constructor; [lra|].
      apply IH; [cbn in Hl; lia | exact Hr].
    + inversion Hf as [|? ? ? ? Hx Hr]. subst. constructor; [lra|].
      apply IH; [cbn in Hl; lia | exact Hr].
Qed.

Lemma Qsum_constant (l : list Q) (a : Q) :
  Forall (fun q => q == a) l -> Utils.Qsum l == inject_Z (Z.of_nat (length l)) * a.
Proof.
  induction 1 as [|x l Hx Hl IH].
  - cbn. ring.
  - cbn [length]. rewrite Nat2Z.inj_succ. unfold Z.succ. rewrite inject_Z_plus.
    change (Utils.Qsum (x :: l)) with (x + Utils.Qsum l). rewrite IH, Hx.
    change (inject_Z 1) with 1. ring.
Qed.

Lemma np_mean_constant (l : list Q) (a : Q) :
  l <> [] -> Forall (fun q => q == a) l -> Utils.np_mean l == a.
Proof.
  intros Hne Hf. unfold Utils.np_mean. rewrite (Qsum_constant l a Hf).
  rewrite Qmult_comm. apply Qdiv_mult_l.
  destruct l as [|x l]; [contradiction|].
  cbn [length]. rewrite Nat2Z.inj_succ. unfold Z.succ. rewrite inject_Z_plus.
  assert (0 <= inject_Z (Z.of_nat (length l))).
  { change 0 with (inject_Z 0). rewrite <- Zle_Qle. lia. }
  change (inject_Z 1) with 1. lra.
Qed.

(** X26: for data [y] that is not constant and a fit [y_cal] of the same
    length, [cal_r2] returns a number that is at most 1, and that, in
    exact arithmetic, is 1 exactly when the fit reproduces every data
    point. *)
Theorem cal_r2_at_most_one (y y_cal : list Q) (i j : nat) (a b : Q) :
  length y = length y_cal -> y !! i = Some a -> y !! j = Some b -> ~ a == b ->
  exists r, cal_r2 y y_cal = Ok (R2 r) /\ r <= 1 /\ (r == 1 <-> Forall2 Qeq y y_cal).
Proof.
  intros Hl Hi Hj Hab. unfold cal_r2. rewrite (np_sub_same_length y y_cal Hl).
  cbn [rbind]. cbv zeta.
  set (m := Utils.np_mean y).
  set (sst := sum_squares (map (fun q => q - m) y)).
  set (sse := sum_squares (zip_with Qminus y y_cal)).
  assert (Hsst : 0 < sst).
  { pose proof (sum_squares_nonneg (map (fun q => q - m) y)) as Hge. fold sst in Hge.
    destruct (Qeq_dec sst 0) as [E | E]; [|lra].
    exfalso. apply sum_squares_zero in E. rewrite Forall_lookup in E.
    assert (Ea : a - m == 0).
    { apply (E i). rewrite list_lookup_fmap, Hi. reflexivity. }
    assert (Eb : b - m == 0).
    { apply (E j). rewrite list_lookup_fmap, Hj. reflexivity. }
    apply Hab. lra. }
  assert (Hsse : 0 <= sse) by apply sum_squares_nonneg.
  destruct (Qeq_bool sst 0) eqn:Eb.
  { apply Qeq_bool_iff in Eb. lra. }
  eexists. split; [reflexivity|].
  assert (Hq : 0 <= sse / sst) by (apply Qle_shift_div_l; [exact Hsst | lra]).
  split; [lra|]. split.
  - intros E. apply zip_minus_zero; [exact Hl|]. apply sum_squares_zero. fold sse.
    assert (E0 : sse / sst == 0) by lra.
    assert (E1 : sse == sse / sst * sst) by (field; lra).
    rewrite E1, E0. ring.
  - intros Hf. apply zip_minus_zero in Hf; [|exact Hl]. apply sum_squares_zero in Hf.
    fold sse in Hf. rewrite Hf. field. lra.
Qed.

Lemma cal_r2_at_most_one_witness :
  exists r, cal_r2 [1; 2; 4] [1; 3; 3] = Ok (R2 r) /\ r <= 1 /\
            (r == 1 <-> Forall2 Qeq [1; 2; 4] [1; 3; 3]).
Proof.
  apply (cal_r2_at_most_one [1; 2; 4] [1; 3; 3] 0 1 1 2);
    [reflexivity | reflexivity | reflexivity | vm_compute; discriminate].
Defined.

(** X27: in exact arithmetic [cal_r2] returns no number for constant
    data (a spectrum of zeros, say, or the empty array): nan when the fit
    of the same length reproduces the data, minus infinity when it does
    not. *)
Theorem cal_r2_constant_data (y y_cal : list Q) (a : Q) :
  length y = length y_cal -> Forall (fun q => q == a) y ->
  (Forall2 Qeq y y_cal -> cal_r2 y y_cal = Ok R2_nan) /\
  (~ Forall2 Qeq y y_cal -> cal_r2 y y_cal = Ok R2_neg_inf).
Proof.
  intros Hl Hc. unfold cal_r2. rewrite (np_sub_same_length y y_cal Hl).
  cbn [rbind]. cbv zeta.
  assert (Hsst : sum_squares (map (fun q => q - Utils.np_mean y) y) == 0).
  { apply sum_squares_zero. destruct y as [|x y']; [constructor|].
    assert (Hm : Utils.np_mean (x :: y') == a) by (apply np_mean_constant; [discriminate | exact Hc]).
    rewrite Forall_fmap. eapply Forall_impl; [exact Hc|].
    intros q Hq. cbn. rewrite Hq, Hm. ring. }
  apply Qeq_bool_iff in Hsst. rewrite Hsst. split; intros Hf.
  - apply zip_minus_zero in Hf; [|exact Hl]. apply sum_squares_zero in Hf.
    apply Qeq_bool_iff in Hf. now rewrite Hf.
  - destruct (Qeq_bool (sum_squares (zip_with Qminus y y_cal)) 0) eqn:E; [|reflexivity].
    exfalso. apply Hf. apply zip_minus_zero; [exact Hl|].
    apply sum_squares_zero. now apply Qeq_bool_iff.
Qed.

Lemma cal_r2_constant_data_witness :
  cal_r2 [5; 5] [5; 5] = Ok R2_nan /\ cal_r2 [5; 5] [5; 6] = Ok R2_neg_inf.
Proof.
  split.
  - apply (cal_r2_constant_data [5; 5] [5; 5] 5); [reflexivity | repeat constructor..].
  - apply (cal_r2_constant_data [5; 5] [5; 6] 5); [reflexivity | repeat constructor |].
    intros Hf. inversion Hf as [|? ? ? ? _ Hr]. inversion Hr as [|? ? ? ? Hq _].
    vm_compute in Hq. discriminate Hq.
Defined.

(** ** get_branching_ratio *)

Section BranchingRatio.

Context {EX : External (F := Q)}.

Lemma dict_get_permutation {V : Type} (k : string) (d d' : list (string * V)) :
  Permutation d d' -> List.NoDup (map fst d) -> dict_get k d' = dict_get k d.
Proof.
  induction 1 as [| [k1 v1] d d' Hp IH | [k1 v1] [k2 v2] d | d1 d2 d3 Hp1 IH1 Hp2 IH2];
    intros Hnd.
  - reflexivity.
  - cbn [dict_get]. destruct (String.eqb k k1); [reflexivity|].
    apply IH. cbn in Hnd. now inversion Hnd.
  - cbn [dict_get]. destruct (String.eqb k k1) eqn:E1, (String.eqb k k2) eqn:E2;
      try reflexivity.
    apply String.eqb_eq in E1, E2. subst k1 k2. cbn in Hnd.
    inversion Hnd as [|? ? Hnin _]. exfalso. apply Hnin. now left.
  - rewrite IH2, IH1; [reflexivity | assumption |].
    eapply Permutation_NoDup; [|exact Hnd]. now apply Permutation_map.
Qed.

(** The loop that sums the cross-sections of the lines. *)
Lemma sum_lines_ok (e : element) (energy : Q) (c : string -> Q) (lines : list string) (acc : Q) :
  (forall v, In v lines -> cs e energy v = Ok (c v)) ->
  rfold (fun sum_v v => try x <- cs e energy v; Ok (f_add sum_v x)) lines acc
  = Ok (fold_left (fun a v => a + c v) lines acc).
Proof.
  revert acc. induction lines as [|v lines IH]; intros acc Hcs; [reflexivity|].
  cbn [rfold fold_left]. rewrite (Hcs v) by now left. cbn [rbind].
  apply IH. intros v' Hv'. apply Hcs. now right.
Qed.

Lemma sum_lines_ge (c : string -> Q) (lines : list string) (acc : Q) :
  (forall v, In v lines -> 0 <= c v) -> acc <= fold_left (fun a v => a + c v) lines acc.
Proof.
  revert acc. induction lines as [|v lines IH]; intros acc Hc; [apply Qle_refl|].
  cbn [fold_left]. eapply Qle_trans; [|apply IH; intros v' Hv'; apply Hc; now right].
  assert (0 <= c v) by (apply Hc; now left). lra.
Qed.

Lemma sum_lines_perm (c : string -> Q) (l l' : list string) :
  Permutation l l' ->
  forall a a', a == a' ->
    fold_left (fun a v => a + c v) l a == fold_left (fun a v => a + c v) l' a'.
Proof.
  induction 1 as [| x l l' Hp IH | x y l | l1 l2 l3 Hp1 IH1 Hp2 IH2]; intros a a' Ha.
  - exact Ha.
  - cbn [fold_left]. apply IH. now rewrite Ha.
  - cbn [fold_left].
    assert (Hrefl : forall b b', b == b' ->
              fold_left (fun a v => a + c v) l b == fold_left (fun a v => a + c v) l b').
    { clear. induction l as [|z l IH]; intros b b' Hb; [exact Hb|].
      cbn [fold_left]. apply IH. now rewrite Hb. }
    apply Hrefl. rewrite Ha. ring.
  - rewrite (IH1 a a' Ha). apply IH2. reflexivity.
Qed.

Lemma branching_ratio_value (TL : list (string * list string)) (first : string)
  (rest : list string) (e : element) (energy : Q) (c : string -> Q) :
  dict_get "K" TL = Some (first :: rest) ->
  Element "Mg" = Ok e ->
  (forall v, In v (first :: rest) -> cs e energy v = Ok (c v)) ->
  (forall v, In v (first :: rest) -> 0 <= c v) ->
  0 < c first ->
  get_branching_ratio TL "Mg_K" energy
  = Ok (c first / fold_left (fun a v => a + c v) rest (0 + c first)) /\
  c first <= fold_left (fun a v => a + c v) rest (0 + c first).
Proof.
  intros Htl He Hcs Hc Hfirst.
  assert (Hge : c first <= fold_left (fun a v => a + c v) rest (0 + c first)).
  { eapply Qle_trans; [|apply sum_lines_ge; intros v Hv; apply Hc; now right]. lra. }
  split; [|exact Hge].
  unfold get_branching_ratio.
  change (split "_" "Mg_K") with ["Mg"; "K"]%string. cbv iota.
  rewrite He. cbn [rbind]. change (upper "K") with "K"%string. rewrite Htl.
  rewrite (sum_lines_ok e energy c (first :: rest) (f_of_Z 0) Hcs). cbn [rbind].
  rewrite (Hcs first) by now left. cbn [rbind fold_left].
  change (f_of_Z 0) with (inject_Z 0). change (inject_Z 0) with 0.
  unfold py_truediv, Float_Q.
  destruct (Qeq_bool (fold_left (fun a v => a + c v) rest (0 + c first)) 0) eqn:E;
    [|reflexivity].
  apply Qeq_bool_iff in E. rewrite E in Hge. exfalso. apply (Qlt_not_le _ _ Hfirst Hge).
Qed.

(** C4, as the code has it: where the catalog gives the K lines of Mg
    non-negative cross-sections, positive for the line listed first,
    [get_branching_ratio("Mg_K", energy)] returns a value in (0, 1].  The
    value is the same for a table whose entries are in another order, and
    for a table that lists the K lines after the first in another order;
    the line listed first is the numerator. *)
Theorem branching_ratio_Mg_K (TL : list (string * list string)) (first : string)
  (rest : list string) (e : element) (energy : Q) (c : string -> Q) :
  dict_get "K" TL = Some (first :: rest) ->
  Element "Mg" = Ok e ->
  (forall v, In v (first :: rest) -> cs e energy v = Ok (c v)) ->
  (forall v, In v (first :: rest) -> 0 <= c v) ->
  0 < c first ->
  exists r,
    get_branching_ratio TL "Mg_K" energy = Ok r /\ 0 < r /\ r <= 1 /\
    (forall TL', Permutation TL TL' -> List.NoDup (map fst TL) ->
       get_branching_ratio TL' "Mg_K" energy = Ok r) /\
    (forall TL' rest', dict_get "K" TL' = Some (first :: rest') -> Permutation rest rest' ->
       exists r', get_branching_ratio TL' "Mg_K" energy = Ok r' /\ r' == r).
Proof.
  intros Htl He Hcs Hc Hfirst.
  destruct (branching_ratio_value TL first rest e energy c Htl He Hcs Hc Hfirst) as (Hr & Hge).
  eexists. split; [exact Hr|].
  assert (Hpos : 0 < fold_left (fun a v => a + c v) rest (0 + c first))
    by (eapply Qlt_le_trans; eassumption).
  split; [|split; [|split]].
  - apply Qlt_shift_div_l; [exact Hpos | lra].
  - apply Qle_shift_div_r; [exact Hpos | lra].
  - intros TL' Hp Hnd.
    assert (Htl' : dict_get "K" TL' = Some (first :: rest))
      by (rewrite (dict_get_permutation "K" TL TL' Hp Hnd); exact Htl).
    exact (proj1 (branching_ratio_value TL' first rest e energy c Htl' He Hcs Hc Hfirst)).
  - intros TL' rest' Htl' Hp.
    assert (Hin : forall v, In v (first :: rest') -> In v (first :: rest)).
    { intros v [Hv | Hv]; [now left | right].
      eapply Permutation_in; [apply Permutation_sym; exact Hp | exact Hv]. }
    destruct (branching_ratio_value TL' first rest' e energy c Htl' He
                (fun v Hv => Hcs v (Hin v Hv)) (fun v Hv => Hc v (Hin v Hv)) Hfirst)
      as (Hr' & _).
    eexists. split; [exact Hr'|].
    rewrite (sum_lines_perm c rest rest' Hp (0 + c first) (0 + c first)) by reflexivity.
    reflexivity.
Qed.

Lemma sum_lines_zero (c : string -> Q) (lines : list string) (acc : Q) :
  (forall v, In v lines -> c v == 0) -> acc == 0 ->
  fold_left (fun a v => a + c v) lines acc == 0.
Proof.
  revert acc. induction lines as [|v lines IH]; intros acc Hc Ha; [exact Ha|].
  cbn [fold_left]. apply IH; [intros v' Hv'; apply Hc; now right|].
  rewrite Ha, (Hc v) by now left. ring.
Qed.

(** X28: when the catalog gives a zero cross-section for every line of
    the series at the given energy (a series the beam does not excite),
    [get_branching_ratio] raises [ZeroDivisionError]: it divides by the
    sum of the cross-sections. *)
Theorem get_branching_ratio_unexcited (TL : list (string * list string))
  (elemental_line name line : string) (lines : list string) (e : element) (energy : Q)
  (c : string -> Q) :
  split "_" elemental_line = [name; line] ->
  Element name = Ok e ->
  dict_get (upper line) TL = Some lines -> lines <> [] ->
  (forall v, In v lines -> cs e energy v = Ok (c v)) ->
  (forall v, In v lines -> c v == 0) ->
  get_branching_ratio TL elemental_line energy = Raise ZeroDivisionError.
Proof.
  intros Hs He Hd Hne Hcs Hc. unfold get_branching_ratio.
  rewrite Hs, He. cbn [rbind]. rewrite Hd.
  rewrite (sum_lines_ok e energy c lines (f_of_Z 0) Hcs). cbn [rbind].
  destruct lines as [|first rest]; [contradiction|].
  rewrite (Hcs first) by now left. cbn [rbind].
  unfold py_truediv, Float_Q.
  match goal with
  | |- (if Qeq_bool ?s 0 then _ else _) = _ => destruct (Qeq_bool s 0) eqn:E
  end; [reflexivity|].
  exfalso. apply Qeq_bool_neq in E. apply E.
  apply sum_lines_zero; [exact Hc | reflexivity].
Qed.

End BranchingRatio.

Lemma branching_ratio_Mg_K_witness :
  exists r,
    get_branching_ratio toy_lookup "Mg_K" 12 = Ok r /\ 0 < r /\ r <= 1 /\
    (forall TL', Permutation toy_lookup TL' -> List.NoDup (map fst toy_lookup) ->
       get_branching_ratio TL' "Mg_K" 12 = Ok r) /\
    (forall TL' rest', dict_get "K" TL' = Some ("ka1"%string :: rest') ->
       Permutation ["kb1"%string] rest' ->
       exists r', get_branching_ratio TL' "Mg_K" 12 = Ok r' /\ r' == r).
Proof.
  apply (@branching_ratio_Mg_K toy_external toy_lookup "ka1" ["kb1"%string] "Mg"%string 12
           toy_cross_section).
  - reflexivity.
  - reflexivity.
  - intros v Hv. reflexivity.
  - intros v [<- | [<- | []]]; vm_compute; discriminate.
  - reflexivity.
Defined.

(** C4, as claimed, fails: listing the K lines of the table in another
    order changes the value for "Mg_K" from 3/4 to 1/4. *)
Lemma branching_ratio_reordered_counterexample :
  Permutation ["ka1"; "kb1"]%string ["kb1"; "ka1"]%string /\
  get_branching_ratio toy_lookup "Mg_K" 12 = Ok (3 # 4) /\
  get_branching_ratio toy_lookup_reordered "Mg_K" 12 = Ok (1 # 4) /\
  ~ (3 # 4) == (1 # 4).
Proof.
  split; [apply perm_swap|]. split; [reflexivity|]. split; [reflexivity|]. discriminate.
Qed.

Lemma get_branching_ratio_unexcited_witness :
  get_branching_ratio [("L", ["la1"; "lb1"])]%string "Fe_L" 1 = Raise ZeroDivisionError.
Proof.
  apply (@get_branching_ratio_unexcited toy_external [("L", ["la1"; "lb1"])]%string "Fe_L"
           "Fe" "L" ["la1"; "lb1"]%string "Fe"%string 1 toy_cross_section).
  - reflexivity.
  - reflexivity.
  - reflexivity.
  - discriminate.
  - intros v Hv. reflexivity.
  - intros v [<- | [<- | []]]; reflexivity.
Defined.

End FitSpectrumFacts.
